(** * The per-thread pixel-buffer cache of libvips (libvips/iofuncs/buffer.c)

    A shallow embedding of buffer.c: the VipsBuffer objects live in an explicit
    heap, the calling thread's VipsBufferCache lives in an explicit
    thread-local slot, and every C function is a computation in a small
    state-and-abort monad.  A failed [g_assert] and an access through a
    dangling pointer are results of their own, so that "the call is rejected"
    can be stated and proved.

    The model is of ONE thread: [g_thread_self()] is constant, so the
    assertions that compare thread identities always hold and are dropped.
    C [int] fields are modelled by [Z].  The sums of rectangle fields that the
    loop of [buffer_find] computes are the [int]s that the compiled code
    keeps of them, modulo 2^32 in two's complement (the C standard leaves a
    signed sum out of range undefined).  The counters [ref_count] and
    [n_reserve] are exact: a buffer would need 2^31 references to overflow
    them.  [size_t] arithmetic wraps modulo 2^64. *)

From stdpp Require Import gmap list.

Open Scope Z_scope.

(** ** Data model *)

(** Addresses.  A [VipsImage *] that is not NULL, a [VipsBuffer *] that is not
    NULL, and a block of pixel memory handed out by the tracked allocator. *)
Definition image := positive.
Definition ptr := positive.
Definition block := positive.

Record VipsRect := mkRect {
  r_left : Z;
  r_top : Z;
  r_width : Z;
  r_height : Z }.

(** [struct _VipsBuffer].  [b_im = None] is [im == NULL]; [b_cache] tells
    whether the [cache] field points to this thread's cache or is NULL;
    [b_buf = None] is [buf == NULL]. *)
Record VipsBuffer := mkBuffer {
  b_ref_count : Z;
  b_im : option image;
  b_area : VipsRect;
  b_done : bool;
  b_cache : bool;
  b_buf : option block;
  b_bsize : Z }.

(** [struct _VipsBufferCacheList]: the published buffers of one image on
    this thread, most recently published first. *)
Record VipsBufferCacheList := mkCacheList {
  cl_buffers : list ptr;
  cl_im : option image }.

(** [struct _VipsBufferCache].  The GHashTable is keyed by the image pointer
    (g_direct_hash), NULL included, hence the [option image] keys. *)
Record VipsBufferCache := mkCache {
  c_hash : gmap (option image) VipsBufferCacheList;
  c_reserve : list ptr;
  c_n_reserve : Z }.

(** The memory this file touches: the VipsBuffer structs that are allocated,
    the [thread_buffer_cache_key] slot of this thread, and the pixel blocks
    the tracked allocator has handed out and not yet taken back. *)
Record State := mkState {
  heap : gmap ptr VipsBuffer;
  tls : option VipsBufferCache;
  tracked : gset block }.

Definition buffer_cache_max_reserve : Z := 40.

(** Field assignments. *)
Definition set_ref_count (n : Z) (b : VipsBuffer) : VipsBuffer :=
  mkBuffer n (b_im b) (b_area b) (b_done b) (b_cache b) (b_buf b) (b_bsize b).
Definition set_im (i : option image) (b : VipsBuffer) : VipsBuffer :=
  mkBuffer (b_ref_count b) i (b_area b) (b_done b) (b_cache b) (b_buf b) (b_bsize b).
Definition set_area (r : VipsRect) (b : VipsBuffer) : VipsBuffer :=
  mkBuffer (b_ref_count b) (b_im b) r (b_done b) (b_cache b) (b_buf b) (b_bsize b).
Definition set_done (d : bool) (b : VipsBuffer) : VipsBuffer :=
  mkBuffer (b_ref_count b) (b_im b) (b_area b) d (b_cache b) (b_buf b) (b_bsize b).
Definition set_cache (c : bool) (b : VipsBuffer) : VipsBuffer :=
  mkBuffer (b_ref_count b) (b_im b) (b_area b) (b_done b) c (b_buf b) (b_bsize b).
Definition set_buf (o : option block) (b : VipsBuffer) : VipsBuffer :=
  mkBuffer (b_ref_count b) (b_im b) (b_area b) (b_done b) (b_cache b) o (b_bsize b).
Definition set_bsize (n : Z) (b : VipsBuffer) : VipsBuffer :=
  mkBuffer (b_ref_count b) (b_im b) (b_area b) (b_done b) (b_cache b) (b_buf b) n.
Definition set_width (w : Z) (r : VipsRect) : VipsRect :=
  mkRect (r_left r) (r_top r) w (r_height r).
Definition set_height (h : Z) (r : VipsRect) : VipsRect :=
  mkRect (r_left r) (r_top r) (r_width r) h.

Definition set_buffers (l : list ptr) (cl : VipsBufferCacheList) : VipsBufferCacheList :=
  mkCacheList l (cl_im cl).
Definition set_hash (h : gmap (option image) VipsBufferCacheList)
    (c : VipsBufferCache) : VipsBufferCache :=
  mkCache h (c_reserve c) (c_n_reserve c).
Definition set_reserve (l : list ptr) (c : VipsBufferCache) : VipsBufferCache :=
  mkCache (c_hash c) l (c_n_reserve c).
Definition set_n_reserve (n : Z) (c : VipsBufferCache) : VipsBufferCache :=
  mkCache (c_hash c) (c_reserve c) n.

Definition set_heap (h : gmap ptr VipsBuffer) (s : State) : State :=
  mkState h (tls s) (tracked s).
Definition set_tls (c : option VipsBufferCache) (s : State) : State :=
  mkState (heap s) c (tracked s).
Definition set_tracked (t : gset block) (s : State) : State :=
  mkState (heap s) (tls s) t.

(** ** GSList *)

Definition g_slist_prepend (l : list ptr) (x : ptr) : list ptr := x :: l.

Definition g_slist_find (l : list ptr) (x : ptr) : bool := bool_decide (x ∈ l).

(** Removes the first node that holds [x], if there is one. *)
Fixpoint g_slist_remove (l : list ptr) (x : ptr) : list ptr :=
  match l with
  | [] => []
  | y :: l' => if decide (y = x) then l' else y :: g_slist_remove l' x
  end.

(** ** Rectangles *)

(** Modelled from the spec: [vips_rect_includesrect] of rect.c, which is not
    under src/.  The spec lists it as the collaborator "rectEncloses(outer,
    inner)"; the comment in [buffer_find] says that its loop inlines this very
    test, so the inlined comparison is taken as its body.  The spec defines
    enclosure on pixels, so the sums are exact here; the loop of
    [buffer_find] itself is embedded below from the source, with the [int]
    sums that it computes. *)
Definition vips_rect_includesrect (r1 r2 : VipsRect) : bool :=
  (r_left r1 <=? r_left r2) &&
  (r_top r1 <=? r_top r2) &&
  (r_left r1 + r_width r1 >=? r_left r2 + r_width r2) &&
  (r_top r1 + r_height r1 >=? r_top r2 + r_height r2).

(** ** C int *)

(** The fields of a VipsRect are [int], 32 bits wide. *)
Definition INT_MIN : Z := -2147483648.
Definition INT_MAX : Z := 2147483647.

(** The [int] that the compiled code keeps of an exact value: the low 32
    bits, in two's complement. *)
Definition to_int (z : Z) : Z := (z + 2147483648) mod 4294967296 - 2147483648.

(** [a + b] on two [int]s. *)
Definition int_add (a b : Z) : Z := to_int (a + b).

(** ** The monad of the C functions *)

Inductive outcome (A : Type) : Type :=
  | Ret (a : A) (s : State)   (* the call returns [a] *)
  | AssertFail                (* a [g_assert] failed: the process aborts *)
  | Fault.                    (* access through a NULL or dangling pointer *)
Arguments Ret {A} a s.
Arguments AssertFail {A}.
Arguments Fault {A}.

Definition M (A : Type) : Type := State → outcome A.

Definition ret {A} (a : A) : M A := λ s, Ret a s.

Definition bind {A B} (m : M A) (k : A → M B) : M B :=
  λ s, match m s with
       | Ret a s' => k a s'
       | AssertFail => AssertFail
       | Fault => Fault
       end.

Notation "x <- m ;; k" := (bind m (λ x, k))
  (at level 100, m at next level, right associativity).
Notation "m ;;; k" := (bind m (λ _, k))
  (at level 100, right associativity).

Definition g_assert (c : bool) : M unit :=
  λ s, if c then Ret tt s else AssertFail.

Definition fault {A} : M A := λ _, Fault.

(** Reading a buffer through its pointer; the struct must be allocated. *)
Definition deref (p : ptr) : M VipsBuffer :=
  λ s, match heap s !! p with
       | Some b => Ret b s
       | None => Fault
       end.

(** [buffer->field = v]. *)
Definition modify (p : ptr) (f : VipsBuffer → VipsBuffer) : M unit :=
  λ s, match heap s !! p with
       | Some b => Ret tt (set_heap (<[p := f b]> (heap s)) s)
       | None => Fault
       end.

(** [cache->field], read and written through the pointer that
    [buffer_cache_get] returned. *)
Definition read_cache : M VipsBufferCache :=
  λ s, match tls s with
       | Some c => Ret c s
       | None => Fault
       end.

Definition modify_cache (f : VipsBufferCache → VipsBufferCache) : M unit :=
  λ s, match tls s with
       | Some c => Ret tt (set_tls (Some (f c)) s)
       | None => Fault
       end.

(** ** The tracked allocator *)

(** Modelled from the spec: [vips_tracked_malloc] and [vips_tracked_free] of
    memory.c, which is not under src/ ("allocate(size) -> bytes | failure,
    free(bytes)").  Whether the request can be satisfied is not decided by
    this file: [mem_ok] is the allocator's answer.  Freeing NULL does
    nothing, as for free(3). *)
Definition vips_tracked_malloc (mem_ok : bool) (size : Z) : M (option block) :=
  λ s, if mem_ok
       then let k := fresh (tracked s) in
            Ret (Some k) (set_tracked ({[k]} ∪ tracked s) s)
       else Ret None s.

Definition vips_tracked_free (o : option block) : M unit :=
  λ s, match o with
       | Some k => Ret tt (set_tracked (tracked s ∖ {[k]}) s)
       | None => Ret tt s
       end.

(** [g_new0( VipsBuffer, 1 )]: a zeroed struct at an address that is not in
    use (glib aborts rather than return NULL). *)
Definition zero_buffer : VipsBuffer :=
  mkBuffer 0 None (mkRect 0 0 0 0) false false None 0.

Definition g_new0 : M ptr :=
  λ s, let p := fresh (dom (heap s)) in
       Ret p (set_heap (<[p := zero_buffer]> (heap s)) s).

Definition g_free (p : ptr) : M unit :=
  λ s, match heap s !! p with
       | Some _ => Ret tt (set_heap (delete p (heap s)) s)
       | None => Fault
       end.

Definition size_t (n : Z) : Z := n mod 2 ^ 64.

(** ** buffer.c *)

(** [VIPS_IMAGE_SIZEOF_PEL( im )], the bytes of one pixel of an image: a
    macro of image.h over fields of VipsImage, neither of which is under
    src/ (the spec's collaborator "bytesPerPixel(image)").  The buffer cache
    is parametric in it. *)
Class ImageSize := sizeof_pel : image → Z.

Section buffer.

Context `{ImageSize}.

Definition vips_buffer_free (buffer : ptr) : M unit :=
  b <- deref buffer ;;
  vips_tracked_free (b_buf b) ;;;
  modify buffer (set_bsize 0) ;;;
  g_free buffer.

Definition buffer_cache_list_new (im : option image) : VipsBufferCacheList :=
  mkCacheList [] im.

Definition buffer_cache_new : VipsBufferCache :=
  mkCache ∅ [] 0.

(** The thread's cache, made on first use. *)
Definition buffer_cache_get : M VipsBufferCache :=
  λ s, match tls s with
       | Some c => Ret c s
       | None => Ret buffer_cache_new (set_tls (Some buffer_cache_new) s)
       end.

(** [cache_list->buffers = f( cache_list->buffers )] for the list of [im]. *)
Definition modify_buffers (im : option image) (f : list ptr → list ptr) : M unit :=
  cache <- read_cache ;;
  match c_hash cache !! im with
  | Some cl =>
      modify_cache (set_hash (<[im := set_buffers (f (cl_buffers cl)) cl]> (c_hash cache)))
  | None => fault
  end.

Definition vips_buffer_done (buffer : ptr) : M unit :=
  b <- deref buffer ;;
  if b_done b then ret tt
  else
    let im := b_im b in
    cache <- buffer_cache_get ;;
    cache_list <-
      match c_hash cache !! im with
      | Some cl => ret cl
      | None =>
          let cl := buffer_cache_list_new im in
          modify_cache (set_hash (<[im := cl]> (c_hash cache))) ;;;
          ret cl
      end ;;
    g_assert (negb (g_slist_find (cl_buffers cache_list) buffer)) ;;;
    modify_buffers im (λ l, g_slist_prepend l buffer) ;;;
    modify buffer (set_done true) ;;;
    modify buffer (set_cache true).

Definition vips_buffer_undone (buffer : ptr) : M unit :=
  b <- deref buffer ;;
  (if b_done b then
     let im := b_im b in
     (* cache = buffer->cache; cache->thread, cache->hash *)
     (if b_cache b then ret tt else fault) ;;;
     cache <- read_cache ;;
     match c_hash cache !! im with
     | None => g_assert false
     | Some cache_list =>
         g_assert (g_slist_find (cl_buffers cache_list) buffer) ;;;
         modify_buffers im (λ l, g_slist_remove l buffer) ;;;
         modify buffer (set_done false) ;;;
         modify buffer (set_cache false)
     end
   else ret tt) ;;;
  modify buffer (λ b, set_area (set_width 0 (b_area b)) b) ;;;
  modify buffer (λ b, set_area (set_height 0 (b_area b)) b).

Definition vips_buffer_unref (buffer : ptr) : M unit :=
  b <- deref buffer ;;
  g_assert (0 <? b_ref_count b) ;;;
  modify buffer (λ b, set_ref_count (b_ref_count b - 1) b) ;;;
  b <- deref buffer ;;
  if b_ref_count b =? 0 then
    buffer_cache_get ;;;
    vips_buffer_undone buffer ;;;
    cache <- read_cache ;;
    if c_n_reserve cache <? buffer_cache_max_reserve then
      modify_cache (λ c, set_reserve (g_slist_prepend (c_reserve c) buffer) c) ;;;
      modify_cache (λ c, set_n_reserve (c_n_reserve c + 1) c) ;;;
      modify buffer (set_done false) ;;;
      modify buffer (set_cache false) ;;;
      modify buffer (set_im None) ;;;
      modify buffer (λ b, set_area (set_width 0 (b_area b)) b) ;;;
      modify buffer (λ b, set_area (set_height 0 (b_area b)) b)
    else
      vips_buffer_free buffer
  else ret tt.

(** Returns 0, or -1 when the pixel memory could not be allocated. *)
Definition buffer_move (mem_ok : bool) (buffer : ptr) (area : VipsRect) : M Z :=
  b <- deref buffer ;;
  let im := b_im b in
  g_assert (b_ref_count b =? 1) ;;;
  vips_buffer_undone buffer ;;;
  b <- deref buffer ;;
  g_assert (negb (b_done b)) ;;;
  modify buffer (set_area area) ;;;
  match im with
  | None => fault   (* VIPS_IMAGE_SIZEOF_PEL( NULL ) *)
  | Some i =>
      let new_bsize := size_t (sizeof_pel i * r_width area * r_height area) in
      b <- deref buffer ;;
      if (b_bsize b <? new_bsize) || negb (bool_decide (is_Some (b_buf b))) then
        modify buffer (set_bsize new_bsize) ;;;
        (* VIPS_FREEF( vips_tracked_free, buffer->buf ) *)
        match b_buf b with
         | Some k => vips_tracked_free (Some k) ;;; modify buffer (set_buf None)
         | None => ret tt
         end ;;;
        o <- vips_tracked_malloc mem_ok new_bsize ;;
        modify buffer (set_buf o) ;;;
        match o with
        | None => ret (-1)
        | Some _ => ret 0
        end
      else ret 0
  end.

(** Returns [None] for NULL. *)
Definition vips_buffer_new (mem_ok : bool) (im : image) (area : VipsRect) : M (option ptr) :=
  cache <- buffer_cache_get ;;
  buffer <-
    match c_reserve cache with
    | p :: _ =>
        modify_cache (λ c, set_reserve (g_slist_remove (c_reserve c) p) c) ;;;
        modify_cache (λ c, set_n_reserve (c_n_reserve c - 1) c) ;;;
        modify p (set_ref_count 1) ;;;
        modify p (set_im (Some im)) ;;;
        modify p (set_done false) ;;;
        modify p (set_cache false) ;;;
        ret p
    | [] =>
        p <- g_new0 ;;
        modify p (set_ref_count 1) ;;;
        modify p (set_im (Some im)) ;;;
        modify p (set_done false) ;;;
        modify p (set_cache false) ;;;
        modify p (set_buf None) ;;;
        modify p (set_bsize 0) ;;;
        ret p
    end ;;
  r <- buffer_move mem_ok buffer area ;;
  if r =? 0 then ret (Some buffer)
  else vips_buffer_free buffer ;;; ret None.

(** The loop of [buffer_find] over the list nodes. *)
Fixpoint buffer_find_loop (p : list ptr) (r : VipsRect) : M (option ptr) :=
  match p with
  | [] => ret None
  | buffer :: p' =>
      b <- deref buffer ;;
      let area := b_area b in
      if (r_left area <=? r_left r) &&
         (r_top area <=? r_top r) &&
         (int_add (r_left area) (r_width area) >=? int_add (r_left r) (r_width r)) &&
         (int_add (r_top area) (r_height area) >=? int_add (r_top r) (r_height r))
      then
        modify buffer (λ b, set_ref_count (b_ref_count b + 1) b) ;;;
        ret (Some buffer)
      else buffer_find_loop p' r
  end.

Definition buffer_find (im : image) (r : VipsRect) : M (option ptr) :=
  cache <- buffer_cache_get ;;
  let p := match c_hash cache !! Some im with
           | Some cache_list => cl_buffers cache_list
           | None => []
           end in
  buffer_find_loop p r.

Definition vips_buffer_ref (mem_ok : bool) (im : image) (area : VipsRect) : M (option ptr) :=
  o <- buffer_find im area ;;
  match o with
  | Some buffer => ret (Some buffer)
  | None => vips_buffer_new mem_ok im area
  end.

(** [VIPS_FREEF( vips_buffer_unref, old_buffer )]. *)
Definition unref_if (old_buffer : option ptr) : M unit :=
  match old_buffer with
  | Some p => vips_buffer_unref p
  | None => ret tt
  end.

Definition vips_buffer_unref_ref (mem_ok : bool) (old_buffer : option ptr)
    (im : image) (area : VipsRect) : M (option ptr) :=
  (* g_assert( !old_buffer || old_buffer->im == im ) *)
  match old_buffer with
   | Some p => b <- deref p ;; g_assert (bool_decide (b_im b = Some im))
   | None => ret tt
   end ;;;
  (* Is the current buffer OK? *)
  ok <-
    match old_buffer with
    | Some p => b <- deref p ;; ret (vips_rect_includesrect (b_area b) area)
    | None => ret false
    end ;;
  if ok then ret old_buffer
  else
    (* Does the new area already have a buffer? *)
    o <- buffer_find im area ;;
    match o with
    | Some buffer => unref_if old_buffer ;;; ret (Some buffer)
    | None =>
        (* Fallback ... unref the old one, make a new one. *)
        let fallback := unref_if old_buffer ;;; vips_buffer_new mem_ok im area in
        match old_buffer with
        | Some p =>
            b <- deref p ;;
            (* Is the current buffer unshared? We can just move it. *)
            if b_ref_count b =? 1 then
              r <- buffer_move mem_ok p area ;;
              if r =? 0 then ret (Some p)
              else vips_buffer_unref p ;;; ret None
            else fallback
        | None => fallback
        end
    end.

(** ** Shutdown *)

(** The loop of [buffer_cache_list_free]: the buffers of the list are marked
    undone and stay allocated. *)
Fixpoint buffer_cache_list_free_loop (p : list ptr) : M unit :=
  match p with
  | [] => ret tt
  | buffer :: p' =>
      modify buffer (set_done false) ;;;
      buffer_cache_list_free_loop p'
  end.

Definition buffer_cache_list_free (cache_list : VipsBufferCacheList) : M unit :=
  buffer_cache_list_free_loop (cl_buffers cache_list).

(** [g_hash_table_destroy( cache->hash )]: the table was made with
    [buffer_cache_list_free] as the destroy function of its values, and calls
    it on every value, here in the order of [map_to_list]. *)
Fixpoint destroy_values (vs : list (option image * VipsBufferCacheList)) : M unit :=
  match vs with
  | [] => ret tt
  | v :: vs' => buffer_cache_list_free v.2 ;;; destroy_values vs'
  end.

Definition g_hash_table_destroy (h : gmap (option image) VipsBufferCacheList) : M unit :=
  destroy_values (map_to_list h).

(** The loop of [buffer_cache_free] over the reserve. *)
Fixpoint buffer_cache_free_loop (p : list ptr) : M unit :=
  match p with
  | [] => ret tt
  | buffer :: p' =>
      vips_buffer_free buffer ;;;
      buffer_cache_free_loop p'
  end.

Definition buffer_cache_free (cache : VipsBufferCache) : M unit :=
  buffer_cache_free_loop (c_reserve cache) ;;;
  g_hash_table_destroy (c_hash cache).

(** [g_private_set( thread_buffer_cache_key, NULL )]. *)
Definition g_private_set_NULL : M unit := λ s, Ret tt (set_tls None s).

Definition vips__buffer_shutdown : M unit :=
  λ s, match tls s with
       | Some cache => (buffer_cache_free cache ;;; g_private_set_NULL) s
       | None => Ret tt s
       end.

(** [q] is in one of the lists [vs]. *)
Definition listed_in (vs : list (option image * VipsBufferCacheList)) (q : ptr) : Prop :=
  ∃ v, v ∈ vs ∧ q ∈ cl_buffers v.2.

(** ** States, invariants and runs *)

(** Before [vips__buffer_init] has been followed by any call: no buffer, no
    cache on this thread, no pixel memory. *)
Definition init : State := mkState ∅ None ∅.

(** The cache that [buffer_cache_get] hands out in state [s]. *)
Definition cache_of (s : State) : VipsBufferCache :=
  default buffer_cache_new (tls s).

(** The published buffers of image pointer [k], in list order. *)
Definition buffers_of (c : VipsBufferCache) (k : option image) : list ptr :=
  match c_hash c !! k with
  | Some cl => cl_buffers cl
  | None => []
  end.

(** [p] is registered in the BufferCacheList of some image. *)
Definition registered (s : State) (p : ptr) : Prop :=
  ∃ k, p ∈ buffers_of (cache_of s) k.

(** The caller holds a reference to [p]. *)
Definition held (s : State) (p : ptr) : Prop :=
  ∃ b, heap s !! p = Some b ∧ 0 < b_ref_count b.

(** What holds of every allocated buffer between two calls. *)
Record buf_ok (c : VipsBufferCache) (p : ptr) (b : VipsBuffer) : Prop := {
  ok_ref_count : 0 ≤ b_ref_count b;
  ok_done : b_done b = true →
            p ∈ buffers_of c (b_im b) ∧ b_cache b = true ∧ 0 < b_ref_count b;
  ok_undone : b_done b = false → b_cache b = false;
  ok_unref : b_ref_count b = 0 →
             p ∈ c_reserve c ∧ b_im b = None ∧
             r_width (b_area b) = 0 ∧ r_height (b_area b) = 0;
  ok_ref : 0 < b_ref_count b → is_Some (b_im b) }.

(** The invariant of the heap and the thread's cache. *)
Record wf (s : State) : Prop := {
  wf_lists_nodup : ∀ k, NoDup (buffers_of (cache_of s) k);
  wf_listed : ∀ k p, p ∈ buffers_of (cache_of s) k →
      ∃ b, heap s !! p = Some b ∧ b_done b = true ∧ b_im b = k;
  wf_cl_im : ∀ k cl, c_hash (cache_of s) !! k = Some cl → cl_im cl = k;
  wf_reserve_nodup : NoDup (c_reserve (cache_of s));
  wf_n_reserve : c_n_reserve (cache_of s) = Z.of_nat (length (c_reserve (cache_of s)));
  wf_reserve_max : c_n_reserve (cache_of s) ≤ buffer_cache_max_reserve;
  wf_reserved : ∀ p, p ∈ c_reserve (cache_of s) →
      ∃ b, heap s !! p = Some b ∧ b_ref_count b = 0;
  wf_buffer : ∀ p b, heap s !! p = Some b → buf_ok (cache_of s) p b }.

(** The states one thread can bring about from [init] with the public
    functions of buffer.c.  [vips_buffer_done] and [vips_buffer_undone] take a
    buffer the caller holds a reference to; the other functions check what
    they are given themselves (by assertion), and a call that does not return
    ends the run.  [vips__buffer_init] comes before the run and
    [vips__buffer_shutdown], which destroys the cache, after it. *)
Inductive reachable : State → Prop :=
  | reach_init : reachable init
  | reach_new s ok im area o s' :
      reachable s →
      vips_buffer_new ok im area s = Ret o s' → reachable s'
  | reach_ref s ok im area o s' :
      reachable s →
      vips_buffer_ref ok im area s = Ret o s' → reachable s'
  | reach_unref_ref s ok old im area o s' :
      reachable s →
      vips_buffer_unref_ref ok old im area s = Ret o s' → reachable s'
  | reach_unref s p s' :
      reachable s →
      vips_buffer_unref p s = Ret tt s' → reachable s'
  | reach_done s p s' :
      reachable s → held s p →
      vips_buffer_done p s = Ret tt s' → reachable s'
  | reach_undone s p s' :
      reachable s → held s p →
      vips_buffer_undone p s = Ret tt s' → reachable s'.

(** *** Runs as lists of calls *)

(** A call of a public function of buffer.c. *)
Inductive call : Type :=
  | CallNew (ok : bool) (im : image) (area : VipsRect)
  | CallRef (ok : bool) (im : image) (area : VipsRect)
  | CallUnrefRef (ok : bool) (old : option ptr) (im : image) (area : VipsRect)
  | CallUnref (p : ptr)
  | CallDone (p : ptr)
  | CallUndone (p : ptr).

Definition state_of {A} (o : outcome A) : option State :=
  match o with
  | Ret _ s => Some s
  | _ => None
  end.

Definition is_held (s : State) (p : ptr) : bool :=
  match heap s !! p with
  | Some b => 0 <? b_ref_count b
  | None => false
  end.

Definition exec1 (c : call) (s : State) : option State :=
  match c with
  | CallNew ok im area => state_of (vips_buffer_new ok im area s)
  | CallRef ok im area => state_of (vips_buffer_ref ok im area s)
  | CallUnrefRef ok old im area => state_of (vips_buffer_unref_ref ok old im area s)
  | CallUnref p => state_of (vips_buffer_unref p s)
  | CallDone p => if is_held s p then state_of (vips_buffer_done p s) else None
  | CallUndone p => if is_held s p then state_of (vips_buffer_undone p s) else None
  end.

(** The state after a list of calls, if all of them return. *)
Fixpoint exec (cs : list call) (s : State) : option State :=
  match cs with
  | [] => Some s
  | c :: cs' =>
      match exec1 c s with
      | Some s' => exec cs' s'
      | None => None
      end
  end.

(** [p] is allocated no more, and nothing points to it. *)
Definition released (s : State) (p : ptr) : Prop :=
  heap s !! p = None ∧ (p ∉ c_reserve (cache_of s)) ∧ ¬ registered s p.

(** The buffer [b] at [p] is not published, is in no list, and its area has
    no extent: [vips_buffer_undone] sets [area.width] and [area.height] to 0
    and leaves [area.left] and [area.top] as they are. *)
Definition idle (s : State) (p : ptr) (b : VipsBuffer) : Prop :=
  b_done b = false ∧ ¬ registered s p ∧
  r_width (b_area b) = 0 ∧ r_height (b_area b) = 0.

(** *** The effect of the functions, as functions on states

    The states and buffers that the calls leave behind, written out.  They
    are not part of the model: the lemmas named [..._eq] below prove that the
    functions of buffer.c, as embedded above, return them. *)

Definition upd (p : ptr) (b : VipsBuffer) (s : State) : State :=
  set_heap (<[p := b]> (heap s)) s.

Definition zero_size (r : VipsRect) : VipsRect :=
  mkRect (r_left r) (r_top r) 0 0.

(** The buffer [b] after [vips_buffer_undone]. *)
Definition unpublished (b : VipsBuffer) : VipsBuffer :=
  mkBuffer (b_ref_count b) (b_im b) (zero_size (b_area b)) false
    (if b_done b then false else b_cache b) (b_buf b) (b_bsize b).

Definition unlist (k : option image) (p : ptr) (c : VipsBufferCache) : VipsBufferCache :=
  match c_hash c !! k with
  | Some cl => set_hash (<[k := set_buffers (g_slist_remove (cl_buffers cl) p) cl]> (c_hash c)) c
  | None => c
  end.

Definition undone_st (p : ptr) (b : VipsBuffer) (s : State) : State :=
  mkState (<[p := unpublished b]> (heap s))
    (if b_done b then Some (unlist (b_im b) p (cache_of s)) else tls s)
    (tracked s).

(** What [vips_buffer_undone] needs of a published buffer so as not to
    abort. *)
Definition undone_pre (s : State) (p : ptr) (b : VipsBuffer) : Prop :=
  b_done b = true →
  b_cache b = true ∧ is_Some (tls s) ∧ p ∈ buffers_of (cache_of s) (b_im b).

(** The buffer [b] after [vips_buffer_done]. *)
Definition published (b : VipsBuffer) : VipsBuffer :=
  set_cache true (set_done true b).

Definition enlist (k : option image) (p : ptr) (c : VipsBufferCache) : VipsBufferCache :=
  set_hash (<[k := mkCacheList (p :: buffers_of c k) k]> (c_hash c)) c.

Definition done_st (p : ptr) (b : VipsBuffer) (s : State) : State :=
  mkState (<[p := published b]> (heap s))
    (Some (enlist (b_im b) p (cache_of s))) (tracked s).

(** The buffer [b] parked in the reserve. *)
Definition parked (b : VipsBuffer) : VipsBuffer :=
  mkBuffer 0 None (zero_size (b_area b)) false false (b_buf b) (b_bsize b).

Definition park (p : ptr) (c : VipsBufferCache) : VipsBufferCache :=
  mkCache (c_hash c) (p :: c_reserve c) (c_n_reserve c + 1).

Definition free_tracked (o : option block) (t : gset block) : gset block :=
  match o with
  | Some k => t ∖ {[k]}
  | None => t
  end.

(** The state after [vips_buffer_free]. *)
Definition free_st (p : ptr) (b : VipsBuffer) (s : State) : State :=
  mkState (delete p (heap s)) (tls s) (free_tracked (b_buf b) (tracked s)).

(** The cache after [vips_buffer_undone]. *)
Definition undone_cache (p : ptr) (b : VipsBuffer) (s : State) : VipsBufferCache :=
  if b_done b then unlist (b_im b) p (cache_of s) else cache_of s.

(** The state after [vips_buffer_unref] has dropped the last reference to
    the buffer [b] at [p]. *)
Definition unref_st (p : ptr) (b : VipsBuffer) (s : State) : State :=
  let c := undone_cache p b s in
  if c_n_reserve c <? buffer_cache_max_reserve
  then mkState (<[p := parked b]> (heap s)) (Some (park p c)) (tracked s)
  else mkState (delete p (heap s)) (Some c) (free_tracked (b_buf b) (tracked s)).

(** The bytes [buffer_move] wants for [area] of an image. *)
Definition new_bsize (i : image) (area : VipsRect) : Z :=
  size_t (sizeof_pel i * r_width area * r_height area).

(** Whether [buffer_move] goes to the allocator. *)
Definition need_alloc (b : VipsBuffer) (n : Z) : bool :=
  (b_bsize b <? n) || negb (bool_decide (is_Some (b_buf b))).

(** The buffer, the live pixel blocks, the result and the state after
    [buffer_move] of the buffer [b] at [p] to [area]; [n] is the size wanted
    and [ok] the allocator's answer. *)
Definition moved (ok : bool) (area : VipsRect) (n : Z) (t : gset block)
    (b : VipsBuffer) : VipsBuffer :=
  if need_alloc b n
  then set_buf (if ok then Some (fresh (free_tracked (b_buf b) t)) else None)
         (set_bsize n (set_area area (unpublished b)))
  else set_area area (unpublished b).

Definition move_tracked (ok : bool) (n : Z) (b : VipsBuffer) (t : gset block) : gset block :=
  if need_alloc b n
  then if ok then {[fresh (free_tracked (b_buf b) t)]} ∪ free_tracked (b_buf b) t
       else free_tracked (b_buf b) t
  else t.

Definition move_ret (ok : bool) (n : Z) (b : VipsBuffer) : Z :=
  if need_alloc b n && negb ok then -1 else 0.

Definition move_st (ok : bool) (area : VipsRect) (n : Z) (p : ptr)
    (b : VipsBuffer) (s : State) : State :=
  mkState (<[p := moved ok area n (tracked s) b]> (heap s))
    (tls (undone_st p b s)) (move_tracked ok n b (tracked s)).

(** The buffer that [vips_buffer_new] is going to hand out: the head of the
    reserve, or a struct from [g_new0]. *)
Definition new_target (s : State) : ptr :=
  match c_reserve (cache_of s) with
  | p :: _ => p
  | [] => fresh (dom (heap s))
  end.

(** The state after [vips_buffer_new] has taken its buffer and before it
    calls [buffer_move]. *)
Definition taken (im : image) (b : VipsBuffer) : VipsBuffer :=
  mkBuffer 1 (Some im) (b_area b) false false (b_buf b) (b_bsize b).

Definition new_buffer (im : image) (s : State) : VipsBuffer :=
  taken im (default zero_buffer (heap s !! new_target s)).

Definition new_cache (s : State) : VipsBufferCache :=
  match c_reserve (cache_of s) with
  | p :: l => mkCache (c_hash (cache_of s)) l (c_n_reserve (cache_of s) - 1)
  | [] => cache_of s
  end.

Definition new_st (im : image) (s : State) : State :=
  mkState (<[new_target s := new_buffer im s]> (heap s))
    (Some (new_cache s)) (tracked s).

(** The state after the [buffer_move] of [vips_buffer_new]. *)
Definition new_moved_st (ok : bool) (im : image) (area : VipsRect) (s : State) : State :=
  move_st ok area (new_bsize im area) (new_target s) (new_buffer im s) (new_st im s).

(** The state in which the loop of [buffer_find] runs. *)
Definition got_cache (s : State) : State := set_tls (Some (cache_of s)) s.

Definition encloses (b : VipsBuffer) (r : VipsRect) : bool :=
  vips_rect_includesrect (b_area b) r.

(** The comparison of the loop of [buffer_find], on the area of a buffer. *)
Definition finds (b : VipsBuffer) (r : VipsRect) : bool :=
  (r_left (b_area b) <=? r_left r) &&
  (r_top (b_area b) <=? r_top r) &&
  (int_add (r_left (b_area b)) (r_width (b_area b)) >=?
   int_add (r_left r) (r_width r)) &&
  (int_add (r_top (b_area b)) (r_height (b_area b)) >=?
   int_add (r_top r) (r_height r)).

(** ** Rectangles that fit *)

Definition int_range (z : Z) : Prop := INT_MIN ≤ z ≤ INT_MAX.

(** The four fields of the rectangle are [int]s, and so are its right and
    bottom edges: no sum that [buffer_find] computes on it overflows. *)
Definition rect_fits (r : VipsRect) : Prop :=
  int_range (r_left r) ∧ int_range (r_top r) ∧
  int_range (r_width r) ∧ int_range (r_height r) ∧
  int_range (r_left r + r_width r) ∧ int_range (r_top r + r_height r).

(** Every buffer has an area that fits. *)
Definition areas_fit (s : State) : Prop :=
  ∀ p b, heap s !! p = Some b → rect_fits (b_area b).

(** The rectangle that a call passes, if it passes one, fits. *)
Definition call_fits (c : call) : Prop :=
  match c with
  | CallNew _ _ area | CallRef _ _ area | CallUnrefRef _ _ _ area => rect_fits area
  | CallUnref _ | CallDone _ | CallUndone _ => True
  end.


(** ** Pixel memory *)

(** The pixel block of the buffer at [p], if the struct is allocated and its
    [buf] is not NULL. *)
Definition block_of (s : State) (p : ptr) : option block :=
  heap s !! p ≫= b_buf.

(** The tracked allocator and the buffers agree: every [buf] is a live
    block, every live block is the [buf] of some buffer, and no two buffers
    have the same [buf]. *)
Record blocks_inv (s : State) : Prop := {
  blocks_live : ∀ p k, block_of s p = Some k → k ∈ tracked s;
  blocks_owned : ∀ k, k ∈ tracked s → ∃ p, block_of s p = Some k;
  blocks_unshared : ∀ p q k,
      block_of s p = Some k → block_of s q = Some k → p = q }.

(** The pixel memory of a buffer suffices for its area: [bsize] is not
    negative and, while the buffer is referenced, [buf] is not NULL and
    [bsize] is at least the bytes of [area]. *)
Definition cap_ok (b : VipsBuffer) : Prop :=
  0 ≤ b_bsize b ∧
  (0 < b_ref_count b → ∀ i, b_im b = Some i →
     is_Some (b_buf b) ∧ new_bsize i (b_area b) ≤ b_bsize b).

Definition capacity_inv (s : State) : Prop :=
  ∀ p b, heap s !! p = Some b → cap_ok b.


Definition mem_inv (s : State) : Prop := blocks_inv s ∧ capacity_inv s.

End buffer.

(** ** Concrete inputs *)

(** Four bytes a pixel, whatever the image. *)
Definition pel4 : ImageSize := λ _, 4.

Definition imgA : image := 1%positive.
Definition imgB : image := 2%positive.
Definition B1 : ptr := 1%positive.
Definition B2 : ptr := 2%positive.

(** The state after a list of calls from [init]. *)
Definition after (cs : list call) : State :=
  default init (exec (H := pel4) cs init).

(** One buffer of 10 by 10 at (5, 7), acquired for [imgA]. *)
Definition one_held : list call := [CallRef true imgA (mkRect 5 7 10 10)].

(** The same buffer, published. *)
Definition one_published : list call := one_held ++ [CallDone B1].

(** The same buffer, acquired and released. *)
Definition one_parked : list call := one_held ++ [CallUnref B1].

(** A swap to a larger area for which the allocator fails. *)
Definition swap_failed : list call :=
  one_held ++ [CallUnrefRef false (Some B1) imgA (mkRect 5 7 20 20)].

(** [B1] with area 0,0,10,10 is published first, [B2] with area 0,0,20,20
    after it: the list of [imgA] is [B2; B1]. *)
Definition two_published : list call :=
  [CallRef true imgA (mkRect 0 0 10 10); CallDone B1;
   CallRef true imgA (mkRect 0 0 20 20); CallDone B2].


(** The swap of [one_held] to a larger area, the allocator answering. *)
Definition swap_moved : list call :=
  one_held ++ [CallUnrefRef true (Some B1) imgA (mkRect 5 7 20 20)].

(** [B1], published, with two references. *)
Definition shared_published : list call :=
  [CallRef true imgA (mkRect 0 0 10 10); CallDone B1;
   CallRef true imgA (mkRect 2 2 4 4)].

(** [B1] published and held, [B2] in the reserve. *)
Definition held_and_parked : list call :=
  [CallRef true imgA (mkRect 0 0 10 10); CallRef true imgA (mkRect 20 20 5 5);
   CallDone B1; CallUnref B2].

(** The state after [vips__buffer_shutdown] at the end of a list of calls. *)
Definition after_shutdown (cs : list call) : State :=
  match vips__buffer_shutdown (after cs) with
  | Ret _ s => s
  | _ => after cs
  end.

(** The buffer of [one_held]. *)
Definition held_buffer : VipsBuffer :=
  mkBuffer 1 (Some imgA) (mkRect 5 7 10 10) false false (Some 1%positive) 400.

(** One pixel in the column [INT_MAX]: its fields are [int]s, its right edge
    is not. *)
Definition edge_rect : VipsRect := mkRect 2147483647 7 1 1.

(** The buffer of [one_published], acquired again for [edge_rect]. *)
Definition edge_ref : list call := one_published ++ [CallRef true imgA edge_rect].

(** * Proofs *)

Section proofs.

Context `{ImageSize}.


(** ** GSList *)

Lemma g_slist_remove_head l x : g_slist_remove (x :: l) x = l.
Proof. simpl. by rewrite decide_True. Qed.

Lemma g_slist_remove_notin l x : x ∉ l → g_slist_remove l x = l.
Proof.
  induction l as [|y l IH]; [done|].
  intros Hx. apply not_elem_of_cons in Hx as [Hxy Hxl]. simpl.
  rewrite decide_False by done. by rewrite IH.
Qed.

Lemma elem_of_g_slist_remove_ne l x q :
  q ≠ x → q ∈ g_slist_remove l x ↔ q ∈ l.
Proof.
  intros Hq. induction l as [|y l IH]; [done|]. simpl.
  destruct (decide (y = x)) as [->|Hy].
  - rewrite elem_of_cons. split; [by right|by intros [?|?]].
  - rewrite !elem_of_cons, IH. done.
Qed.

Lemma elem_of_g_slist_remove l x q :
  q ∈ g_slist_remove l x → q ∈ l.
Proof.
  induction l as [|y l IH]; [done|]. simpl.
  destruct (decide (y = x)) as [->|Hy]; rewrite ?elem_of_cons.
  - by right.
  - intros [?|?]; [by left|right; by apply IH].
Qed.

Lemma NoDup_g_slist_remove l x : NoDup l → NoDup (g_slist_remove l x).
Proof.
  induction 1 as [|y l Hy Hl IH]; [constructor|]. simpl.
  destruct (decide (y = x)); [done|].
  constructor; [|done]. intros Hin. apply Hy. by apply elem_of_g_slist_remove in Hin.
Qed.

Lemma g_slist_remove_gone l x : NoDup l → x ∉ g_slist_remove l x.
Proof.
  induction 1 as [|y l Hy Hl IH]; simpl; [apply not_elem_of_nil|].
  destruct (decide (y = x)) as [->|Hne]; [done|].
  rewrite not_elem_of_cons. done.
Qed.

Lemma g_slist_find_true l x : g_slist_find l x = true ↔ x ∈ l.
Proof. unfold g_slist_find. apply bool_decide_eq_true. Qed.

Lemma g_slist_find_false l x : g_slist_find l x = false ↔ x ∉ l.
Proof. unfold g_slist_find. apply bool_decide_eq_false. Qed.

(** ** Rectangles *)

Lemma vips_rect_includesrect_refl r : vips_rect_includesrect r r = true.
Proof.
  unfold vips_rect_includesrect.
  repeat (apply andb_true_intro; split); lia.
Qed.

(** The test of [vips_rect_includesrect] in arithmetic. *)
Lemma vips_rect_includesrect_spec r1 r2 :
  vips_rect_includesrect r1 r2 = true ↔
  r_left r1 ≤ r_left r2 ∧ r_top r1 ≤ r_top r2 ∧
  r_left r2 + r_width r2 ≤ r_left r1 + r_width r1 ∧
  r_top r2 + r_height r2 ≤ r_top r1 + r_height r1.
Proof. unfold vips_rect_includesrect. rewrite !andb_true_iff. lia. Qed.

(** Every pixel of an enclosed rectangle lies in the enclosing one. *)
Lemma vips_rect_includesrect_pixels r1 r2 x y :
  vips_rect_includesrect r1 r2 = true →
  r_left r2 ≤ x < r_left r2 + r_width r2 →
  r_top r2 ≤ y < r_top r2 + r_height r2 →
  r_left r1 ≤ x < r_left r1 + r_width r1 ∧
  r_top r1 ≤ y < r_top r1 + r_height r1.
Proof. rewrite vips_rect_includesrect_spec. lia. Qed.

(** An exact value in the range of [int] is the [int] kept of it. *)
Lemma to_int_range z : int_range z → to_int z = z.
Proof.
  unfold int_range, INT_MIN, INT_MAX, to_int. intros Hz.
  rewrite Z.mod_small; lia.
Qed.

(** On rectangles that fit, the comparison of [buffer_find] is the enclosure
    test. *)
Lemma finds_encloses b r :
  rect_fits (b_area b) → rect_fits r → finds b r = encloses b r.
Proof.
  intros (_ & _ & _ & _ & Hbw & Hbh) (_ & _ & _ & _ & Hrw & Hrh).
  unfold finds, encloses, vips_rect_includesrect, int_add.
  by rewrite !to_int_range.
Qed.

Lemma finds_encloses_in s p b r :
  areas_fit s → rect_fits r → heap s !! p = Some b → finds b r = encloses b r.
Proof. intros Hf Hr Hp. apply finds_encloses; [by apply (Hf p)|done]. Qed.

Lemma rect_fits_zero_size r : rect_fits r → rect_fits (zero_size r).
Proof.
  unfold rect_fits, int_range, INT_MIN, INT_MAX, zero_size. simpl. lia.
Qed.

(** ** The cache of a state *)

Lemma buffers_of_new k : buffers_of buffer_cache_new k = [].
Proof. unfold buffers_of. simpl. by rewrite lookup_empty. Qed.

Lemma buffers_of_insert (c : VipsBufferCache) k cl k' :
  buffers_of (set_hash (<[k := cl]> (c_hash c)) c) k' =
  if decide (k = k') then cl_buffers cl else buffers_of c k'.
Proof.
  unfold buffers_of. simpl. destruct (decide (k = k')) as [->|Hne].
  - by rewrite lookup_insert_eq.
  - by rewrite lookup_insert_ne.
Qed.

Lemma buffers_of_unlist c k p k' :
  buffers_of (unlist k p c) k' =
  if decide (k = k') then g_slist_remove (buffers_of c k) p else buffers_of c k'.
Proof.
  unfold unlist. destruct (c_hash c !! k) as [cl|] eqn:Hk.
  - rewrite buffers_of_insert. case_decide; [|done].
    unfold buffers_of. by rewrite Hk.
  - case_decide as Hkk; [|done]. subst k'.
    unfold buffers_of. by rewrite Hk.
Qed.

Lemma buffers_of_enlist c k p k' :
  buffers_of (enlist k p c) k' =
  if decide (k = k') then p :: buffers_of c k else buffers_of c k'.
Proof. unfold enlist. by rewrite buffers_of_insert. Qed.

Lemma cache_of_set_tls c s : cache_of (set_tls (Some c) s) = c.
Proof. done. Qed.

Lemma buffer_cache_get_eq s :
  buffer_cache_get s = Ret (cache_of s) (set_tls (Some (cache_of s)) s).
Proof.
  unfold buffer_cache_get, cache_of. destruct s as [h [c|] t]; done.
Qed.


(** ** Running the primitive steps *)

Lemma heap_upd_eq p b s : heap (upd p b s) !! p = Some b.
Proof. apply lookup_insert_eq. Qed.

Lemma heap_upd_ne p q b s : p ≠ q → heap (upd p b s) !! q = heap s !! q.
Proof. intros. by apply lookup_insert_ne. Qed.

Lemma upd_upd p b1 b2 s : upd p b2 (upd p b1 s) = upd p b2 s.
Proof. unfold upd, set_heap. simpl. by rewrite insert_insert_eq. Qed.

Lemma deref_eq s p b : heap s !! p = Some b → deref p s = Ret b s.
Proof. unfold deref. by intros ->. Qed.

Lemma modify_eq s p b f :
  heap s !! p = Some b → modify p f s = Ret tt (upd p (f b) s).
Proof. unfold modify. by intros ->. Qed.

Lemma modify_upd_eq s p b f :
  modify p f (upd p b s) = Ret tt (upd p (f b) s).
Proof. rewrite (modify_eq _ _ b) by apply heap_upd_eq. by rewrite upd_upd. Qed.

Lemma deref_upd_eq s p b : deref p (upd p b s) = Ret b (upd p b s).
Proof. apply deref_eq, heap_upd_eq. Qed.

Lemma bind_Ret {A B} (m : M A) (k : A → M B) s a s' :
  m s = Ret a s' → bind m k s = k a s'.
Proof. unfold bind. by intros ->. Qed.

Lemma bind_inv {A B} (m : M A) (k : A → M B) s b s'' :
  bind m k s = Ret b s'' → ∃ a s', m s = Ret a s' ∧ k a s' = Ret b s''.
Proof. unfold bind. destruct (m s) as [a s'| |]; [eauto|done|done]. Qed.

Lemma bind_assoc {A B C} (m : M A) (k : A → M B) (k' : B → M C) s :
  bind (bind m k) k' s = bind m (λ x, bind (k x) k') s.
Proof. unfold bind. by destruct (m s). Qed.

(** Symbolic execution of a call: unfold the monad, and decide each
    [match] and [if] whose scrutinee a hypothesis gives. *)
Ltac mrun :=
  repeat (first
    [ progress (unfold bind, ret, deref, modify, read_cache, modify_cache,
                g_assert, fault, set_heap, set_tls, set_tracked, upd)
    | progress simpl
    | rewrite lookup_insert_eq
    | rewrite insert_insert_eq
    | match goal with
      | H : ?x = true |- context [?x] => rewrite H
      | H : ?x = false |- context [?x] => rewrite H
      | H : ?x = Some _ |- context [?x] => rewrite H
      | H : ?x = None |- context [?x] => rewrite H
      | H : ?x = _ |- context [match ?x with _ => _ end] => rewrite H
      end ]).

(** ** vips_buffer_undone *)

Lemma vips_buffer_undone_eq s p b :
  heap s !! p = Some b → undone_pre s p b →
  vips_buffer_undone p s = Ret tt (undone_st p b s).
Proof.
  intros Hp Hpre. unfold vips_buffer_undone, undone_st, unpublished.
  destruct (b_done b) eqn:Hd.
  - destruct Hpre as (Hc & [c Hc'] & Hin); [done|].
    assert (cache_of s = c) as Hco by (unfold cache_of; by rewrite Hc').
    rewrite Hco in *. unfold buffers_of in Hin. unfold unlist.
    destruct (c_hash c !! b_im b) as [cl|] eqn:Hk; [|by apply elem_of_nil in Hin].
    apply g_slist_find_true in Hin.
    unfold modify_buffers. mrun. do 2 f_equal.
  - mrun. do 2 f_equal.
    unfold set_area, set_width, set_height, zero_size. simpl. by rewrite Hd.
Qed.


(** ** The invariant under a change of one buffer *)

Lemma wf_init : wf init.
Proof.
  split; unfold init, cache_of; simpl.
  - intros k. rewrite buffers_of_new. apply NoDup_nil_2.
  - intros k p. rewrite buffers_of_new. by intros ?%elem_of_nil.
  - intros k cl. by rewrite lookup_empty.
  - apply NoDup_nil_2.
  - done.
  - done.
  - by intros p ?%elem_of_nil.
  - intros p b. by rewrite lookup_empty.
Qed.

(** The invariant looks at the heap and at the cache only. *)
Lemma wf_ext s s' :
  heap s' = heap s → cache_of s' = cache_of s → wf s → wf s'.
Proof. intros Hh Hc [? ? ? ? ? ? ? ?]. split; rewrite ?Hh, ?Hc; done. Qed.

(** A step that touches the buffer [p] only, in the heap, in the lists and
    in the reserve, keeps the invariant if it holds of [p] afterwards. *)
Lemma wf_change s s' p :
  wf s →
  (∀ q, q ≠ p → heap s' !! q = heap s !! q) →
  (∀ k q, q ≠ p →
     q ∈ buffers_of (cache_of s') k ↔ q ∈ buffers_of (cache_of s) k) →
  (∀ k, NoDup (buffers_of (cache_of s') k)) →
  (∀ k cl, c_hash (cache_of s') !! k = Some cl → cl_im cl = k) →
  (∀ q, q ≠ p → q ∈ c_reserve (cache_of s') ↔ q ∈ c_reserve (cache_of s)) →
  NoDup (c_reserve (cache_of s')) →
  c_n_reserve (cache_of s') = Z.of_nat (length (c_reserve (cache_of s'))) →
  c_n_reserve (cache_of s') ≤ buffer_cache_max_reserve →
  (∀ k, p ∈ buffers_of (cache_of s') k →
     ∃ b, heap s' !! p = Some b ∧ b_done b = true ∧ b_im b = k) →
  (p ∈ c_reserve (cache_of s') →
     ∃ b, heap s' !! p = Some b ∧ b_ref_count b = 0) →
  (∀ b, heap s' !! p = Some b → buf_ok (cache_of s') p b) →
  wf s'.
Proof.
  intros Hwf Hheap Hlists Hnd Him Hres Hrnd Hn Hmax Hpl Hpr Hpb.
  split; try done.
  - intros k q Hq. destruct (decide (q = p)) as [->|Hne]; [by apply Hpl|].
    rewrite Hheap by done. apply (wf_listed _ Hwf). by apply Hlists.
  - intros q Hq. destruct (decide (q = p)) as [->|Hne]; [by apply Hpr|].
    rewrite Hheap by done. apply (wf_reserved _ Hwf). by apply Hres.
  - intros q b Hq. destruct (decide (q = p)) as [->|Hne]; [by apply Hpb|].
    rewrite Hheap in Hq by done.
    destruct (wf_buffer _ Hwf _ _ Hq) as [H1 H2 H3 H4 H5].
    split; try done.
    + intros Hd. destruct (H2 Hd) as (? & ? & ?). by rewrite Hlists.
    + intros H0. destruct (H4 H0) as (? & ? & ? & ?). by rewrite Hres.
Qed.

(** A buffer that is held may change its count (staying held), its area
    while it is not published, its memory and its size. *)
Lemma wf_upd_held s s' p b b' :
  wf s → heap s !! p = Some b →
  heap s' = <[p := b']> (heap s) → cache_of s' = cache_of s →
  b_done b' = b_done b → b_im b' = b_im b → b_cache b' = b_cache b →
  0 < b_ref_count b → 0 < b_ref_count b' →
  wf s'.
Proof.
  intros Hwf Hp Hh Hc Hd Hi Hca Hr Hr'.
  apply (wf_change s s' p); rewrite ?Hc, ?Hh; try done; try apply Hwf.
  - intros q Hq. by rewrite lookup_insert_ne.
  - intros k Hk. exists b'. rewrite lookup_insert_eq.
    destruct (wf_listed _ Hwf _ _ Hk) as (b0 & Hb0 & ? & ?).
    rewrite Hp in Hb0. injection Hb0 as <-. by rewrite Hd, Hi.
  - intros Hk. destruct (wf_reserved _ Hwf _ Hk) as (b0 & Hb0 & ?).
    rewrite Hp in Hb0. injection Hb0 as <-. lia.
  - intros b0. rewrite lookup_insert_eq. intros [= <-].
    destruct (wf_buffer _ Hwf _ _ Hp) as [H1 H2 H3 H4 H5].
    split; rewrite ?Hd, ?Hi, ?Hca; try done; try lia.
    + intros Hdd. destruct (H2 Hdd) as (? & ? & ?). done.
    + intros ?. by apply H5.
Qed.

(** A held buffer that is not published is in no list and not in the
    reserve. *)
Lemma wf_not_listed s p b k :
  wf s → heap s !! p = Some b → b_done b = false →
  p ∉ buffers_of (cache_of s) k.
Proof.
  intros Hwf Hp Hd Hin. destruct (wf_listed _ Hwf _ _ Hin) as (b0 & Hb0 & ? & ?).
  rewrite Hp in Hb0. injection Hb0 as <-. congruence.
Qed.

Lemma wf_not_reserved s p b :
  wf s → heap s !! p = Some b → 0 < b_ref_count b →
  p ∉ c_reserve (cache_of s).
Proof.
  intros Hwf Hp Hr Hin. destruct (wf_reserved _ Hwf _ Hin) as (b0 & Hb0 & ?).
  rewrite Hp in Hb0. injection Hb0 as <-. lia.
Qed.

Lemma wf_listed_here s p b k :
  wf s → heap s !! p = Some b → p ∈ buffers_of (cache_of s) k →
  b_done b = true ∧ b_im b = k ∧ b_cache b = true ∧ 0 < b_ref_count b.
Proof.
  intros Hwf Hp Hin. destruct (wf_listed _ Hwf _ _ Hin) as (b0 & Hb0 & Hd & Hi).
  rewrite Hp in Hb0. injection Hb0 as <-.
  destruct (ok_done _ _ _ (wf_buffer _ Hwf _ _ Hp) Hd) as (? & ? & ?). done.
Qed.

(** A published buffer is in the list of its image, and the thread has a
    cache. *)
Lemma wf_undone_pre s p b : wf s → heap s !! p = Some b → undone_pre s p b.
Proof.
  intros Hwf Hp Hd.
  destruct (ok_done _ _ _ (wf_buffer _ Hwf _ _ Hp) Hd) as (Hin & Hc & _).
  split; [done|]. split; [|done].
  destruct (tls s) as [c|] eqn:Ht; [by eexists|].
  unfold cache_of in Hin. rewrite Ht in Hin. simpl in Hin.
  rewrite buffers_of_new in Hin. by apply elem_of_nil in Hin.
Qed.


Lemma c_hash_unlist c k p k' cl' :
  c_hash (unlist k p c) !! k' = Some cl' →
  ∃ cl, c_hash c !! k' = Some cl ∧ cl_im cl' = cl_im cl.
Proof.
  unfold unlist. destruct (c_hash c !! k) as [cl|] eqn:Hk; [|by eauto].
  simpl. destruct (decide (k = k')) as [<-|Hne].
  - rewrite lookup_insert_eq. intros [= <-]. eauto.
  - rewrite lookup_insert_ne by done. eauto.
Qed.

Lemma wf_undone s p b :
  wf s → heap s !! p = Some b → 0 < b_ref_count b → wf (undone_st p b s).
Proof.
  intros Hwf Hp Hr.
  assert (cache_of (undone_st p b s) =
          if b_done b then unlist (b_im b) p (cache_of s) else cache_of s) as Hc.
  { unfold undone_st, cache_of. simpl. by destruct (b_done b). }
  assert (∀ k, p ∉ buffers_of (cache_of (undone_st p b s)) k) as Hgone.
  { intros k. rewrite Hc. destruct (b_done b) eqn:Hd.
    - rewrite buffers_of_unlist. case_decide as Hk.
      + apply g_slist_remove_gone, Hwf.
      + intros Hin. by destruct (wf_listed_here _ _ _ _ Hwf Hp Hin) as (_ & ? & _).
    - by apply (wf_not_listed _ _ b). }
  assert (c_reserve (cache_of (undone_st p b s)) = c_reserve (cache_of s)) as Hres.
  { rewrite Hc. destruct (b_done b); [|done]. unfold unlist.
    by destruct (c_hash (cache_of s) !! b_im b). }
  assert (c_n_reserve (cache_of (undone_st p b s)) = c_n_reserve (cache_of s)) as Hn.
  { rewrite Hc. destruct (b_done b); [|done]. unfold unlist.
    by destruct (c_hash (cache_of s) !! b_im b). }
  apply (wf_change s _ p); rewrite ?Hres, ?Hn; try done; try apply Hwf.
  - intros q Hq. simpl. by rewrite lookup_insert_ne.
  - intros k q Hq. rewrite Hc. destruct (b_done b); [|done].
    rewrite buffers_of_unlist. case_decide as Hk; [|done]. subst k.
    by apply elem_of_g_slist_remove_ne.
  - intros k. rewrite Hc. destruct (b_done b); [|apply Hwf].
    rewrite buffers_of_unlist. case_decide; [|apply Hwf].
    apply NoDup_g_slist_remove, Hwf.
  - intros k cl. rewrite Hc. destruct (b_done b); [|apply Hwf].
    intros (cl0 & Hcl0 & ->)%c_hash_unlist. by apply (wf_cl_im _ Hwf).
  - intros k Hk. by apply Hgone in Hk.
  - intros Hin. by apply (wf_not_reserved _ _ _ Hwf Hp) in Hin.
  - intros b'. simpl. rewrite lookup_insert_eq. intros [= <-].
    destruct (wf_buffer _ Hwf _ _ Hp) as [H1 H2 H3 H4 H5].
    split; simpl; try done; try lia.
    intros _. destruct (b_done b); [done|]. by apply H3.
Qed.

(** ** vips_buffer_done *)

Lemma vips_buffer_done_again s p b :
  heap s !! p = Some b → b_done b = true → vips_buffer_done p s = Ret tt s.
Proof. intros Hp Hd. unfold vips_buffer_done. by mrun. Qed.

Lemma vips_buffer_done_eq s p b :
  heap s !! p = Some b → b_done b = false →
  p ∉ buffers_of (cache_of s) (b_im b) →
  (∀ cl, c_hash (cache_of s) !! b_im b = Some cl → cl_im cl = b_im b) →
  vips_buffer_done p s = Ret tt (done_st p b s).
Proof.
  intros Hp Hd Hin Him. unfold vips_buffer_done, done_st, enlist.
  rewrite (bind_Ret _ _ _ _ _ (deref_eq _ _ _ Hp)). rewrite Hd.
  rewrite (bind_Ret _ _ _ _ _ (buffer_cache_get_eq _)).
  unfold buffers_of in *. apply g_slist_find_false in Hin. revert Hin.
  destruct (c_hash (cache_of s) !! b_im b) as [cl|] eqn:Hk; intros Hin.
  - unfold modify_buffers. mrun. unfold set_buffers, g_slist_prepend. by rewrite (Him _ eq_refl).
  - unfold modify_buffers, buffer_cache_list_new. mrun. done.
Qed.

Lemma wf_done s p b :
  wf s → heap s !! p = Some b → 0 < b_ref_count b → b_done b = false →
  wf (done_st p b s).
Proof.
  intros Hwf Hp Hr Hd.
  pose proof (wf_not_listed _ _ _ (b_im b) Hwf Hp Hd) as Hnl.
  assert (cache_of (done_st p b s) = enlist (b_im b) p (cache_of s)) as Hc by done.
  assert (heap (done_st p b s) = <[p := published b]> (heap s)) as Hh by done.
  apply (wf_change s _ p); rewrite ?Hc, ?Hh; try done; try apply Hwf.
  - intros q Hq. by rewrite lookup_insert_ne.
  - intros k q Hq. rewrite buffers_of_enlist. case_decide as Hk; [|done].
    subst k. rewrite elem_of_cons. split; [by intros [?|?]|by right].
  - intros k. rewrite buffers_of_enlist. case_decide as Hk; [|apply Hwf].
    apply NoDup_cons_2; [done|apply Hwf].
  - intros k cl. unfold enlist. simpl. destruct (decide (b_im b = k)) as [<-|Hne].
    + rewrite lookup_insert_eq. by intros [= <-].
    + rewrite lookup_insert_ne by done. apply Hwf.
  - intros k. rewrite buffers_of_enlist, lookup_insert_eq.
    case_decide as Hk; [by eauto|].
    intros Hin. by destruct (wf_listed_here _ _ _ _ Hwf Hp Hin) as (_ & ? & _).
  - intros Hin. by apply (wf_not_reserved _ _ _ Hwf Hp) in Hin.
  - intros b'. rewrite lookup_insert_eq. intros [= <-].
    destruct (wf_buffer _ Hwf _ _ Hp) as [H1 H2 H3 H4 H5].
    split; simpl; try done; try lia.
    intros _. rewrite buffers_of_enlist, decide_True by done.
    split; [apply list_elem_of_here|done].
Qed.


(** ** vips_buffer_free *)

Lemma vips_buffer_free_eq s p b :
  heap s !! p = Some b → vips_buffer_free p s = Ret tt (free_st p b s).
Proof.
  intros Hp. unfold vips_buffer_free, free_st, vips_tracked_free, g_free.
  destruct (b_buf b) as [k|] eqn:Hb; mrun; by rewrite delete_insert_eq.
Qed.

Lemma wf_free s s' p b :
  wf s → heap s !! p = Some b → 0 < b_ref_count b → b_done b = false →
  heap s' = delete p (heap s) → cache_of s' = cache_of s →
  wf s'.
Proof.
  intros Hwf Hp Hr Hd Hh Hc.
  apply (wf_change s s' p); rewrite ?Hc, ?Hh; try done; try apply Hwf.
  - intros q Hq. by rewrite lookup_delete_ne.
  - intros k Hk. by apply (wf_not_listed _ _ _ k Hwf Hp Hd) in Hk.
  - intros Hk. by apply (wf_not_reserved _ _ _ Hwf Hp Hr) in Hk.
  - intros b'. by rewrite lookup_delete_eq.
Qed.

(** ** vips_buffer_unref *)

Lemma wf_park s s' p b :
  wf s → heap s !! p = Some b → 0 < b_ref_count b → b_done b = false →
  c_n_reserve (cache_of s) < buffer_cache_max_reserve →
  heap s' = <[p := parked b]> (heap s) → cache_of s' = park p (cache_of s) →
  wf s'.
Proof.
  intros Hwf Hp Hr Hd Hn Hh Hc.
  pose proof (wf_not_reserved _ _ _ Hwf Hp Hr) as Hnr.
  apply (wf_change s s' p); rewrite ?Hc, ?Hh; try done; try apply Hwf.
  - intros q Hq. by rewrite lookup_insert_ne.
  - intros q Hq. simpl. rewrite elem_of_cons. split; [by intros [?|?]|by right].
  - simpl. apply NoDup_cons_2; [done|apply Hwf].
  - simpl. rewrite (wf_n_reserve _ Hwf). lia.
  - simpl. lia.
  - intros k Hk. by apply (wf_not_listed _ _ _ k Hwf Hp Hd) in Hk.
  - intros _. exists (parked b). by rewrite lookup_insert_eq.
  - intros b'. rewrite lookup_insert_eq. intros [= <-].
    split; simpl; try done.
    intros _. split; [apply list_elem_of_here|done].
Qed.

Lemma vips_buffer_unref_rejected s p b :
  heap s !! p = Some b → b_ref_count b ≤ 0 →
  vips_buffer_unref p s = AssertFail.
Proof.
  intros Hp Hr. unfold vips_buffer_unref.
  assert ((0 <? b_ref_count b) = false) as Hlt by lia. by mrun.
Qed.

Lemma vips_buffer_unref_shared s p b :
  heap s !! p = Some b → 1 < b_ref_count b →
  vips_buffer_unref p s = Ret tt (upd p (set_ref_count (b_ref_count b - 1) b) s).
Proof.
  intros Hp Hr. unfold vips_buffer_unref.
  assert ((0 <? b_ref_count b) = true) as Hlt by lia.
  assert ((b_ref_count b - 1 =? 0) = false) as Hne by lia. by mrun.
Qed.

Lemma vips_buffer_unref_last s p b :
  heap s !! p = Some b → b_ref_count b = 1 → undone_pre s p b →
  vips_buffer_unref p s = Ret tt (unref_st p b s).
Proof.
  intros Hp Hr Hpre. unfold vips_buffer_unref.
  rewrite (bind_Ret _ _ _ _ _ (deref_eq _ _ _ Hp)).
  rewrite Hr. change (0 <? 1) with true.
  rewrite (bind_Ret (g_assert true) _ s tt s eq_refl).
  rewrite (bind_Ret _ _ _ _ _ (modify_eq _ _ _ _ Hp)).
  rewrite (bind_Ret _ _ _ _ _ (deref_upd_eq _ _ _)). simpl.
  rewrite Hr. change (1 - 1 =? 0) with true. cbv iota.
  rewrite (bind_Ret _ _ _ _ _ (buffer_cache_get_eq _)).
  set (b0 := set_ref_count 0 b).
  set (s0 := set_tls _ _).
  assert (heap s0 !! p = Some b0) as Hp0 by apply lookup_insert_eq.
  assert (cache_of s0 = cache_of s) as Hc0 by done.
  assert (undone_pre s0 p b0) as Hpre0.
  { intros Hd. destruct (Hpre Hd) as (? & ? & ?). rewrite Hc0. by eauto. }
  rewrite (bind_Ret _ _ _ _ _ (vips_buffer_undone_eq _ _ _ Hp0 Hpre0)).
  unfold unref_st, undone_cache, undone_st. rewrite Hc0.
  assert (tls s0 = Some (cache_of s)) as Ht0 by done. rewrite Ht0.
  change (b_done b0) with (b_done b). change (b_im b0) with (b_im b).
  set (c := if b_done b then unlist (b_im b) p (cache_of s) else cache_of s).
  replace (if b_done b then Some (unlist (b_im b) p (cache_of s))
           else Some (cache_of s)) with (Some c) by (unfold c; by destruct (b_done b)).
  destruct (c_n_reserve c <? buffer_cache_max_reserve) eqn:Hn.
  - mrun. done.
  - unfold bind, read_cache. simpl. rewrite Hn.
    erewrite vips_buffer_free_eq by apply lookup_insert_eq.
    unfold free_st. simpl. by rewrite !delete_insert_eq.
Qed.

Lemma zero_size_idemp r : zero_size (zero_size r) = zero_size r.
Proof. done. Qed.

Lemma wf_unref_st s p b :
  wf s → heap s !! p = Some b → b_ref_count b = 1 → wf (unref_st p b s).
Proof.
  intros Hwf Hp Hr.
  assert (wf (undone_st p b s)) as Hwu by (apply wf_undone; [done..|lia]).
  assert (cache_of (undone_st p b s) = undone_cache p b s) as Hcu.
  { unfold undone_st, undone_cache, cache_of. simpl. by destruct (b_done b). }
  assert (heap (undone_st p b s) !! p = Some (unpublished b)) as Hpu
    by apply lookup_insert_eq.
  unfold unref_st. simpl.
  destruct (c_n_reserve (undone_cache p b s) <? buffer_cache_max_reserve) eqn:Hn.
  - apply (wf_park (undone_st p b s) _ p (unpublished b)); try done.
    + simpl. lia.
    + rewrite Hcu. lia.
    + simpl. by rewrite insert_insert_eq.
    + by rewrite Hcu.
  - apply (wf_free (undone_st p b s) _ p (unpublished b)); try done.
    + simpl. lia.
    + simpl. by rewrite delete_insert_eq.
Qed.

Lemma vips_buffer_unref_wf s p s' :
  wf s → vips_buffer_unref p s = Ret tt s' → wf s'.
Proof.
  intros Hwf Hrun. destruct (heap s !! p) as [b|] eqn:Hp.
  - destruct (decide (b_ref_count b ≤ 0)) as [Hle|Hgt].
    { by rewrite (vips_buffer_unref_rejected _ _ _ Hp Hle) in Hrun. }
    destruct (decide (b_ref_count b = 1)) as [H1|Hne].
    + rewrite (vips_buffer_unref_last _ _ _ Hp H1) in Hrun
        by (by apply wf_undone_pre).
      injection Hrun as <-. by apply wf_unref_st.
    + rewrite (vips_buffer_unref_shared _ _ _ Hp) in Hrun by lia.
      injection Hrun as <-.
      apply (wf_upd_held s _ p b (set_ref_count (b_ref_count b - 1) b));
        try done; simpl; lia.
  - unfold vips_buffer_unref, bind, deref in Hrun. by rewrite Hp in Hrun.
Qed.


(** ** buffer_move *)

Lemma buffer_move_shared s ok p b area :
  heap s !! p = Some b → b_ref_count b ≠ 1 →
  buffer_move ok p area s = AssertFail.
Proof.
  intros Hp Hr. unfold buffer_move.
  assert ((b_ref_count b =? 1) = false) as Hne by lia. by mrun.
Qed.

Lemma buffer_move_eq s ok p b i area :
  heap s !! p = Some b → b_ref_count b = 1 → b_im b = Some i →
  undone_pre s p b →
  buffer_move ok p area s =
  Ret (move_ret ok (new_bsize i area) b)
      (move_st ok area (new_bsize i area) p b s).
Proof.
  intros Hp Hr Hi Hpre. unfold buffer_move.
  rewrite (bind_Ret _ _ _ _ _ (deref_eq _ _ _ Hp)).
  rewrite Hr. change (1 =? 1) with true.
  rewrite (bind_Ret (g_assert true) _ s tt s eq_refl).
  rewrite (bind_Ret _ _ _ _ _ (vips_buffer_undone_eq _ _ _ Hp Hpre)).
  assert (heap (undone_st p b s) !! p = Some (unpublished b)) as Hpu
    by apply lookup_insert_eq.
  rewrite (bind_Ret _ _ _ _ _ (deref_eq _ _ _ Hpu)).
  change (negb (b_done (unpublished b))) with true.
  rewrite (bind_Ret (g_assert true) _ _ tt _ eq_refl).
  rewrite (bind_Ret _ _ _ _ _ (modify_eq _ _ _ _ Hpu)).
  rewrite Hi. fold (new_bsize i area).
  rewrite (bind_Ret _ _ _ _ _ (deref_upd_eq _ _ _)).
  unfold move_ret, move_st, moved, move_tracked, need_alloc.
  change (b_bsize (set_area area (unpublished b))) with (b_bsize b).
  change (b_buf (set_area area (unpublished b))) with (b_buf b).
  destruct ((b_bsize b <? new_bsize i area)
            || negb (bool_decide (is_Some (b_buf b)))) eqn:Hneed;
    [|by mrun].
  unfold vips_tracked_free, vips_tracked_malloc.
  destruct (b_buf b) as [k|] eqn:Hb, ok; mrun; done.
Qed.

Lemma moved_ref_count ok area n t b :
  b_ref_count (moved ok area n t b) = b_ref_count b.
Proof. unfold moved. by destruct (need_alloc b n). Qed.

Lemma moved_im ok area n t b : b_im (moved ok area n t b) = b_im b.
Proof. unfold moved. by destruct (need_alloc b n). Qed.

Lemma moved_done ok area n t b : b_done (moved ok area n t b) = false.
Proof. unfold moved. by destruct (need_alloc b n). Qed.

Lemma moved_cache ok area n t b :
  b_cache (moved ok area n t b) = b_cache (unpublished b).
Proof. unfold moved. by destruct (need_alloc b n). Qed.

Lemma moved_area ok area n t b : b_area (moved ok area n t b) = area.
Proof. unfold moved. by destruct (need_alloc b n). Qed.

(** A failed move leaves the buffer without pixel memory. *)
Lemma moved_buf_failed ok area n t b :
  move_ret ok n b ≠ 0 → ok = false ∧ b_buf (moved ok area n t b) = None.
Proof.
  unfold move_ret, moved. destruct (need_alloc b n), ok; simpl; done.
Qed.

Lemma move_ret_ok n b : move_ret true n b = 0.
Proof. unfold move_ret. by rewrite andb_false_r. Qed.

Lemma cache_of_move_st ok area n p b s :
  cache_of (move_st ok area n p b s) = undone_cache p b s.
Proof.
  unfold move_st, undone_st, undone_cache, cache_of. simpl.
  by destruct (b_done b).
Qed.

Lemma wf_move_st s ok area n p b :
  wf s → heap s !! p = Some b → 0 < b_ref_count b →
  wf (move_st ok area n p b s).
Proof.
  intros Hwf Hp Hr.
  apply (wf_upd_held (undone_st p b s) _ p (unpublished b)
           (moved ok area n (tracked s) b)).
  - by apply wf_undone.
  - apply lookup_insert_eq.
  - simpl. by rewrite insert_insert_eq.
  - done.
  - by rewrite moved_done.
  - by rewrite moved_im.
  - apply moved_cache.
  - done.
  - by rewrite moved_ref_count.
Qed.


(** ** vips_buffer_new *)

Lemma fresh_not_allocated s : heap s !! fresh (dom (heap s)) = None.
Proof. apply not_elem_of_dom, is_fresh. Qed.

Lemma vips_buffer_new_take s ok im area :
  (∀ p, p ∈ c_reserve (cache_of s) → is_Some (heap s !! p)) →
  vips_buffer_new ok im area s =
  (r <- buffer_move ok (new_target s) area ;;
   if r =? 0 then ret (Some (new_target s))
   else vips_buffer_free (new_target s) ;;; ret None) (new_st im s).
Proof.
  intros Hlive. unfold vips_buffer_new.
  rewrite (bind_Ret _ _ _ _ _ (buffer_cache_get_eq _)).
  unfold new_st, new_buffer, new_cache, new_target.
  destruct (c_reserve (cache_of s)) as [|p l] eqn:Hres.
  - rewrite fresh_not_allocated. unfold g_new0. mrun. done.
  - destruct (Hlive p) as [b Hp]; [apply list_elem_of_here|].
    rewrite Hp. mrun. by rewrite Hres, g_slist_remove_head.
Qed.

Lemma heap_new_st im s :
  heap (new_st im s) !! new_target s = Some (new_buffer im s).
Proof. apply lookup_insert_eq. Qed.

Lemma vips_buffer_new_eq s ok im area :
  (∀ p, p ∈ c_reserve (cache_of s) → is_Some (heap s !! p)) →
  vips_buffer_new ok im area s =
  if move_ret ok (new_bsize im area) (new_buffer im s) =? 0
  then Ret (Some (new_target s)) (new_moved_st ok im area s)
  else Ret None
         (free_st (new_target s)
            (moved ok area (new_bsize im area) (tracked s) (new_buffer im s))
            (new_moved_st ok im area s)).
Proof.
  intros Hlive. rewrite vips_buffer_new_take by done.
  rewrite (bind_Ret _ _ _ _ _
    (buffer_move_eq _ ok _ _ im area (heap_new_st im s) eq_refl eq_refl
       (λ H, False_ind _ (Bool.diff_false_true H)))).
  fold (new_moved_st ok im area s).
  destruct (move_ret ok (new_bsize im area) (new_buffer im s) =? 0); [done|].
  erewrite (bind_Ret (vips_buffer_free _));
    [|apply vips_buffer_free_eq, lookup_insert_eq]. done.
Qed.

Lemma wf_new_st im s : wf s → wf (new_st im s).
Proof.
  intros Hwf.
  assert (cache_of (new_st im s) = new_cache s) as Hc by done.
  assert (heap (new_st im s) = <[new_target s := new_buffer im s]> (heap s)) as Hh by done.
  assert (c_hash (new_cache s) = c_hash (cache_of s)) as Hhash.
  { unfold new_cache. by destruct (c_reserve (cache_of s)). }
  assert (∀ k, buffers_of (new_cache s) k = buffers_of (cache_of s) k) as Hbuf.
  { intros k. unfold buffers_of. by rewrite Hhash. }
  assert (∀ k, new_target s ∉ buffers_of (cache_of s) k) as Hnl.
  { intros k Hin. destruct (wf_listed _ Hwf _ _ Hin) as (b & Hb & Hd & _).
    unfold new_target in *. destruct (c_reserve (cache_of s)) as [|p l] eqn:Hres.
    - by rewrite fresh_not_allocated in Hb.
    - destruct (wf_reserved _ Hwf p) as (b' & Hb' & Hr');
        [rewrite Hres; apply list_elem_of_here|].
      rewrite Hb in Hb'. injection Hb' as <-.
      destruct (ok_done _ _ _ (wf_buffer _ Hwf _ _ Hb) Hd) as (_ & _ & ?). lia. }
  pose proof (wf_reserve_nodup _ Hwf) as Hnd.
  pose proof (wf_n_reserve _ Hwf) as Hn.
  pose proof (wf_reserve_max _ Hwf) as Hmax.
  apply (wf_change s _ (new_target s)); rewrite ?Hc, ?Hh; try done.
  - intros q Hq. by rewrite lookup_insert_ne.
  - intros k q _. by rewrite Hbuf.
  - intros k. rewrite Hbuf. apply Hwf.
  - rewrite Hhash. apply Hwf.
  - intros q Hq. unfold new_cache, new_target in *.
    destruct (c_reserve (cache_of s)) as [|p l] eqn:Hres; [by rewrite ?Hres|].
    simpl. rewrite elem_of_cons. split; [by right|by intros [?|?]].
  - unfold new_cache. destruct (c_reserve (cache_of s)) as [|p l] eqn:Hres; [by rewrite ?Hres|].
    simpl. by apply NoDup_cons_1_2 in Hnd.
  - unfold new_cache. destruct (c_reserve (cache_of s)) as [|p l] eqn:Hres; [by rewrite ?Hres|].
    simpl in *. lia.
  - unfold new_cache. destruct (c_reserve (cache_of s)) as [|p l] eqn:Hres; [by rewrite ?Hres|].
    simpl in *. lia.
  - intros k. rewrite Hbuf. intros Hin. by apply Hnl in Hin.
  - unfold new_cache, new_target.
    destruct (c_reserve (cache_of s)) as [|p l] eqn:Hres; [rewrite Hres; by intros ?%elem_of_nil|].
    simpl. intros Hin. by apply NoDup_cons_1_1 in Hnd.
  - intros b. rewrite lookup_insert_eq. intros [= <-].
    split; simpl; try done.
Qed.


Lemma wf_reserve_live s p :
  wf s → p ∈ c_reserve (cache_of s) → is_Some (heap s !! p).
Proof. intros Hwf Hin. destruct (wf_reserved _ Hwf _ Hin) as (b & -> & _). by eexists. Qed.

Lemma wf_new_moved_st s ok im area : wf s → wf (new_moved_st ok im area s).
Proof.
  intros Hwf. unfold new_moved_st.
  apply wf_move_st; [by apply wf_new_st|apply heap_new_st|done].
Qed.

Lemma vips_buffer_new_wf s ok im area o s' :
  wf s → vips_buffer_new ok im area s = Ret o s' → wf s'.
Proof.
  intros Hwf. rewrite vips_buffer_new_eq by (intros p; by apply wf_reserve_live).
  destruct (move_ret ok (new_bsize im area) (new_buffer im s) =? 0).
  - intros [= <- <-]. by apply wf_new_moved_st.
  - intros [= <- <-].
    eapply (wf_free (new_moved_st ok im area s) _ (new_target s)).
    + by apply wf_new_moved_st.
    + apply lookup_insert_eq.
    + by rewrite moved_ref_count.
    + apply moved_done.
    + done.
    + done.
Qed.

(** ** buffer_find *)

(** One turn of the loop of [buffer_find]. *)
Lemma buffer_find_loop_cons p l r s b :
  heap s !! p = Some b →
  buffer_find_loop (p :: l) r s =
  if finds b r
  then Ret (Some p) (upd p (set_ref_count (b_ref_count b + 1) b) s)
  else buffer_find_loop l r s.
Proof.
  intros Hp. simpl. rewrite (bind_Ret _ _ _ _ _ (deref_eq _ _ _ Hp)).
  unfold finds.
  destruct (_ && _); [|done].
  by rewrite (bind_Ret _ _ _ _ _ (modify_eq _ _ _ _ Hp)).
Qed.

(** First fit: the buffers before the first one that passes the comparison
    are passed over, those after it are not looked at. *)
Lemma buffer_find_loop_first l1 p l2 r s b :
  (∀ q, q ∈ l1 → ∃ bq, heap s !! q = Some bq ∧ finds bq r = false) →
  heap s !! p = Some b → finds b r = true →
  buffer_find_loop (l1 ++ p :: l2) r s =
  Ret (Some p) (upd p (set_ref_count (b_ref_count b + 1) b) s).
Proof.
  intros Hl1 Hp He. induction l1 as [|q l1 IH].
  - simpl app. by rewrite (buffer_find_loop_cons _ _ _ _ _ Hp), He.
  - destruct (Hl1 q) as (bq & Hq & Heq); [apply list_elem_of_here|].
    simpl app. rewrite (buffer_find_loop_cons _ _ _ _ _ Hq), Heq.
    apply IH. intros q' Hq'. apply Hl1. by apply list_elem_of_further.
Qed.

Lemma buffer_find_loop_none l r s :
  (∀ q, q ∈ l → ∃ bq, heap s !! q = Some bq ∧ finds bq r = false) →
  buffer_find_loop l r s = Ret None s.
Proof.
  intros Hl. induction l as [|q l IH]; [done|].
  destruct (Hl q) as (bq & Hq & Heq); [apply list_elem_of_here|].
  rewrite (buffer_find_loop_cons _ _ _ _ _ Hq), Heq.
  apply IH. intros q' Hq'. apply Hl. by apply list_elem_of_further.
Qed.

(** Over a list of allocated buffers the loop always returns, in one of the
    two ways above. *)
Lemma buffer_find_loop_cases l r s :
  (∀ q, q ∈ l → is_Some (heap s !! q)) →
  ((∀ q, q ∈ l → ∃ bq, heap s !! q = Some bq ∧ finds bq r = false) ∧
   buffer_find_loop l r s = Ret None s) ∨
  (∃ l1 p l2 b,
     l = l1 ++ p :: l2 ∧
     (∀ q, q ∈ l1 → ∃ bq, heap s !! q = Some bq ∧ finds bq r = false) ∧
     heap s !! p = Some b ∧ finds b r = true ∧
     buffer_find_loop l r s =
     Ret (Some p) (upd p (set_ref_count (b_ref_count b + 1) b) s)).
Proof.
  intros Hlive. induction l as [|q l IH].
  - left. split; [by intros q ?%elem_of_nil|done].
  - destruct (Hlive q) as [bq Hq]; [apply list_elem_of_here|].
    destruct (finds bq r) eqn:Heq.
    + right. exists [], q, l, bq. split_and!; try done.
      * by intros q' ?%elem_of_nil.
      * by rewrite (buffer_find_loop_cons _ _ _ _ _ Hq), Heq.
    + destruct IH as [[Hnone Hrun]|(l1 & p & l2 & b & -> & Hl1 & Hp & He & Hrun)].
      * intros q' Hq'. apply Hlive. by apply list_elem_of_further.
      * left. split.
        -- intros q' [->|Hq']%elem_of_cons; [by eauto|by apply Hnone].
        -- by rewrite (buffer_find_loop_cons _ _ _ _ _ Hq), Heq.
      * right. exists (q :: l1), p, l2, b. split_and!; try done.
        -- intros q' [->|Hq']%elem_of_cons; [by eauto|by apply Hl1].
        -- simpl app. by rewrite (buffer_find_loop_cons _ _ _ _ _ Hq), Heq.
Qed.

Lemma buffer_find_eq im r s :
  buffer_find im r s =
  buffer_find_loop (buffers_of (cache_of s) (Some im)) r (got_cache s).
Proof.
  unfold buffer_find. by rewrite (bind_Ret _ _ _ _ _ (buffer_cache_get_eq _)).
Qed.

Lemma wf_got_cache s : wf s → wf (got_cache s).
Proof. by apply wf_ext. Qed.

Lemma wf_listed_live s k q :
  wf s → q ∈ buffers_of (cache_of s) k → is_Some (heap s !! q).
Proof. intros Hwf Hin. destruct (wf_listed _ Hwf _ _ Hin) as (b & -> & _). by eexists. Qed.

(** What [buffer_find] does in a state that satisfies the invariant. *)
Lemma buffer_find_cases im r s :
  wf s →
  ((∀ q, q ∈ buffers_of (cache_of s) (Some im) →
      ∃ bq, heap s !! q = Some bq ∧ finds bq r = false) ∧
   buffer_find im r s = Ret None (got_cache s)) ∨
  (∃ l1 p l2 b,
     buffers_of (cache_of s) (Some im) = l1 ++ p :: l2 ∧
     (∀ q, q ∈ l1 → ∃ bq, heap s !! q = Some bq ∧ finds bq r = false) ∧
     heap s !! p = Some b ∧ finds b r = true ∧
     buffer_find im r s =
     Ret (Some p) (upd p (set_ref_count (b_ref_count b + 1) b) (got_cache s))).
Proof.
  intros Hwf. rewrite buffer_find_eq.
  apply (buffer_find_loop_cases _ r (got_cache s)).
  intros q Hq. by apply (wf_listed_live s (Some im)).
Qed.

Lemma buffer_find_wf im r s o s' :
  wf s → buffer_find im r s = Ret o s' → wf s'.
Proof.
  intros Hwf Hrun.
  destruct (buffer_find_cases im r s Hwf)
    as [[_ Heq]|(l1 & p & l2 & b & Hl & _ & Hp & _ & Heq)];
    rewrite Heq in Hrun; injection Hrun as <- <-.
  - by apply wf_got_cache.
  - assert (p ∈ buffers_of (cache_of s) (Some im)) as Hin.
    { rewrite Hl. apply elem_of_app. right. apply list_elem_of_here. }
    destruct (wf_listed_here _ _ _ _ Hwf Hp Hin) as (_ & _ & _ & Hr).
    apply (wf_upd_held s _ p b (set_ref_count (b_ref_count b + 1) b));
      try done. simpl. lia.
Qed.

(** ** vips_buffer_ref *)

Lemma vips_buffer_ref_wf ok im area s o s' :
  wf s → vips_buffer_ref ok im area s = Ret o s' → wf s'.
Proof.
  intros Hwf Hrun. unfold vips_buffer_ref in Hrun.
  apply bind_inv in Hrun as (o1 & s1 & Hfind & Hrun).
  apply buffer_find_wf in Hfind as Hwf1; [|done].
  destruct o1 as [p|].
  - by injection Hrun as <- <-.
  - by apply vips_buffer_new_wf in Hrun.
Qed.


(** ** Taking a call apart *)

Lemma deref_inv p s b s' : deref p s = Ret b s' → s' = s ∧ heap s !! p = Some b.
Proof. unfold deref. destruct (heap s !! p); [|done]. by intros [= <- <-]. Qed.

Lemma g_assert_inv c s u s' : g_assert c s = Ret u s' → s' = s ∧ c = true.
Proof. unfold g_assert. destruct c; [|done]. by intros [= <-]. Qed.

Lemma ret_inv {A} (a : A) s a' s' : ret a s = Ret a' s' → a' = a ∧ s' = s.
Proof. by intros [= <- <-]. Qed.

Lemma buffer_move_wf ok p area s r s' :
  wf s → buffer_move ok p area s = Ret r s' → wf s'.
Proof.
  intros Hwf Hrun. destruct (heap s !! p) as [b|] eqn:Hp.
  - destruct (decide (b_ref_count b = 1)) as [Hr|Hr];
      [|by rewrite (buffer_move_shared _ _ _ _ _ Hp Hr) in Hrun].
    destruct (ok_ref _ _ _ (wf_buffer _ Hwf _ _ Hp)) as [i Hi]; [lia|].
    rewrite (buffer_move_eq _ _ _ _ i _ Hp Hr Hi) in Hrun
      by (by apply wf_undone_pre).
    injection Hrun as <- <-. apply wf_move_st; [done..|lia].
  - unfold buffer_move, bind, deref in Hrun. by rewrite Hp in Hrun.
Qed.

Lemma unref_if_wf old s u s' : wf s → unref_if old s = Ret u s' → wf s'.
Proof.
  intros Hwf. destruct old as [p|], u; simpl.
  - by apply vips_buffer_unref_wf.
  - by intros [= <-].
Qed.

(** ** vips_buffer_unref_ref *)

(** The assertion on entry and the test of the current buffer. *)
Lemma vips_buffer_unref_ref_none ok im area s :
  vips_buffer_unref_ref ok None im area s =
  (o <- buffer_find im area ;;
   match o with
   | Some buffer => ret (Some buffer)
   | None => vips_buffer_new ok im area
   end) s.
Proof.
  unfold vips_buffer_unref_ref, unref_if, bind, ret.
  destruct (buffer_find im area s) as [[q|] s1| |]; done.
Qed.

Lemma vips_buffer_unref_ref_other ok p b im area s :
  heap s !! p = Some b → b_im b ≠ Some im →
  vips_buffer_unref_ref ok (Some p) im area s = AssertFail.
Proof.
  intros Hp Hi. unfold vips_buffer_unref_ref.
  rewrite bind_assoc, (bind_Ret _ _ _ _ _ (deref_eq _ _ _ Hp)).
  by rewrite bool_decide_eq_false_2.
Qed.

Lemma vips_buffer_unref_ref_some ok p b im area s :
  heap s !! p = Some b → b_im b = Some im →
  vips_buffer_unref_ref ok (Some p) im area s =
  if encloses b area then Ret (Some p) s
  else
    (o <- buffer_find im area ;;
     match o with
     | Some buffer => vips_buffer_unref p ;;; ret (Some buffer)
     | None =>
         b <- deref p ;;
         if b_ref_count b =? 1 then
           r <- buffer_move ok p area ;;
           if r =? 0 then ret (Some p)
           else vips_buffer_unref p ;;; ret None
         else vips_buffer_unref p ;;; vips_buffer_new ok im area
     end) s.
Proof.
  intros Hp Hi. unfold vips_buffer_unref_ref.
  rewrite bind_assoc, (bind_Ret _ _ _ _ _ (deref_eq _ _ _ Hp)).
  rewrite bool_decide_eq_true_2 by done.
  rewrite (bind_Ret (g_assert true) _ s tt s eq_refl).
  rewrite bind_assoc, (bind_Ret _ _ _ _ _ (deref_eq _ _ _ Hp)).
  unfold bind at 1, ret at 1. fold (encloses b area).
  by destruct (encloses b area).
Qed.

Lemma vips_buffer_unref_ref_wf ok old im area s o s' :
  wf s → vips_buffer_unref_ref ok old im area s = Ret o s' → wf s'.
Proof.
  intros Hwf Hrun. destruct old as [p|].
  - destruct (heap s !! p) as [b|] eqn:Hp;
      [|by unfold vips_buffer_unref_ref, bind, deref in Hrun; rewrite Hp in Hrun].
    destruct (decide (b_im b = Some im)) as [Hi|Hi];
      [|by rewrite (vips_buffer_unref_ref_other _ _ _ _ _ _ Hp Hi) in Hrun].
    rewrite (vips_buffer_unref_ref_some _ _ _ _ _ _ Hp Hi) in Hrun.
    destruct (encloses b area); [by injection Hrun as <- <-|].
    apply bind_inv in Hrun as (o1 & s1 & Hfind & Hrun).
    apply buffer_find_wf in Hfind as Hwf1; [|done].
    destruct o1 as [q|].
    + apply bind_inv in Hrun as ([] & s2 & Hunref & Hrun).
      apply ret_inv in Hrun as [_ ->]. by apply vips_buffer_unref_wf in Hunref.
    + apply bind_inv in Hrun as (b1 & s2 & [-> Hp1]%deref_inv & Hrun).
      destruct (b_ref_count b1 =? 1).
      * apply bind_inv in Hrun as (r & s2 & Hmove & Hrun).
        apply buffer_move_wf in Hmove as Hwf2; [|done].
        destruct (r =? 0); [by apply ret_inv in Hrun as [_ ->]|].
        apply bind_inv in Hrun as ([] & s3 & Hunref & Hrun).
        apply ret_inv in Hrun as [_ ->]. by apply vips_buffer_unref_wf in Hunref.
      * apply bind_inv in Hrun as ([] & s2 & Hunref & Hrun).
        apply vips_buffer_unref_wf in Hunref; [|done].
        by apply vips_buffer_new_wf in Hrun.
  - rewrite vips_buffer_unref_ref_none in Hrun.
    by apply (vips_buffer_ref_wf ok im area s o s').
Qed.

(** ** vips_buffer_done and vips_buffer_undone of a held buffer *)

Lemma vips_buffer_done_held s p b :
  wf s → heap s !! p = Some b →
  vips_buffer_done p s = Ret tt (if b_done b then s else done_st p b s).
Proof.
  intros Hwf Hp. destruct (b_done b) eqn:Hd.
  - by apply (vips_buffer_done_again _ _ b).
  - apply vips_buffer_done_eq; [done..| |apply Hwf].
    by apply (wf_not_listed _ _ b).
Qed.

Lemma vips_buffer_done_wf s p s' :
  wf s → held s p → vips_buffer_done p s = Ret tt s' → wf s'.
Proof.
  intros Hwf (b & Hp & Hr). rewrite (vips_buffer_done_held _ _ _ Hwf Hp).
  intros [= <-]. destruct (b_done b) eqn:Hd; [done|]. by apply wf_done.
Qed.

Lemma vips_buffer_undone_held s p b :
  wf s → heap s !! p = Some b →
  vips_buffer_undone p s = Ret tt (undone_st p b s).
Proof. intros Hwf Hp. apply vips_buffer_undone_eq; [done|by apply wf_undone_pre]. Qed.

Lemma vips_buffer_undone_wf s p s' :
  wf s → held s p → vips_buffer_undone p s = Ret tt s' → wf s'.
Proof.
  intros Hwf (b & Hp & Hr). rewrite (vips_buffer_undone_held _ _ _ Hwf Hp).
  intros [= <-]. by apply wf_undone.
Qed.

(** ** The invariant holds in every reachable state *)

Lemma reachable_wf s : reachable s → wf s.
Proof.
  induction 1 as [|s ok im area o s' _ IH Hrun|s ok im area o s' _ IH Hrun
                  |s ok old im area o s' _ IH Hrun|s p s' _ IH Hrun
                  |s p s' _ IH Hheld Hrun|s p s' _ IH Hheld Hrun].
  - apply wf_init.
  - by apply vips_buffer_new_wf in Hrun.
  - by apply vips_buffer_ref_wf in Hrun.
  - by apply vips_buffer_unref_ref_wf in Hrun.
  - by apply vips_buffer_unref_wf in Hrun.
  - by apply vips_buffer_done_wf in Hrun.
  - by apply vips_buffer_undone_wf in Hrun.
Qed.


(** ** Runs *)

Lemma state_of_Some {A} (o : outcome A) s : state_of o = Some s → ∃ a, o = Ret a s.
Proof. destruct o as [a s0| |]; [|done..]. intros [= <-]. by eexists. Qed.

Lemma is_held_true s p : is_held s p = true ↔ held s p.
Proof.
  unfold is_held, held. destruct (heap s !! p) as [b|].
  - rewrite Z.ltb_lt. split; [by eauto|]. by intros (b' & [= <-] & ?).
  - split; [done|]. by intros (b' & [=] & ?).
Qed.

Lemma exec1_reachable c s s' : reachable s → exec1 c s = Some s' → reachable s'.
Proof.
  intros Hs. destruct c as [ok im area|ok im area|ok old im area|p|p|p]; simpl.
  - intros [o Hrun]%state_of_Some. by eapply reach_new.
  - intros [o Hrun]%state_of_Some. by eapply reach_ref.
  - intros [o Hrun]%state_of_Some. by eapply reach_unref_ref.
  - intros [[] Hrun]%state_of_Some. by eapply reach_unref.
  - destruct (is_held s p) eqn:Hh; [|done]. apply is_held_true in Hh.
    intros [[] Hrun]%state_of_Some. by eapply reach_done.
  - destruct (is_held s p) eqn:Hh; [|done]. apply is_held_true in Hh.
    intros [[] Hrun]%state_of_Some. by eapply reach_undone.
Qed.

Lemma exec_reachable cs s s' : reachable s → exec cs s = Some s' → reachable s'.
Proof.
  revert s. induction cs as [|c cs IH]; intros s Hs; simpl.
  - by intros [= <-].
  - destruct (exec1 c s) as [s1|] eqn:Hc; [|done].
    apply IH. by apply (exec1_reachable c s).
Qed.

Lemma exec_app cs1 cs2 s :
  exec (cs1 ++ cs2) s = match exec cs1 s with
                        | Some s' => exec cs2 s'
                        | None => None
                        end.
Proof.
  revert s. induction cs1 as [|c cs1 IH]; intros s; simpl; [done|].
  by destruct (exec1 c s).
Qed.

(** The reachable states are the states after the lists of calls. *)
Lemma reachable_exec s : reachable s ↔ ∃ cs, exec cs init = Some s.
Proof.
  split.
  - induction 1 as [|s ok im area o s' _ [cs IH] Hrun|s ok im area o s' _ [cs IH] Hrun
                    |s ok old im area o s' _ [cs IH] Hrun|s p s' _ [cs IH] Hrun
                    |s p s' _ [cs IH] Hheld Hrun|s p s' _ [cs IH] Hheld Hrun].
    + by exists [].
    + exists (cs ++ [CallNew ok im area]). rewrite exec_app, IH. simpl. by rewrite Hrun.
    + exists (cs ++ [CallRef ok im area]). rewrite exec_app, IH. simpl. by rewrite Hrun.
    + exists (cs ++ [CallUnrefRef ok old im area]). rewrite exec_app, IH. simpl.
      by rewrite Hrun.
    + exists (cs ++ [CallUnref p]). rewrite exec_app, IH. simpl. by rewrite Hrun.
    + exists (cs ++ [CallDone p]). rewrite exec_app, IH. simpl.
      apply is_held_true in Hheld. by rewrite Hheld, Hrun.
    + exists (cs ++ [CallUndone p]). rewrite exec_app, IH. simpl.
      apply is_held_true in Hheld. by rewrite Hheld, Hrun.
  - intros [cs Hcs]. apply (exec_reachable cs init); [constructor|done].
Qed.

Lemma wf_released s p : wf s → heap s !! p = None → released s p.
Proof.
  intros Hwf Hp. split; [done|]. split.
  - intros Hin. apply (wf_reserve_live _ _ Hwf) in Hin as [b Hb]. congruence.
  - intros [k Hin]. apply (wf_listed_live _ _ _ Hwf) in Hin as [b Hb]. congruence.
Qed.


(** ** The reserve, and the last reference *)

Lemma c_reserve_undone_cache p b s :
  c_reserve (undone_cache p b s) = c_reserve (cache_of s).
Proof.
  unfold undone_cache, unlist.
  destruct (b_done b); [|done]. by destruct (c_hash (cache_of s) !! b_im b).
Qed.

Lemma c_n_reserve_undone_cache p b s :
  c_n_reserve (undone_cache p b s) = c_n_reserve (cache_of s).
Proof.
  unfold undone_cache, unlist.
  destruct (b_done b); [|done]. by destruct (c_hash (cache_of s) !! b_im b).
Qed.

(** Dropping the last reference when the reserve is full frees the buffer. *)
Lemma unref_st_full s p b :
  ¬ c_n_reserve (cache_of s) < buffer_cache_max_reserve →
  heap (unref_st p b s) !! p = None ∧
  c_reserve (cache_of (unref_st p b s)) = c_reserve (cache_of s).
Proof.
  intros Hn. unfold unref_st. simpl. rewrite c_n_reserve_undone_cache.
  destruct (c_n_reserve (cache_of s) <? buffer_cache_max_reserve) eqn:Hlt; [lia|].
  simpl. split; [apply lookup_delete_eq|]. unfold cache_of at 1. simpl.
  apply c_reserve_undone_cache.
Qed.

(** Dropping it when there is room parks the buffer at the head of the
    reserve. *)
Lemma unref_st_room s p b :
  c_n_reserve (cache_of s) < buffer_cache_max_reserve →
  heap (unref_st p b s) !! p = Some (parked b) ∧
  c_reserve (cache_of (unref_st p b s)) = p :: c_reserve (cache_of s).
Proof.
  intros Hn. unfold unref_st. simpl. rewrite c_n_reserve_undone_cache.
  destruct (c_n_reserve (cache_of s) <? buffer_cache_max_reserve) eqn:Hlt; [|lia].
  simpl. split; [apply lookup_insert_eq|]. unfold cache_of at 1. simpl.
  by rewrite c_reserve_undone_cache.
Qed.

Lemma wf_idle s p b :
  wf s → heap s !! p = Some b → b_ref_count b = 0 → idle s p b.
Proof.
  intros Hwf Hp Hr.
  destruct (wf_buffer _ Hwf _ _ Hp) as [H1 H2 H3 H4 H5].
  destruct (H4 Hr) as (_ & _ & Hw & Hh).
  assert (b_done b = false) as Hd.
  { destruct (b_done b); [|done]. destruct H2 as (_ & _ & ?); [done|lia]. }
  split; [done|]. split; [|done].
  intros [k Hin]. by apply (wf_not_listed _ _ _ k Hwf Hp Hd).
Qed.


(** C6.  In every reachable state a buffer with a reference count of 0 is
    not published (flag off, member of no BufferCacheList) and its area is
    zeroed, that is, its width and height are 0; and [vips_buffer_unref] of a
    last reference returns and either frees the buffer or leaves it with a
    count of 0 and in that condition. *)
Theorem C6_unreferenced_is_idle s :
  reachable s →
  (∀ p b, heap s !! p = Some b → b_ref_count b = 0 → idle s p b) ∧
  (∀ p b, heap s !! p = Some b → b_ref_count b = 1 →
     ∃ s', vips_buffer_unref p s = Ret tt s' ∧
           (released s' p ∨
            ∃ b', heap s' !! p = Some b' ∧ b_ref_count b' = 0 ∧ idle s' p b')).
Proof.
  intros Hs. pose proof (reachable_wf _ Hs) as Hwf. split.
  - intros p b. by apply wf_idle.
  - intros p b Hp Hr. exists (unref_st p b s).
    assert (wf (unref_st p b s)) as Hwf' by (by apply wf_unref_st).
    split; [apply vips_buffer_unref_last; [done..|by apply wf_undone_pre]|].
    destruct (decide (c_n_reserve (cache_of s) < buffer_cache_max_reserve)) as [Hn|Hn].
    + right. exists (parked b).
      destruct (unref_st_room s p b Hn) as [Hp' _].
      split; [done|]. split; [done|]. by apply wf_idle.
    + left. apply wf_released; [done|]. by apply unref_st_full.
Qed.

(** C7.  In every reachable state the reference count of a buffer is not
    negative; [vips_buffer_unref] of a buffer whose count is 0 fails its
    assertion instead of decrementing; and a [vips_buffer_unref] that returns
    leaves the buffer, if it is still allocated, with a count one lower and
    not negative. *)
Theorem C7_ref_count_not_negative s p b :
  reachable s → heap s !! p = Some b →
  0 ≤ b_ref_count b ∧
  (b_ref_count b = 0 → vips_buffer_unref p s = AssertFail) ∧
  (∀ s' b', vips_buffer_unref p s = Ret tt s' → heap s' !! p = Some b' →
     b_ref_count b' = b_ref_count b - 1 ∧ 0 ≤ b_ref_count b').
Proof.
  intros Hs Hp. pose proof (reachable_wf _ Hs) as Hwf.
  pose proof (ok_ref_count _ _ _ (wf_buffer _ Hwf _ _ Hp)) as Hr.
  split; [done|]. split.
  - intros H0. apply (vips_buffer_unref_rejected _ _ b); [done|lia].
  - intros s' b' Hrun Hp'.
    destruct (decide (b_ref_count b = 0)) as [H0|H0].
    { rewrite (vips_buffer_unref_rejected _ _ b) in Hrun; [done..|lia]. }
    destruct (decide (b_ref_count b = 1)) as [H1|H1].
    + rewrite (vips_buffer_unref_last _ _ _ Hp H1) in Hrun
        by (by apply wf_undone_pre).
      injection Hrun as <-.
      destruct (decide (c_n_reserve (cache_of s) < buffer_cache_max_reserve)) as [Hn|Hn].
      * destruct (unref_st_room s p b Hn) as [Hpk _].
        rewrite Hpk in Hp'. injection Hp' as <-. simpl. lia.
      * destruct (unref_st_full s p b Hn) as [Hgone _]. congruence.
    + rewrite (vips_buffer_unref_shared _ _ _ Hp) in Hrun by lia.
      injection Hrun as <-. rewrite heap_upd_eq in Hp'.
      injection Hp' as <-. simpl. lia.
Qed.


(** ** Acquiring *)

Lemma new_target_got_cache s : new_target (got_cache s) = new_target s.
Proof. done. Qed.

(** [vips_buffer_ref] hands out the first published buffer of the image that
    passes the comparison of [buffer_find], or goes to [vips_buffer_new] when
    none does. *)
Lemma vips_buffer_ref_cases s ok im r :
  wf s →
  ((∀ q, q ∈ buffers_of (cache_of s) (Some im) →
      ∃ bq, heap s !! q = Some bq ∧ finds bq r = false) ∧
   vips_buffer_ref ok im r s = vips_buffer_new ok im r (got_cache s)) ∨
  (∃ l1 p l2 b,
     buffers_of (cache_of s) (Some im) = l1 ++ p :: l2 ∧
     (∀ q, q ∈ l1 → ∃ bq, heap s !! q = Some bq ∧ finds bq r = false) ∧
     heap s !! p = Some b ∧ finds b r = true ∧
     vips_buffer_ref ok im r s =
     Ret (Some p) (upd p (set_ref_count (b_ref_count b + 1) b) (got_cache s))).
Proof.
  intros Hwf. unfold vips_buffer_ref.
  destruct (buffer_find_cases im r s Hwf)
    as [[Hnone Heq]|(l1 & p & l2 & b & Hl & Hl1 & Hp & He & Heq)].
  - left. split; [done|]. by rewrite (bind_Ret _ _ _ _ _ Heq).
  - right. exists l1, p, l2, b. split_and!; try done.
    by rewrite (bind_Ret _ _ _ _ _ Heq).
Qed.

Lemma vips_buffer_new_result s ok im r :
  wf s →
  (move_ret ok (new_bsize im r) (new_buffer im s) = 0 ∧
   vips_buffer_new ok im r s = Ret (Some (new_target s)) (new_moved_st ok im r s)) ∨
  (ok = false ∧
   vips_buffer_new ok im r s =
   Ret None (free_st (new_target s)
               (moved ok r (new_bsize im r) (tracked s) (new_buffer im s))
               (new_moved_st ok im r s))).
Proof.
  intros Hwf. rewrite vips_buffer_new_eq by (intros p; by apply wf_reserve_live).
  destruct (move_ret ok (new_bsize im r) (new_buffer im s) =? 0) eqn:Hr.
  - left. split; [lia|done].
  - right. split; [|done].
    destruct (moved_buf_failed ok r (new_bsize im r) (tracked s) (new_buffer im s));
      [lia|done].
Qed.

(** C2, amended.  In every reachable state [vips_buffer_ref] returns, and it
    returns a buffer when the allocator does not fail.  When the requested
    rectangle and the areas of the buffers fit, every buffer it returns,
    whether found in the list of the image, taken from the reserve or made
    anew, is allocated, belongs to the image, is referenced, and has an area
    that encloses the requested one. *)
Theorem C2_acquire_encloses s ok im r :
  reachable s →
  (∃ o s', vips_buffer_ref ok im r s = Ret o s' ∧ (ok = true → is_Some o)) ∧
  (areas_fit s → rect_fits r →
   ∀ p s', vips_buffer_ref ok im r s = Ret (Some p) s' →
     ∃ b, heap s' !! p = Some b ∧ b_im b = Some im ∧ 0 < b_ref_count b ∧
          vips_rect_includesrect (b_area b) r = true).
Proof.
  intros Hs. pose proof (reachable_wf _ Hs) as Hwf.
  destruct (vips_buffer_ref_cases s ok im r Hwf)
    as [[_ Heq]|(l1 & p & l2 & b & Hl & _ & Hp & He & Heq)]; rewrite Heq.
  - destruct (vips_buffer_new_result (got_cache s) ok im r (wf_got_cache _ Hwf))
      as [[Hr Hnew]|[Hok Hnew]]; rewrite Hnew.
    + split; [by eauto|]. intros _ _ p s' [= <- <-].
      exists (moved ok r (new_bsize im r) (tracked (got_cache s))
                (new_buffer im (got_cache s))).
      split; [apply lookup_insert_eq|].
      rewrite moved_im, moved_ref_count, moved_area.
      split; [done|]. split; [done|]. apply vips_rect_includesrect_refl.
    + split; [|done]. eexists _, _. split; [done|]. by rewrite Hok.
  - split; [by eauto|]. intros Hf Hfr p' s' [= <- <-].
    assert (p ∈ buffers_of (cache_of s) (Some im)) as Hin.
    { rewrite Hl. apply elem_of_app. right. apply list_elem_of_here. }
    destruct (wf_listed_here _ _ _ _ Hwf Hp Hin) as (_ & Hi & _ & Hr).
    rewrite (finds_encloses_in s p b r Hf Hfr Hp) in He.
    eexists. split; [apply heap_upd_eq|]. simpl. split; [done|]. split; [lia|done].
Qed.

(** C4, amended.  If a buffer [p] is published for the image and its area
    encloses the requested one, and the requested rectangle and the areas of
    the buffers fit, [vips_buffer_ref] returns the first buffer in the list
    of the image that encloses the area: [p] itself, or a buffer that stands
    before [p] in the list, which was published after [p].  The buffer
    returned has its reference count incremented and nothing else in the heap
    changes: no struct and no pixel memory is allocated. *)
Theorem C4_acquire_published s ok im r p b :
  reachable s → areas_fit s → rect_fits r →
  heap s !! p = Some b → b_done b = true → b_im b = Some im →
  encloses b r = true →
  ∃ l1 q l2 bq s',
    buffers_of (cache_of s) (Some im) = l1 ++ q :: l2 ∧
    (∀ x, x ∈ l1 → ∃ bx, heap s !! x = Some bx ∧ encloses bx r = false) ∧
    heap s !! q = Some bq ∧ encloses bq r = true ∧
    (p = q ∨ p ∈ l2) ∧
    vips_buffer_ref ok im r s = Ret (Some q) s' ∧
    heap s' = <[q := set_ref_count (b_ref_count bq + 1) bq]> (heap s) ∧
    dom (heap s') = dom (heap s) ∧
    tracked s' = tracked s ∧
    cache_of s' = cache_of s.
Proof.
  intros Hs Hf Hfr Hp Hd Hi He. pose proof (reachable_wf _ Hs) as Hwf.
  destruct (ok_done _ _ _ (wf_buffer _ Hwf _ _ Hp) Hd) as (Hin & _ & _).
  rewrite Hi in Hin.
  assert (∀ x bx, heap s !! x = Some bx → finds bx r = encloses bx r) as Hsame.
  { intros x bx Hx. by apply (finds_encloses_in s x). }
  destruct (vips_buffer_ref_cases s ok im r Hwf)
    as [[Hnone _]|(l1 & q & l2 & bq & Hl & Hl1 & Hq & Heq & Hrun)].
  - destruct (Hnone p Hin) as (b' & Hb' & He').
    rewrite (Hsame _ _ Hb') in He'. congruence.
  - assert (∀ x, x ∈ l1 → ∃ bx, heap s !! x = Some bx ∧ encloses bx r = false)
      as Hl1'.
    { intros x Hx. destruct (Hl1 x Hx) as (bx & Hbx & Hex).
      exists bx. split; [done|]. by rewrite <- (Hsame _ _ Hbx). }
    rewrite (Hsame _ _ Hq) in Heq.
    exists l1, q, l2, bq, (upd q (set_ref_count (b_ref_count bq + 1) bq) (got_cache s)).
    split_and!; try done.
    + rewrite Hl in Hin. apply elem_of_app in Hin as [Hin|Hin].
      * destruct (Hl1' p Hin) as (b' & Hb' & He'). congruence.
      * apply elem_of_cons in Hin as [->|Hin]; [by left|by right].
    + simpl. apply dom_insert_lookup_L. by eexists.
Qed.

(** C5, amended.  [buffer_find] is first fit.  When the rectangle and the
    areas of the buffers fit, it returns the first buffer in the list of the
    image whose area encloses the rectangle, whatever follows it in the list,
    and returns NULL when no buffer of the list encloses the rectangle; and
    [vips_buffer_done] puts a buffer at the head of the list of its image, so
    that the list is ordered from the most recently published buffer to the
    least. *)
Theorem C5_first_fit s im r :
  (areas_fit s → rect_fits r →
   ∀ l1 p l2 b,
     buffers_of (cache_of s) (Some im) = l1 ++ p :: l2 →
     (∀ q, q ∈ l1 → ∃ bq, heap s !! q = Some bq ∧ encloses bq r = false) →
     heap s !! p = Some b → encloses b r = true →
     buffer_find im r s =
     Ret (Some p) (upd p (set_ref_count (b_ref_count b + 1) b) (got_cache s))) ∧
  (areas_fit s → rect_fits r →
   (∀ q, q ∈ buffers_of (cache_of s) (Some im) →
      ∃ bq, heap s !! q = Some bq ∧ encloses bq r = false) →
   buffer_find im r s = Ret None (got_cache s)) ∧
  (∀ p b, reachable s → heap s !! p = Some b → 0 < b_ref_count b →
     b_done b = false →
     ∃ s', vips_buffer_done p s = Ret tt s' ∧
           buffers_of (cache_of s') (b_im b) = p :: buffers_of (cache_of s) (b_im b)).
Proof.
  assert (areas_fit s → rect_fits r →
          ∀ l : list ptr,
            (∀ q, q ∈ l → ∃ bq, heap s !! q = Some bq ∧ encloses bq r = false) →
               ∀ q, q ∈ l →
                 ∃ bq, heap (got_cache s) !! q = Some bq ∧ finds bq r = false)
    as Hpass.
  { intros Hf Hfr l Hl q Hq. destruct (Hl q Hq) as (bq & Hbq & Heq).
    exists bq. split; [done|]. by rewrite (finds_encloses_in s q bq r Hf Hfr Hbq). }
  split; [|split].
  - intros Hf Hfr l1 p l2 b Hl Hl1 Hp He. rewrite buffer_find_eq, Hl.
    apply (buffer_find_loop_first l1 p l2 r (got_cache s) b); [|done|].
    + by apply Hpass.
    + by rewrite (finds_encloses_in s p b r Hf Hfr Hp).
  - intros Hf Hfr Hnone. rewrite buffer_find_eq.
    apply (buffer_find_loop_none _ r (got_cache s)). by apply Hpass.
  - intros p b Hs Hp Hr Hd. pose proof (reachable_wf _ Hs) as Hwf.
    exists (done_st p b s). split.
    + rewrite (vips_buffer_done_held _ _ _ Hwf Hp). by rewrite Hd.
    + unfold done_st, cache_of at 1. simpl.
      by rewrite buffers_of_enlist, decide_True.
Qed.

(** ** Swapping a reference *)

(** C8, amended.  When the old buffer belongs to the requested image and its
    area encloses the requested one, [vips_buffer_unref_ref] returns the old
    buffer and the state is what it was: no field, no reference count, no
    list and no allocation has changed. *)
Theorem C8_swap_identity s ok p b im r :
  heap s !! p = Some b → b_im b = Some im →
  vips_rect_includesrect (b_area b) r = true →
  vips_buffer_unref_ref ok (Some p) im r s = Ret (Some p) s.
Proof.
  intros Hp Hi He. rewrite (vips_buffer_unref_ref_some _ _ _ _ _ _ Hp Hi).
  unfold encloses. by rewrite He.
Qed.

(** C10.  [vips_buffer_unref_ref] asserts on entry that the old buffer
    belongs to the requested image: with an old buffer of another image the
    call aborts, whether its area encloses the requested one or not, and so
    every call that returns was given an old buffer of the requested image. *)
Theorem C10_swap_same_image s ok p b im r :
  heap s !! p = Some b →
  (b_im b ≠ Some im → vips_buffer_unref_ref ok (Some p) im r s = AssertFail) ∧
  (∀ o s', vips_buffer_unref_ref ok (Some p) im r s = Ret o s' → b_im b = Some im).
Proof.
  intros Hp. split.
  - by apply vips_buffer_unref_ref_other.
  - intros o s' Hrun. destruct (decide (b_im b = Some im)) as [Hi|Hi]; [done|].
    by rewrite (vips_buffer_unref_ref_other _ _ _ _ _ _ Hp Hi) in Hrun.
Qed.


(** ** Publishing twice *)

Lemma modify_inv p f s u s' :
  modify p f s = Ret u s' → ∃ b, heap s !! p = Some b ∧ s' = upd p (f b) s.
Proof.
  unfold modify. destruct (heap s !! p) as [b|]; [|done].
  intros [= <-]. by eauto.
Qed.

(** After two assignments to fields of [p] the buffer at [p] is the old one
    with the two fields set. *)
Lemma modify_modify_inv p f g s0 u s1 v s2 :
  modify p f s0 = Ret u s1 → modify p g s1 = Ret v s2 →
  ∃ b, heap s0 !! p = Some b ∧ s2 = upd p (g (f b)) s0.
Proof.
  intros (b & Hb & ->)%modify_inv (b' & Hb' & ->)%modify_inv.
  rewrite heap_upd_eq in Hb'. injection Hb' as <-.
  exists b. by rewrite upd_upd.
Qed.

Lemma vips_buffer_done_post p s s' :
  vips_buffer_done p s = Ret tt s' →
  ∃ b', heap s' !! p = Some b' ∧ b_done b' = true.
Proof.
  unfold vips_buffer_done. intros Hrun.
  apply bind_inv in Hrun as (b & s0 & [-> Hp]%deref_inv & Hrun).
  destruct (b_done b) eqn:Hd.
  - apply ret_inv in Hrun as [_ ->]. by eauto.
  - apply bind_inv in Hrun as (c & s1 & _ & Hrun).
    apply bind_inv in Hrun as (cl & s2 & _ & Hrun).
    apply bind_inv in Hrun as (u1 & s3 & _ & Hrun).
    apply bind_inv in Hrun as (u2 & s4 & _ & Hrun).
    apply bind_inv in Hrun as (u3 & s5 & Hm1 & Hm2).
    destruct (modify_modify_inv _ _ _ _ _ _ _ _ Hm1 Hm2) as (b4 & _ & ->).
    eexists. split; [apply heap_upd_eq|done].
Qed.

Lemma vips_buffer_undone_post p s s' :
  vips_buffer_undone p s = Ret tt s' →
  ∃ b', heap s' !! p = Some b' ∧ b_done b' = false ∧
        r_width (b_area b') = 0 ∧ r_height (b_area b') = 0.
Proof.
  unfold vips_buffer_undone. intros Hrun.
  apply bind_inv in Hrun as (b & s0 & [-> Hp]%deref_inv & Hrun).
  apply bind_inv in Hrun as (u0 & s1 & Hblock & Hrun).
  apply bind_inv in Hrun as (u1 & s2 & Hm1 & Hm2).
  destruct (modify_modify_inv _ _ _ _ _ _ _ _ Hm1 Hm2) as (b1 & Hb1 & ->).
  eexists. split; [apply heap_upd_eq|]. simpl. split; [|done].
  destruct (b_done b) eqn:Hd.
  - apply bind_inv in Hblock as (u2 & s3 & _ & Hblock).
    apply bind_inv in Hblock as (c & s4 & _ & Hblock).
    destruct (c_hash c !! b_im b) as [cl|]; [|done].
    apply bind_inv in Hblock as (u3 & s5 & _ & Hblock).
    apply bind_inv in Hblock as (u4 & s6 & _ & Hblock).
    apply bind_inv in Hblock as (u5 & s7 & Hm3 & Hm4).
    destruct (modify_modify_inv _ _ _ _ _ _ _ _ Hm3 Hm4) as (b6 & _ & ->).
    rewrite heap_upd_eq in Hb1. by injection Hb1 as <-.
  - apply ret_inv in Hblock as [_ ->]. rewrite Hp in Hb1. by injection Hb1 as <-.
Qed.

Lemma undone_st_idle p b s :
  heap s !! p = Some b → b_done b = false →
  r_width (b_area b) = 0 → r_height (b_area b) = 0 →
  undone_st p b s = s.
Proof.
  intros Hp Hd Hw Hh. unfold undone_st. rewrite Hd.
  assert (unpublished b = b) as ->.
  { unfold unpublished, zero_size. rewrite Hd. destruct b as [? ? [] ? ? ? ?].
    simpl in *. by subst. }
  rewrite insert_id by done. by destruct s.
Qed.

(** C9.  [vips_buffer_done] and [vips_buffer_undone] are idempotent: after
    a call that returns, a second call on the same buffer returns and leaves
    the state as the first call left it, so the buffer is neither put into
    its list a second time nor removed from it a second time. *)
Theorem C9_done_undone_idempotent p s s' :
  (vips_buffer_done p s = Ret tt s' → vips_buffer_done p s' = Ret tt s') ∧
  (vips_buffer_undone p s = Ret tt s' → vips_buffer_undone p s' = Ret tt s').
Proof.
  split.
  - intros (b' & Hp' & Hd')%vips_buffer_done_post.
    by apply (vips_buffer_done_again _ _ b').
  - intros (b' & Hp' & Hd' & Hw & Hh)%vips_buffer_undone_post.
    rewrite (vips_buffer_undone_eq _ _ b') by (done || (intros ?; congruence)).
    by rewrite undone_st_idle.
Qed.


(** ** When the allocator fails *)

Lemma new_target_upd p b b' s :
  heap s !! p = Some b → new_target (upd p b' s) = new_target s.
Proof.
  intros Hp. unfold new_target, upd, set_heap, cache_of. simpl.
  rewrite dom_insert_lookup_L; [done|by eexists].
Qed.

Lemma new_target_not_held s p b :
  wf s → heap s !! p = Some b → 0 < b_ref_count b → new_target s ≠ p.
Proof.
  intros Hwf Hp Hr Heq. pose proof (wf_not_reserved _ _ _ Hwf Hp Hr) as Hnr.
  unfold new_target in Heq.
  destruct (c_reserve (cache_of s)) as [|q l] eqn:Hres.
  - subst p. by rewrite fresh_not_allocated in Hp.
  - subst q. apply Hnr. apply list_elem_of_here.
Qed.

(** [vips_buffer_new] frees the buffer it had taken. *)
Lemma vips_buffer_new_failed s ok im r s' :
  wf s → vips_buffer_new ok im r s = Ret None s' →
  ok = false ∧ released s' (new_target s).
Proof.
  intros Hwf Hrun. pose proof (vips_buffer_new_wf _ _ _ _ _ _ Hwf Hrun) as Hwf'.
  destruct (vips_buffer_new_result s ok im r Hwf) as [[_ Heq]|[Hok Heq]];
    rewrite Heq in Hrun; [done|].
  injection Hrun as <-. split; [done|].
  apply wf_released; [done|]. apply lookup_delete_eq.
Qed.

Lemma vips_buffer_ref_failed s ok im r s' :
  wf s → vips_buffer_ref ok im r s = Ret None s' →
  ok = false ∧ released s' (new_target s).
Proof.
  intros Hwf Hrun.
  destruct (vips_buffer_ref_cases s ok im r Hwf)
    as [[_ Heq]|(l1 & p & l2 & b & _ & _ & _ & _ & Heq)];
    rewrite Heq in Hrun; [|done].
  rewrite <- new_target_got_cache.
  apply (vips_buffer_new_failed (got_cache s) ok im r); [|done].
  by apply wf_got_cache.
Qed.

(** [buffer_move] reports the failure and releases nothing: the buffer stays
    allocated and held, unpublished and without pixel memory. *)
Lemma buffer_move_failed s ok p r s' :
  wf s → buffer_move ok p r s = Ret (-1) s' →
  ok = false ∧
  ∃ b', heap s' !! p = Some b' ∧ b_ref_count b' = 1 ∧ b_buf b' = None ∧
        b_done b' = false ∧ ¬ registered s' p ∧ p ∉ c_reserve (cache_of s').
Proof.
  intros Hwf Hrun. pose proof (buffer_move_wf _ _ _ _ _ _ Hwf Hrun) as Hwf'.
  destruct (heap s !! p) as [b|] eqn:Hp;
    [|by unfold buffer_move, bind, deref in Hrun; rewrite Hp in Hrun].
  destruct (decide (b_ref_count b = 1)) as [Hr|Hr];
    [|by rewrite (buffer_move_shared _ _ _ _ _ Hp Hr) in Hrun].
  destruct (ok_ref _ _ _ (wf_buffer _ Hwf _ _ Hp)) as [i Hi]; [lia|].
  rewrite (buffer_move_eq _ _ _ _ i _ Hp Hr Hi) in Hrun by (by apply wf_undone_pre).
  injection Hrun as Hret <-.
  destruct (moved_buf_failed ok r (new_bsize i r) (tracked s) b) as [Hok Hbuf]; [lia|].
  split; [done|]. eexists. split; [apply lookup_insert_eq|].
  rewrite moved_ref_count, moved_done. split_and!; try done.
  - intros [k Hin]. eapply (wf_not_listed _ p _ k Hwf'); [apply lookup_insert_eq| |done].
    apply moved_done.
  - eapply (wf_not_reserved _ p _ Hwf'); [apply lookup_insert_eq|].
    rewrite moved_ref_count. lia.
Qed.

(** [vips_buffer_unref_ref] of an unshared old buffer drops the reference
    with [vips_buffer_unref]: the buffer goes to the reserve when there is
    room and is freed when there is none. *)
Lemma vips_buffer_unref_ref_failed_move s ok p b im r s' :
  wf s → heap s !! p = Some b → b_ref_count b = 1 →
  vips_buffer_unref_ref ok (Some p) im r s = Ret None s' →
  ok = false ∧ ¬ registered s' p ∧
  if c_n_reserve (cache_of s) <? buffer_cache_max_reserve
  then ∃ b', heap s' !! p = Some b' ∧ b_ref_count b' = 0 ∧ b_buf b' = None ∧
             c_reserve (cache_of s') = p :: c_reserve (cache_of s)
  else released s' p.
Proof.
  intros Hwf Hp Hr Hrun.
  pose proof (vips_buffer_unref_ref_wf _ _ _ _ _ _ _ Hwf Hrun) as Hwf'.
  destruct (decide (b_im b = Some im)) as [Hi|Hi];
    [|by rewrite (vips_buffer_unref_ref_other _ _ _ _ _ _ Hp Hi) in Hrun].
  rewrite (vips_buffer_unref_ref_some _ _ _ _ _ _ Hp Hi) in Hrun.
  destruct (encloses b r); [done|].
  destruct (buffer_find_cases im r s Hwf)
    as [[_ Heq]|(l1 & q & l2 & bq & _ & _ & _ & _ & Heq)];
    rewrite (bind_Ret _ _ _ _ _ Heq) in Hrun.
  2:{ apply bind_inv in Hrun as (u & s1 & _ & Hrun). by apply ret_inv in Hrun as [? _]. }
  pose proof (wf_got_cache _ Hwf) as Hwf0.
  assert (heap (got_cache s) !! p = Some b) as Hp0 by done.
  rewrite (bind_Ret _ _ _ _ _ (deref_eq _ _ _ Hp0)) in Hrun.
  rewrite Hr in Hrun. change (1 =? 1) with true in Hrun. cbv iota in Hrun.
  rewrite (bind_Ret _ _ _ _ _
    (buffer_move_eq _ ok _ _ im r Hp0 Hr Hi (wf_undone_pre _ _ _ Hwf0 Hp0))) in Hrun.
  set (n := new_bsize im r) in *.
  set (m := move_st ok r n p b (got_cache s)) in *.
  set (mb := moved ok r n (tracked (got_cache s)) b) in *.
  destruct (move_ret ok n b =? 0) eqn:Hret; [done|].
  destruct (moved_buf_failed ok r n (tracked (got_cache s)) b) as [Hok Hbuf]; [lia|].
  assert (wf m) as Hwfm by (apply wf_move_st; [done..|lia]).
  assert (heap m !! p = Some mb) as Hpm by apply lookup_insert_eq.
  assert (b_ref_count mb = 1) as Hrm by (unfold mb; by rewrite moved_ref_count).
  rewrite (bind_Ret _ _ _ _ _
    (vips_buffer_unref_last _ _ _ Hpm Hrm (wf_undone_pre _ _ _ Hwfm Hpm))) in Hrun.
  injection Hrun as <-.
  assert (c_n_reserve (cache_of m) = c_n_reserve (cache_of s)) as Hn.
  { unfold m. by rewrite cache_of_move_st, c_n_reserve_undone_cache. }
  assert (c_reserve (cache_of m) = c_reserve (cache_of s)) as Hres.
  { unfold m. by rewrite cache_of_move_st, c_reserve_undone_cache. }
  split; [done|].
  destruct (c_n_reserve (cache_of s) <? buffer_cache_max_reserve) eqn:Hroom.
  - destruct (unref_st_room m p mb) as [Hpk Hrk]; [lia|].
    split.
    + intros [k Hin]. by eapply (wf_not_listed _ p _ k Hwf').
    + exists (parked mb). by rewrite <- Hres.
  - destruct (unref_st_full m p mb) as [Hgone _]; [lia|].
    pose proof (wf_released _ _ Hwf' Hgone) as Hrel.
    split; [apply Hrel|done].
Qed.

(** With a shared old buffer, the old buffer loses one reference and the
    buffer that [vips_buffer_new] had taken is freed. *)
Lemma vips_buffer_unref_ref_failed_new s ok p b im r s' :
  wf s → heap s !! p = Some b → b_ref_count b ≠ 1 →
  vips_buffer_unref_ref ok (Some p) im r s = Ret None s' →
  ok = false ∧ released s' (new_target s) ∧
  ∃ b', heap s' !! p = Some b' ∧ b_ref_count b' = b_ref_count b - 1.
Proof.
  intros Hwf Hp Hr Hrun.
  destruct (decide (b_im b = Some im)) as [Hi|Hi];
    [|by rewrite (vips_buffer_unref_ref_other _ _ _ _ _ _ Hp Hi) in Hrun].
  rewrite (vips_buffer_unref_ref_some _ _ _ _ _ _ Hp Hi) in Hrun.
  destruct (encloses b r); [done|].
  destruct (buffer_find_cases im r s Hwf)
    as [[_ Heq]|(l1 & q & l2 & bq & _ & _ & _ & _ & Heq)];
    rewrite (bind_Ret _ _ _ _ _ Heq) in Hrun.
  2:{ apply bind_inv in Hrun as (u & s1 & _ & Hrun). by apply ret_inv in Hrun as [? _]. }
  pose proof (wf_got_cache _ Hwf) as Hwf0.
  assert (heap (got_cache s) !! p = Some b) as Hp0 by done.
  rewrite (bind_Ret _ _ _ _ _ (deref_eq _ _ _ Hp0)) in Hrun.
  assert ((b_ref_count b =? 1) = false) as Hne by lia. rewrite Hne in Hrun.
  destruct (decide (b_ref_count b ≤ 0)) as [Hle|Hgt].
  { unfold bind in Hrun.
    by rewrite (vips_buffer_unref_rejected _ _ _ Hp0 Hle) in Hrun. }
  assert (1 < b_ref_count b) as Hsh by lia.
  rewrite (bind_Ret _ _ _ _ _ (vips_buffer_unref_shared _ _ _ Hp0 Hsh)) in Hrun.
  set (b1 := set_ref_count (b_ref_count b - 1) b) in *.
  assert (wf (upd p b1 (got_cache s))) as Hwf1.
  { apply (wf_upd_held (got_cache s) _ p b b1); try done; simpl; lia. }
  destruct (vips_buffer_new_failed _ _ _ _ _ Hwf1 Hrun) as [Hok Hrel].
  rewrite (new_target_upd _ b) in Hrel by done.
  split; [done|]. split; [done|].
  destruct (vips_buffer_new_result _ ok im r Hwf1) as [[_ Heq']|[_ Heq']];
    rewrite Heq' in Hrun; [done|]. injection Hrun as <-.
  exists b1. split; [|done].
  assert (new_target (upd p b1 (got_cache s)) ≠ p) as Hne'.
  { apply (new_target_not_held _ _ b1); [done|apply heap_upd_eq|simpl; lia]. }
  simpl. rewrite lookup_delete_ne by done.
  rewrite !lookup_insert_ne by done. apply lookup_insert_eq.
Qed.


(** C1, amended.  When the pixel memory cannot be allocated, NULL is
    returned and no list holds the buffer involved.  [vips_buffer_new], and
    with it [vips_buffer_ref] and the fallback of [vips_buffer_unref_ref],
    frees the buffer it had taken from the reserve or made: it is allocated
    no more and the reserve does not hold it.  [vips_buffer_unref_ref] of an
    unshared old buffer drops its reference with [vips_buffer_unref]: the
    buffer, now without pixel memory, is put at the head of the reserve when
    the reserve holds fewer than 40 buffers, and is freed otherwise.
    [buffer_move] itself returns -1 and releases nothing: the buffer stays
    allocated with its one reference, unpublished and without pixel
    memory. *)
Theorem C1_allocation_failure s ok im r s' :
  reachable s →
  (vips_buffer_new ok im r s = Ret None s' →
     ok = false ∧ released s' (new_target s)) ∧
  (vips_buffer_ref ok im r s = Ret None s' →
     ok = false ∧ released s' (new_target s)) ∧
  (∀ old, vips_buffer_unref_ref ok old im r s = Ret None s' →
     ok = false ∧
     match old with
     | None => released s' (new_target s)
     | Some p =>
         ∃ b, heap s !! p = Some b ∧
           if b_ref_count b =? 1
           then ¬ registered s' p ∧
                if c_n_reserve (cache_of s) <? buffer_cache_max_reserve
                then ∃ b', heap s' !! p = Some b' ∧ b_ref_count b' = 0 ∧
                           b_buf b' = None ∧
                           c_reserve (cache_of s') = p :: c_reserve (cache_of s)
                else released s' p
           else released s' (new_target s) ∧
                ∃ b', heap s' !! p = Some b' ∧
                      b_ref_count b' = b_ref_count b - 1
     end) ∧
  (∀ p, buffer_move ok p r s = Ret (-1) s' →
     ok = false ∧
     ∃ b', heap s' !! p = Some b' ∧ b_ref_count b' = 1 ∧ b_buf b' = None ∧
           b_done b' = false ∧ ¬ registered s' p ∧ p ∉ c_reserve (cache_of s')).
Proof.
  intros Hs. pose proof (reachable_wf _ Hs) as Hwf. split_and!.
  - by apply vips_buffer_new_failed.
  - by apply vips_buffer_ref_failed.
  - intros [p|] Hrun.
    + destruct (heap s !! p) as [b|] eqn:Hp;
        [|by unfold vips_buffer_unref_ref, bind, deref in Hrun; rewrite Hp in Hrun].
      destruct (b_ref_count b =? 1) eqn:Hr.
      * destruct (vips_buffer_unref_ref_failed_move s ok p b im r s')
          as (Hok & Hnr & Hres); [done|done|lia|done|].
        split; [done|]. exists b. split; [done|]. by rewrite Hr.
      * destruct (vips_buffer_unref_ref_failed_new s ok p b im r s')
          as (Hok & Hrel & Hb'); [done|done|lia|done|].
        split; [done|]. exists b. split; [done|]. by rewrite Hr.
    + rewrite vips_buffer_unref_ref_none in Hrun.
      by apply (vips_buffer_ref_failed s ok im r s').
  - intros p. by apply buffer_move_failed.
Qed.


(** ** Pixel memory: who owns which block *)

Lemma block_of_Some s p k :
  block_of s p = Some k ↔ ∃ b, heap s !! p = Some b ∧ b_buf b = Some k.
Proof.
  unfold block_of. destruct (heap s !! p) as [b|]; simpl.
  - split; [by eauto|]. by intros (b' & [= <-] & ?).
  - split; [done|]. by intros (b' & [=] & ?).
Qed.

Lemma block_of_lookup s p b : heap s !! p = Some b → block_of s p = b_buf b.
Proof. unfold block_of. by intros ->. Qed.

Lemma block_of_frame s s' q :
  heap s' !! q = heap s !! q → block_of s' q = block_of s q.
Proof. unfold block_of. by intros ->. Qed.

Lemma blocks_init : blocks_inv init.
Proof.
  split.
  - intros p k. unfold block_of, init. simpl. by rewrite lookup_empty.
  - intros k. unfold init. simpl. by intros ?%elem_of_empty.
  - intros p q k. unfold block_of, init. simpl. by rewrite lookup_empty.
Qed.

(** A step that touches the buffer [p] only, and gives back its old block
    or takes a block that was not live, keeps the agreement. *)
Lemma blocks_change s s' p :
  blocks_inv s →
  (∀ q, q ≠ p → heap s' !! q = heap s !! q) →
  (∀ k, k ∈ tracked s' ↔
        (k ∈ tracked s ∧ block_of s p ≠ Some k) ∨ block_of s' p = Some k) →
  (∀ k, block_of s' p = Some k → block_of s p = Some k ∨ k ∉ tracked s) →
  blocks_inv s'.
Proof.
  intros [Hlive Hown Hun] Hframe Htr Hnew. split.
  - intros q k Hq. apply Htr. destruct (decide (q = p)) as [->|Hne]; [by right|].
    left. rewrite (block_of_frame s s' q) in Hq by auto. split; [by eapply Hlive|].
    intros Hp. apply Hne. by eapply Hun.
  - intros k [[Hk Hp]|Hp]%Htr; [|by eauto].
    destruct (Hown k Hk) as [q Hq]. exists q.
    rewrite (block_of_frame s s' q); [done|]. apply Hframe. by intros ->.
  - intros q1 q2 k H1 H2.
    destruct (decide (q1 = p)) as [->|Hne1], (decide (q2 = p)) as [->|Hne2];
      try done.
    + rewrite (block_of_frame s s' q2) in H2 by auto.
      destruct (Hnew k H1) as [Hold|Hfresh]; [by eapply Hun|].
      exfalso. apply Hfresh. by eapply Hlive.
    + rewrite (block_of_frame s s' q1) in H1 by auto.
      destruct (Hnew k H2) as [Hold|Hfresh]; [by eapply Hun|].
      exfalso. apply Hfresh. by eapply Hlive.
    + rewrite (block_of_frame s s' q1) in H1 by auto.
      rewrite (block_of_frame s s' q2) in H2 by auto. by eapply Hun.
Qed.

(** The buffer keeps its block. *)
Lemma blocks_keep s s' p :
  blocks_inv s →
  (∀ q, q ≠ p → heap s' !! q = heap s !! q) →
  block_of s' p = block_of s p → tracked s' = tracked s →
  blocks_inv s'.
Proof.
  intros Hb Hframe Hp Ht. apply (blocks_change s s' p); try done.
  - intros k. rewrite Ht, Hp. split.
    + intros Hk. destruct (decide (block_of s p = Some k)); [by right|by left].
    + intros [[? _]|Hk]; [done|]. by eapply (blocks_live _ Hb).
  - intros k. rewrite Hp. by left.
Qed.

(** The buffer gives its block back and has none afterwards. *)
Lemma blocks_drop s s' p :
  blocks_inv s →
  (∀ q, q ≠ p → heap s' !! q = heap s !! q) →
  block_of s' p = None →
  tracked s' = free_tracked (block_of s p) (tracked s) →
  blocks_inv s'.
Proof.
  intros Hb Hframe Hp Ht. apply (blocks_change s s' p); try done.
  - intros k. rewrite Ht, Hp. unfold free_tracked.
    destruct (block_of s p) as [k0|].
    + rewrite elem_of_difference, elem_of_singleton. split.
      * intros [? ?]. left. split; [done|congruence].
      * intros [[? ?]|?]; [|done]. split; [done|congruence].
    + split; [by left|]. by intros [[? _]|?].
  - intros k. by rewrite Hp.
Qed.

(** The buffer gives its block back and takes one that is not live. *)
Lemma blocks_fresh s s' p k :
  blocks_inv s →
  (∀ q, q ≠ p → heap s' !! q = heap s !! q) →
  block_of s' p = Some k →
  k ∉ free_tracked (block_of s p) (tracked s) →
  tracked s' = {[k]} ∪ free_tracked (block_of s p) (tracked s) →
  blocks_inv s'.
Proof.
  intros Hb Hframe Hp Hk Ht. apply (blocks_change s s' p); try done.
  - intros k'. rewrite Ht, Hp, elem_of_union, elem_of_singleton.
    unfold free_tracked in *. destruct (block_of s p) as [k0|].
    + rewrite elem_of_difference, elem_of_singleton. split.
      * intros [->|[? ?]]; [by right|]. left. split; [done|congruence].
      * intros [[? ?]|[= ->]]; [|by left]. right. split; [done|congruence].
    + split.
      * intros [->|?]; [by right|by left].
      * intros [[? _]|[= ->]]; [by right|by left].
  - intros k'. rewrite Hp. intros [= <-]. unfold free_tracked in Hk.
    destruct (block_of s p) as [k0|]; [|by right].
    rewrite elem_of_difference, elem_of_singleton in Hk.
    destruct (decide (k = k0)) as [->|Hne]; [by left|].
    right. intros Hin. apply Hk. done.
Qed.

Lemma blocks_ext s s' :
  heap s' = heap s → tracked s' = tracked s → blocks_inv s → blocks_inv s'.
Proof.
  intros Hh Ht [H1 H2 H3]. unfold block_of in *.
  split; unfold block_of; rewrite ?Hh, ?Ht; done.
Qed.

(** The states that the calls leave behind. *)
Lemma blocks_upd s p b b' :
  blocks_inv s → heap s !! p = Some b → b_buf b' = b_buf b →
  blocks_inv (upd p b' s).
Proof.
  intros Hb Hp Hbuf. apply (blocks_keep s _ p); try done.
  - intros q Hq. by apply heap_upd_ne.
  - by rewrite (block_of_lookup _ _ b'), (block_of_lookup _ _ b)
      by (done || apply heap_upd_eq).
Qed.

Lemma blocks_done_st s p b :
  blocks_inv s → heap s !! p = Some b → blocks_inv (done_st p b s).
Proof.
  intros Hb Hp. apply (blocks_keep s _ p); try done.
  - intros q Hq. simpl. by rewrite lookup_insert_ne.
  - rewrite (block_of_lookup _ _ (published b)) by apply lookup_insert_eq.
    by rewrite (block_of_lookup _ _ b).
Qed.

Lemma blocks_undone_st s p b :
  blocks_inv s → heap s !! p = Some b → blocks_inv (undone_st p b s).
Proof.
  intros Hb Hp. apply (blocks_keep s _ p); try done.
  - intros q Hq. simpl. by rewrite lookup_insert_ne.
  - rewrite (block_of_lookup _ _ (unpublished b)) by apply lookup_insert_eq.
    by rewrite (block_of_lookup _ _ b).
Qed.

Lemma blocks_free_st s p b :
  blocks_inv s → heap s !! p = Some b → blocks_inv (free_st p b s).
Proof.
  intros Hb Hp. apply (blocks_drop s _ p); try done.
  - intros q Hq. simpl. by rewrite lookup_delete_ne.
  - unfold block_of. simpl. by rewrite lookup_delete_eq.
  - simpl. by rewrite (block_of_lookup _ _ b).
Qed.

Lemma blocks_unref_st s p b :
  blocks_inv s → heap s !! p = Some b → blocks_inv (unref_st p b s).
Proof.
  intros Hb Hp. unfold unref_st.
  destruct (c_n_reserve (undone_cache p b s) <? buffer_cache_max_reserve).
  - apply (blocks_keep s _ p); try done.
    + intros q Hq. simpl. by rewrite lookup_insert_ne.
    + rewrite (block_of_lookup _ _ (parked b)) by apply lookup_insert_eq.
      by rewrite (block_of_lookup _ _ b).
  - apply (blocks_drop s _ p); try done.
    + intros q Hq. simpl. by rewrite lookup_delete_ne.
    + unfold block_of. simpl. by rewrite lookup_delete_eq.
    + simpl. by rewrite (block_of_lookup _ _ b).
Qed.

Lemma blocks_move_st s ok area n p b :
  blocks_inv s → heap s !! p = Some b → blocks_inv (move_st ok area n p b s).
Proof.
  intros Hb Hp.
  assert (∀ q, q ≠ p → heap (move_st ok area n p b s) !! q = heap s !! q) as Hframe.
  { intros q Hq. simpl. by rewrite lookup_insert_ne. }
  assert (block_of (move_st ok area n p b s) p =
          b_buf (moved ok area n (tracked s) b)) as Hnew.
  { apply block_of_lookup, lookup_insert_eq. }
  pose proof (block_of_lookup _ _ _ Hp) as Hold.
  assert (tracked (move_st ok area n p b s) = move_tracked ok n b (tracked s))
    as Htr by done.
  unfold moved in Hnew. unfold move_tracked in Htr.
  destruct (need_alloc b n).
  - destruct ok.
    + apply (blocks_fresh s _ p (fresh (free_tracked (b_buf b) (tracked s))));
        rewrite ?Hold; try done. apply is_fresh.
    + apply (blocks_drop s _ p); rewrite ?Hold; done.
  - apply (blocks_keep s _ p); try done. by rewrite Hnew, Hold.
Qed.

Lemma blocks_new_st s im :
  blocks_inv s → blocks_inv (new_st im s).
Proof.
  intros Hb. apply (blocks_keep s _ (new_target s)); try done.
  - intros q Hq. simpl. by rewrite lookup_insert_ne.
  - rewrite (block_of_lookup _ _ (new_buffer im s)) by apply lookup_insert_eq.
    unfold new_buffer, block_of. by destruct (heap s !! new_target s).
Qed.


(** ** Pixel memory: capacity *)

Lemma size_t_nonneg n : 0 ≤ size_t n.
Proof. unfold size_t. apply Z.mod_pos_bound. lia. Qed.

Lemma new_bsize_nonneg i area : 0 ≤ new_bsize i area.
Proof. apply size_t_nonneg. Qed.

(** An area without extent needs no bytes. *)
Lemma new_bsize_zero_size i area : new_bsize i (zero_size area) = 0.
Proof.
  unfold new_bsize, zero_size, size_t. simpl.
  by rewrite Z.mul_0_r.
Qed.

Lemma capacity_init : capacity_inv init.
Proof. intros p b. unfold init. simpl. by rewrite lookup_empty. Qed.

Lemma capacity_change s s' p :
  (∀ q b, q ≠ p → heap s !! q = Some b → cap_ok b) →
  (∀ q, q ≠ p → heap s' !! q = heap s !! q) →
  (∀ b', heap s' !! p = Some b' → cap_ok b') →
  capacity_inv s'.
Proof.
  intros Hc Hframe Hp q b Hq. destruct (decide (q = p)) as [->|Hne]; [by apply Hp|].
  rewrite Hframe in Hq by done. by eapply Hc.
Qed.

Lemma capacity_ext s s' : heap s' = heap s → capacity_inv s → capacity_inv s'.
Proof. intros Hh Hc p b. rewrite Hh. apply Hc. Qed.

(** What [cap_ok] looks at. *)
Lemma cap_ok_same b b' :
  b_bsize b' = b_bsize b → b_buf b' = b_buf b → b_im b' = b_im b →
  b_area b' = b_area b → (0 < b_ref_count b' → 0 < b_ref_count b) →
  cap_ok b → cap_ok b'.
Proof.
  intros Hs Hb Hi Ha Hr [H0 Hcap]. split; [by rewrite Hs|].
  rewrite Hs, Hb, Hi, Ha. intros Hr'. by apply Hcap, Hr.
Qed.

Lemma cap_ok_unpublished b : cap_ok b → cap_ok (unpublished b).
Proof.
  intros [H0 Hcap]. split; [done|]. simpl. intros Hr i Hi.
  destruct (Hcap Hr i Hi) as [Hbuf _]. split; [done|].
  by rewrite new_bsize_zero_size.
Qed.

Lemma cap_ok_parked b : 0 ≤ b_bsize b → cap_ok (parked b).
Proof. intros H0. split; [done|]. simpl. lia. Qed.

Lemma moved_bsize_nonneg ok area n t b :
  0 ≤ n → 0 ≤ b_bsize b → 0 ≤ b_bsize (moved ok area n t b).
Proof. intros Hn H0. unfold moved. by destruct (need_alloc b n). Qed.

(** After a move that returns 0 the buffer has the bytes of its area. *)
Lemma cap_ok_moved ok area i t b :
  b_im b = Some i → 0 ≤ b_bsize b →
  move_ret ok (new_bsize i area) b = 0 →
  cap_ok (moved ok area (new_bsize i area) t b).
Proof.
  intros Hi H0 Hret. split.
  { apply moved_bsize_nonneg; [apply new_bsize_nonneg|done]. }
  rewrite moved_im, moved_area, Hi. intros _ i' [= <-].
  unfold move_ret, moved, need_alloc in *.
  destruct (b_bsize b <? new_bsize i area) eqn:Hlt; simpl in *.
  - destruct ok; [|done]. simpl. split; [by eexists|lia].
  - destruct (bool_decide (is_Some (b_buf b))) eqn:Hbuf; simpl in *.
    + apply bool_decide_eq_true in Hbuf. split; [done|lia].
    + destruct ok; [|done]. simpl. split; [by eexists|lia].
Qed.

Lemma capacity_upd s p b b' :
  capacity_inv s → heap s !! p = Some b → cap_ok b' →
  capacity_inv (upd p b' s).
Proof.
  intros Hc Hp Hb'. apply (capacity_change s _ p).
  - intros q bq _. apply Hc.
  - intros q Hq. by apply heap_upd_ne.
  - intros b0. rewrite heap_upd_eq. by intros [= <-].
Qed.

Lemma capacity_done_st s p b :
  capacity_inv s → heap s !! p = Some b → capacity_inv (done_st p b s).
Proof.
  intros Hc Hp. apply (capacity_change s _ p).
  - intros q bq _. apply Hc.
  - intros q Hq. simpl. by rewrite lookup_insert_ne.
  - intros b0. simpl. rewrite lookup_insert_eq. intros [= <-].
    by apply (cap_ok_same b), (Hc p).
Qed.

Lemma capacity_undone_st s p b :
  capacity_inv s → heap s !! p = Some b → capacity_inv (undone_st p b s).
Proof.
  intros Hc Hp. apply (capacity_change s _ p).
  - intros q bq _. apply Hc.
  - intros q Hq. simpl. by rewrite lookup_insert_ne.
  - intros b0. simpl. rewrite lookup_insert_eq. intros [= <-].
    by apply cap_ok_unpublished, (Hc p).
Qed.

(** Dropping the last reference asks nothing of the buffer's memory. *)
Lemma capacity_unref_st s p b :
  (∀ q bq, q ≠ p → heap s !! q = Some bq → cap_ok bq) →
  0 ≤ b_bsize b → capacity_inv (unref_st p b s).
Proof.
  intros Hc H0. unfold unref_st.
  destruct (c_n_reserve (undone_cache p b s) <? buffer_cache_max_reserve);
    apply (capacity_change s _ p); try done.
  - intros q Hq. simpl. by rewrite lookup_insert_ne.
  - intros b0. simpl. rewrite lookup_insert_eq. intros [= <-]. by apply cap_ok_parked.
  - intros q Hq. simpl. by rewrite lookup_delete_ne.
  - intros b0. simpl. by rewrite lookup_delete_eq.
Qed.

Lemma capacity_free_st s p b : capacity_inv s → capacity_inv (free_st p b s).
Proof.
  intros Hc. apply (capacity_change s _ p).
  - intros q bq _. apply Hc.
  - intros q Hq. simpl. by rewrite lookup_delete_ne.
  - intros b0. simpl. by rewrite lookup_delete_eq.
Qed.

(** ** Pixel memory: the calls keep the agreement and the capacity *)

Lemma mem_got_cache s : mem_inv s → mem_inv (got_cache s).
Proof. intros [Hb Hc]. split; [by apply (blocks_ext s)|by apply (capacity_ext s)]. Qed.

Lemma vips_buffer_unref_mem s p s' :
  wf s → mem_inv s → vips_buffer_unref p s = Ret tt s' → mem_inv s'.
Proof.
  intros Hwf [Hb Hc] Hrun. destruct (heap s !! p) as [b|] eqn:Hp;
    [|by unfold vips_buffer_unref, bind, deref in Hrun; rewrite Hp in Hrun].
  destruct (decide (b_ref_count b ≤ 0)) as [Hle|Hgt];
    [by rewrite (vips_buffer_unref_rejected _ _ _ Hp Hle) in Hrun|].
  destruct (decide (b_ref_count b = 1)) as [H1|Hne].
  - rewrite (vips_buffer_unref_last _ _ _ Hp H1) in Hrun by (by apply wf_undone_pre).
    injection Hrun as <-. split; [by apply blocks_unref_st|].
    apply capacity_unref_st; [|by apply (Hc p b)].
    intros q bq _. apply Hc.
  - rewrite (vips_buffer_unref_shared _ _ _ Hp) in Hrun by lia.
    injection Hrun as <-. split; [by apply (blocks_upd _ _ b)|].
    apply (capacity_upd _ _ b); try done.
    apply (cap_ok_same b); try done; [simpl; lia|by apply (Hc p)].
Qed.

Lemma buffer_find_mem im r s o s' :
  wf s → mem_inv s → buffer_find im r s = Ret o s' → mem_inv s'.
Proof.
  intros Hwf Hm Hrun.
  destruct (buffer_find_cases im r s Hwf)
    as [[_ Heq]|(l1 & p & l2 & b & Hl & _ & Hp & _ & Heq)];
    rewrite Heq in Hrun; injection Hrun as <- <-.
  - by apply mem_got_cache.
  - destruct (mem_got_cache _ Hm) as [Hb Hc].
    assert (p ∈ buffers_of (cache_of s) (Some im)) as Hin.
    { rewrite Hl. apply elem_of_app. right. apply list_elem_of_here. }
    destruct (wf_listed_here _ _ _ _ Hwf Hp Hin) as (_ & _ & _ & Hr).
    split; [by apply (blocks_upd _ _ b)|].
    apply (capacity_upd _ _ b); try done.
    apply (cap_ok_same b); try done. by apply (Hc p).
Qed.

Lemma new_buffer_bsize_nonneg im s : capacity_inv s → 0 ≤ b_bsize (new_buffer im s).
Proof.
  intros Hc. unfold new_buffer. simpl.
  destruct (heap s !! new_target s) as [b|] eqn:Hp; simpl; [|done].
  by apply (Hc _ _ Hp).
Qed.

Lemma vips_buffer_new_mem s ok im r o s' :
  wf s → mem_inv s → vips_buffer_new ok im r s = Ret o s' → mem_inv s'.
Proof.
  intros Hwf [Hb Hc] Hrun.
  assert (blocks_inv (new_moved_st ok im r s)) as Hbm.
  { apply blocks_move_st; [by apply blocks_new_st|apply heap_new_st]. }
  assert (∀ q, q ≠ new_target s →
            heap (new_moved_st ok im r s) !! q = heap s !! q) as Hframe.
  { intros q Hq. simpl. by rewrite !lookup_insert_ne. }
  destruct (vips_buffer_new_result s ok im r Hwf) as [[Hret Heq]|[_ Heq]];
    rewrite Heq in Hrun; injection Hrun as <- <-.
  - split; [done|]. apply (capacity_change s _ (new_target s)); try done.
    + intros q bq _. apply Hc.
    + intros b0. simpl. rewrite lookup_insert_eq. intros [= <-].
      apply cap_ok_moved; [done|by apply new_buffer_bsize_nonneg|done].
  - split; [apply blocks_free_st; [done|apply lookup_insert_eq]|].
    apply (capacity_change s _ (new_target s)).
    + intros q bq _. apply Hc.
    + intros q Hq. simpl. by rewrite lookup_delete_ne, !lookup_insert_ne.
    + intros b0. simpl. by rewrite lookup_delete_eq.
Qed.

Lemma vips_buffer_ref_mem ok im r s o s' :
  wf s → mem_inv s → vips_buffer_ref ok im r s = Ret o s' → mem_inv s'.
Proof.
  intros Hwf Hm Hrun. unfold vips_buffer_ref in Hrun.
  apply bind_inv in Hrun as (o1 & s1 & Hfind & Hrun).
  pose proof (buffer_find_wf _ _ _ _ _ Hwf Hfind) as Hwf1.
  pose proof (buffer_find_mem _ _ _ _ _ Hwf Hm Hfind) as Hm1.
  destruct o1 as [p|].
  - by injection Hrun as <- <-.
  - by apply (vips_buffer_new_mem s1 ok im r o s').
Qed.

(** A move followed, when it fails, by the release of the buffer. *)
Lemma buffer_move_unref_mem ok p r s rr m :
  wf s → mem_inv s → buffer_move ok p r s = Ret rr m →
  blocks_inv m ∧
  (rr = 0 → capacity_inv m) ∧
  (∀ s', rr ≠ 0 → vips_buffer_unref p m = Ret tt s' → capacity_inv s').
Proof.
  intros Hwf [Hb Hc] Hrun.
  destruct (heap s !! p) as [b|] eqn:Hp;
    [|by unfold buffer_move, bind, deref in Hrun; rewrite Hp in Hrun].
  destruct (decide (b_ref_count b = 1)) as [Hr|Hr];
    [|by rewrite (buffer_move_shared _ _ _ _ _ Hp Hr) in Hrun].
  destruct (ok_ref _ _ _ (wf_buffer _ Hwf _ _ Hp)) as [i Hi]; [lia|].
  rewrite (buffer_move_eq _ _ _ _ i _ Hp Hr Hi) in Hrun by (by apply wf_undone_pre).
  injection Hrun as <- <-.
  set (n := new_bsize i r). set (mb := moved ok r n (tracked s) b).
  assert (∀ q, q ≠ p → heap (move_st ok r n p b s) !! q = heap s !! q) as Hframe.
  { intros q Hq. simpl. by rewrite lookup_insert_ne. }
  pose proof (Hc _ _ Hp) as [H0 _].
  split; [by apply blocks_move_st|]. split.
  - intros Hret. apply (capacity_change s _ p); try done.
    + intros q bq _. apply Hc.
    + intros b0. simpl. rewrite lookup_insert_eq. intros [= <-].
      by apply cap_ok_moved.
  - intros s' Hret Hrun.
    assert (wf (move_st ok r n p b s)) as Hwfm by (apply wf_move_st; [done..|lia]).
    assert (heap (move_st ok r n p b s) !! p = Some mb) as Hpm by apply lookup_insert_eq.
    rewrite (vips_buffer_unref_last _ _ mb) in Hrun;
      [|done|unfold mb; by rewrite moved_ref_count|by apply wf_undone_pre].
    injection Hrun as <-. apply capacity_unref_st.
    + intros q bq Hq. rewrite Hframe by done. apply Hc.
    + apply moved_bsize_nonneg; [apply new_bsize_nonneg|done].
Qed.

Lemma vips_buffer_unref_ref_mem ok old im r s o s' :
  wf s → mem_inv s → vips_buffer_unref_ref ok old im r s = Ret o s' → mem_inv s'.
Proof.
  intros Hwf Hm Hrun. destruct old as [p|].
  - destruct (heap s !! p) as [b|] eqn:Hp;
      [|by unfold vips_buffer_unref_ref, bind, deref in Hrun; rewrite Hp in Hrun].
    destruct (decide (b_im b = Some im)) as [Hi|Hi];
      [|by rewrite (vips_buffer_unref_ref_other _ _ _ _ _ _ Hp Hi) in Hrun].
    rewrite (vips_buffer_unref_ref_some _ _ _ _ _ _ Hp Hi) in Hrun.
    destruct (encloses b r); [by injection Hrun as <- <-|].
    apply bind_inv in Hrun as (o1 & s1 & Hfind & Hrun).
    pose proof (buffer_find_wf _ _ _ _ _ Hwf Hfind) as Hwf1.
    pose proof (buffer_find_mem _ _ _ _ _ Hwf Hm Hfind) as Hm1.
    destruct o1 as [q|].
    + apply bind_inv in Hrun as ([] & s2 & Hunref & Hrun).
      apply ret_inv in Hrun as [_ ->]. by apply (vips_buffer_unref_mem s1 p).
    + apply bind_inv in Hrun as (b1 & s2 & [-> Hp1]%deref_inv & Hrun).
      destruct (b_ref_count b1 =? 1).
      * apply bind_inv in Hrun as (rr & s2 & Hmove & Hrun).
        pose proof (buffer_move_wf _ _ _ _ _ _ Hwf1 Hmove) as Hwf2.
        destruct (buffer_move_unref_mem _ _ _ _ _ _ Hwf1 Hm1 Hmove)
          as (Hb2 & Hok & Hfail).
        destruct (rr =? 0) eqn:Hrr.
        -- apply ret_inv in Hrun as [_ ->]. split; [done|apply Hok; lia].
        -- apply bind_inv in Hrun as ([] & s3 & Hunref & Hrun).
           apply ret_inv in Hrun as [_ ->]. split.
           ++ destruct (heap s2 !! p) as [b2|] eqn:Hp2;
                [|by unfold vips_buffer_unref, bind, deref in Hunref;
                  rewrite Hp2 in Hunref].
              destruct (decide (b_ref_count b2 ≤ 0)) as [Hle|Hgt];
                [by rewrite (vips_buffer_unref_rejected _ _ _ Hp2 Hle) in Hunref|].
              destruct (decide (b_ref_count b2 = 1)) as [H1|Hne].
              ** rewrite (vips_buffer_unref_last _ _ _ Hp2 H1) in Hunref
                   by (by apply wf_undone_pre).
                 injection Hunref as <-. by apply blocks_unref_st.
              ** rewrite (vips_buffer_unref_shared _ _ _ Hp2) in Hunref by lia.
                 injection Hunref as <-. by apply (blocks_upd _ _ b2).
           ++ apply Hfail; [lia|done].
      * apply bind_inv in Hrun as ([] & s2 & Hunref & Hrun).
        pose proof (vips_buffer_unref_wf _ _ _ Hwf1 Hunref) as Hwf2.
        pose proof (vips_buffer_unref_mem _ _ _ Hwf1 Hm1 Hunref) as Hm2.
        by apply (vips_buffer_new_mem s2 ok im r o s').
  - rewrite vips_buffer_unref_ref_none in Hrun.
    by apply (vips_buffer_ref_mem ok im r s o s').
Qed.

Lemma reachable_mem_inv s : reachable s → mem_inv s.
Proof.
  induction 1 as [|s ok im area o s' Hs IH Hrun|s ok im area o s' Hs IH Hrun
                  |s ok old im area o s' Hs IH Hrun|s p s' Hs IH Hrun
                  |s p s' Hs IH Hheld Hrun|s p s' Hs IH Hheld Hrun];
    try pose proof (reachable_wf _ Hs) as Hwf.
  - split; [apply blocks_init|apply capacity_init].
  - by apply (vips_buffer_new_mem s ok im area o s').
  - by apply (vips_buffer_ref_mem ok im area s o s').
  - by apply (vips_buffer_unref_ref_mem ok old im area s o s').
  - by apply (vips_buffer_unref_mem s p s').
  - destruct Hheld as (b & Hp & _). destruct IH as [Hb Hc].
    rewrite (vips_buffer_done_held _ _ _ Hwf Hp) in Hrun. injection Hrun as <-.
    destruct (b_done b); [done|].
    split; [by apply blocks_done_st|by apply capacity_done_st].
  - destruct Hheld as (b & Hp & _). destruct IH as [Hb Hc].
    rewrite (vips_buffer_undone_held _ _ _ Hwf Hp) in Hrun. injection Hrun as <-.
    split; [by apply blocks_undone_st|by apply capacity_undone_st].
Qed.

(** ** Rectangles that fit: the calls keep every area fitting *)

Lemma fit_init : areas_fit init.
Proof. intros p b. unfold init. simpl. by rewrite lookup_empty. Qed.

Lemma fit_ext s s' : heap s' = heap s → areas_fit s → areas_fit s'.
Proof. intros Hh Hf p b. rewrite Hh. apply Hf. Qed.

Lemma fit_insert s s' p b' :
  areas_fit s → heap s' = <[p := b']> (heap s) → rect_fits (b_area b') →
  areas_fit s'.
Proof.
  intros Hf Hh Hb q b. rewrite Hh. destruct (decide (q = p)) as [->|Hne].
  - rewrite lookup_insert_eq. by intros [= <-].
  - rewrite lookup_insert_ne by done. apply Hf.
Qed.

Lemma fit_delete s s' p :
  areas_fit s → heap s' = delete p (heap s) → areas_fit s'.
Proof.
  intros Hf Hh q b. rewrite Hh. destruct (decide (q = p)) as [->|Hne].
  - by rewrite lookup_delete_eq.
  - rewrite lookup_delete_ne by done. apply Hf.
Qed.

Lemma fit_unref_st s p b :
  areas_fit s → heap s !! p = Some b → areas_fit (unref_st p b s).
Proof.
  intros Hf Hp. unfold unref_st.
  destruct (c_n_reserve (undone_cache p b s) <? buffer_cache_max_reserve).
  - apply (fit_insert s _ p (parked b)); [done|done|].
    simpl. by apply rect_fits_zero_size, (Hf p).
  - by apply (fit_delete s _ p).
Qed.

Lemma fit_move_st s ok area n p b :
  areas_fit s → rect_fits area → areas_fit (move_st ok area n p b s).
Proof.
  intros Hf Ha. apply (fit_insert s _ p (moved ok area n (tracked s) b)); [done|done|].
  by rewrite moved_area.
Qed.

Lemma vips_buffer_unref_fit s p s' :
  wf s → areas_fit s → vips_buffer_unref p s = Ret tt s' → areas_fit s'.
Proof.
  intros Hwf Hf Hrun. destruct (heap s !! p) as [b|] eqn:Hp;
    [|by unfold vips_buffer_unref, bind, deref in Hrun; rewrite Hp in Hrun].
  destruct (decide (b_ref_count b ≤ 0)) as [Hle|Hgt];
    [by rewrite (vips_buffer_unref_rejected _ _ _ Hp Hle) in Hrun|].
  destruct (decide (b_ref_count b = 1)) as [H1|Hne].
  - rewrite (vips_buffer_unref_last _ _ _ Hp H1) in Hrun by (by apply wf_undone_pre).
    injection Hrun as <-. by apply fit_unref_st.
  - rewrite (vips_buffer_unref_shared _ _ _ Hp) in Hrun by lia.
    injection Hrun as <-.
    apply (fit_insert s _ p (set_ref_count (b_ref_count b - 1) b)); [done|done|].
    exact (Hf p b Hp).
Qed.

Lemma buffer_find_fit im r s o s' :
  wf s → areas_fit s → buffer_find im r s = Ret o s' → areas_fit s'.
Proof.
  intros Hwf Hf Hrun.
  destruct (buffer_find_cases im r s Hwf)
    as [[_ Heq]|(l1 & p & l2 & b & _ & _ & Hp & _ & Heq)];
    rewrite Heq in Hrun; injection Hrun as <- <-.
  - by apply (fit_ext s).
  - apply (fit_insert s _ p (set_ref_count (b_ref_count b + 1) b)); [done|done|].
    exact (Hf p b Hp).
Qed.

Lemma vips_buffer_new_fit s ok im r o s' :
  wf s → areas_fit s → rect_fits r → vips_buffer_new ok im r s = Ret o s' →
  areas_fit s'.
Proof.
  intros Hwf Hf Hr Hrun.
  assert (areas_fit (new_moved_st ok im r s)) as Hfm.
  { intros q b. unfold new_moved_st, move_st, new_st. simpl.
    destruct (decide (q = new_target s)) as [->|Hne].
    - rewrite lookup_insert_eq. intros [= <-]. by rewrite moved_area.
    - rewrite !lookup_insert_ne by done. apply Hf. }
  destruct (vips_buffer_new_result s ok im r Hwf) as [[_ Heq]|[_ Heq]];
    rewrite Heq in Hrun; injection Hrun as <- <-; [done|].
  by apply (fit_delete (new_moved_st ok im r s) _ (new_target s)).
Qed.

Lemma vips_buffer_ref_fit ok im r s o s' :
  wf s → areas_fit s → rect_fits r → vips_buffer_ref ok im r s = Ret o s' →
  areas_fit s'.
Proof.
  intros Hwf Hf Hr Hrun. unfold vips_buffer_ref in Hrun.
  apply bind_inv in Hrun as (o1 & s1 & Hfind & Hrun).
  pose proof (buffer_find_wf _ _ _ _ _ Hwf Hfind) as Hwf1.
  pose proof (buffer_find_fit _ _ _ _ _ Hwf Hf Hfind) as Hf1.
  destruct o1 as [p|].
  - by injection Hrun as <- <-.
  - by apply (vips_buffer_new_fit s1 ok im r o s').
Qed.

Lemma buffer_move_fit ok p r s rr m :
  wf s → areas_fit s → rect_fits r → buffer_move ok p r s = Ret rr m →
  areas_fit m.
Proof.
  intros Hwf Hf Hr Hrun.
  destruct (heap s !! p) as [b|] eqn:Hp;
    [|by unfold buffer_move, bind, deref in Hrun; rewrite Hp in Hrun].
  destruct (decide (b_ref_count b = 1)) as [H1|H1];
    [|by rewrite (buffer_move_shared _ _ _ _ _ Hp H1) in Hrun].
  destruct (ok_ref _ _ _ (wf_buffer _ Hwf _ _ Hp)) as [i Hi]; [lia|].
  rewrite (buffer_move_eq _ _ _ _ i _ Hp H1 Hi) in Hrun by (by apply wf_undone_pre).
  injection Hrun as <- <-. by apply fit_move_st.
Qed.

Lemma vips_buffer_unref_ref_fit ok old im r s o s' :
  wf s → areas_fit s → rect_fits r →
  vips_buffer_unref_ref ok old im r s = Ret o s' → areas_fit s'.
Proof.
  intros Hwf Hf Hr Hrun. destruct old as [p|].
  - destruct (heap s !! p) as [b|] eqn:Hp;
      [|by unfold vips_buffer_unref_ref, bind, deref in Hrun; rewrite Hp in Hrun].
    destruct (decide (b_im b = Some im)) as [Hi|Hi];
      [|by rewrite (vips_buffer_unref_ref_other _ _ _ _ _ _ Hp Hi) in Hrun].
    rewrite (vips_buffer_unref_ref_some _ _ _ _ _ _ Hp Hi) in Hrun.
    destruct (encloses b r); [by injection Hrun as <- <-|].
    apply bind_inv in Hrun as (o1 & s1 & Hfind & Hrun).
    pose proof (buffer_find_wf _ _ _ _ _ Hwf Hfind) as Hwf1.
    pose proof (buffer_find_fit _ _ _ _ _ Hwf Hf Hfind) as Hf1.
    destruct o1 as [q|].
    + apply bind_inv in Hrun as ([] & s2 & Hunref & Hrun).
      apply ret_inv in Hrun as [_ ->]. by apply (vips_buffer_unref_fit s1 p).
    + apply bind_inv in Hrun as (b1 & s2 & [-> Hp1]%deref_inv & Hrun).
      destruct (b_ref_count b1 =? 1).
      * apply bind_inv in Hrun as (rr & s2 & Hmove & Hrun).
        pose proof (buffer_move_wf _ _ _ _ _ _ Hwf1 Hmove) as Hwf2.
        pose proof (buffer_move_fit _ _ _ _ _ _ Hwf1 Hf1 Hr Hmove) as Hf2.
        destruct (rr =? 0).
        -- by apply ret_inv in Hrun as [_ ->].
        -- apply bind_inv in Hrun as ([] & s3 & Hunref & Hrun).
           apply ret_inv in Hrun as [_ ->]. by apply (vips_buffer_unref_fit s2 p).
      * apply bind_inv in Hrun as ([] & s2 & Hunref & Hrun).
        pose proof (vips_buffer_unref_wf _ _ _ Hwf1 Hunref) as Hwf2.
        pose proof (vips_buffer_unref_fit _ _ _ Hwf1 Hf1 Hunref) as Hf2.
        by apply (vips_buffer_new_fit s2 ok im r o s').
  - rewrite vips_buffer_unref_ref_none in Hrun.
    by apply (vips_buffer_ref_fit ok im r s o s').
Qed.

Lemma exec1_areas_fit c s s' :
  reachable s → areas_fit s → call_fits c → exec1 c s = Some s' → areas_fit s'.
Proof.
  intros Hs Hf Hc. pose proof (reachable_wf _ Hs) as Hwf.
  destruct c as [ok im area|ok im area|ok old im area|p|p|p]; simpl in *.
  - intros [o Hrun]%state_of_Some. by apply (vips_buffer_new_fit s ok im area o s').
  - intros [o Hrun]%state_of_Some. by apply (vips_buffer_ref_fit ok im area s o s').
  - intros [o Hrun]%state_of_Some.
    by apply (vips_buffer_unref_ref_fit ok old im area s o s').
  - intros [[] Hrun]%state_of_Some. by apply (vips_buffer_unref_fit s p s').
  - destruct (is_held s p) eqn:Hh; [|done].
    apply is_held_true in Hh as (b & Hp & _).
    intros [[] Hrun]%state_of_Some.
    rewrite (vips_buffer_done_held _ _ _ Hwf Hp) in Hrun. injection Hrun as <-.
    destruct (b_done b); [done|].
    apply (fit_insert s _ p (published b)); [done|done|]. exact (Hf p b Hp).
  - destruct (is_held s p) eqn:Hh; [|done].
    apply is_held_true in Hh as (b & Hp & _).
    intros [[] Hrun]%state_of_Some.
    rewrite (vips_buffer_undone_held _ _ _ Hwf Hp) in Hrun. injection Hrun as <-.
    apply (fit_insert s _ p (unpublished b)); [done|done|].
    simpl. by apply rect_fits_zero_size, (Hf p).
Qed.

(** When the rectangle of every call fits, the area of every buffer does. *)
Lemma exec_areas_fit cs s s' :
  reachable s → areas_fit s → Forall call_fits cs → exec cs s = Some s' →
  areas_fit s'.
Proof.
  revert s. induction cs as [|c cs IH]; intros s Hs Hf Hcs; simpl.
  - by intros [= <-].
  - apply Forall_cons in Hcs as [Hc Hcs].
    destruct (exec1 c s) as [s1|] eqn:Hrun; [|done].
    apply IH; [by apply (exec1_reachable c s)|by apply (exec1_areas_fit c s)|done].
Qed.


(** X1.  In every reachable state the tracked allocator and the buffers
    agree: the [buf] of every allocated buffer is a live block, every live
    block is the [buf] of an allocated buffer (nothing has leaked), and no
    two buffers have the same [buf]. *)
Theorem X1_pixel_memory_owned s :
  reachable s →
  (∀ p b k, heap s !! p = Some b → b_buf b = Some k → k ∈ tracked s) ∧
  (∀ k, k ∈ tracked s → ∃ p b, heap s !! p = Some b ∧ b_buf b = Some k) ∧
  (∀ p q b b' k, heap s !! p = Some b → heap s !! q = Some b' →
     b_buf b = Some k → b_buf b' = Some k → p = q).
Proof.
  intros Hs. destruct (reachable_mem_inv _ Hs) as [[Hlive Hown Hun] _].
  split_and!.
  - intros p b k Hp Hk. apply (Hlive p). apply block_of_Some. by eauto.
  - intros k Hk. destruct (Hown k Hk) as [p Hp].
    apply block_of_Some in Hp as (b & Hp & Hb). by eauto.
  - intros p q b b' k Hp Hq Hb Hb'. apply (Hun p q k); apply block_of_Some; eauto.
Qed.

(** X2.  In every reachable state a buffer that is referenced belongs to an
    image, has pixel memory, and its [bsize] is at least the bytes that
    [buffer_move] computes for its area: sizeof pel times width times height,
    in [size_t]. *)
Theorem X2_capacity_suffices s p b :
  reachable s → heap s !! p = Some b → 0 < b_ref_count b →
  ∃ i k, b_im b = Some i ∧ b_buf b = Some k ∧ k ∈ tracked s ∧
         size_t (sizeof_pel i * r_width (b_area b) * r_height (b_area b))
         ≤ b_bsize b.
Proof.
  intros Hs Hp Hr. pose proof (reachable_wf _ Hs) as Hwf.
  destruct (reachable_mem_inv _ Hs) as [Hb Hc].
  destruct (ok_ref _ _ _ (wf_buffer _ Hwf _ _ Hp) Hr) as [i Hi].
  destruct (Hc _ _ Hp) as [_ Hcap].
  destruct (Hcap Hr i Hi) as [[k Hk] Hsize].
  exists i, k. split_and!; try done.
  apply (blocks_live _ Hb p). apply block_of_Some. by eauto.
Qed.

(** ** What an acquire hands out *)

Lemma vips_buffer_unref_frame s p s' q :
  wf s → vips_buffer_unref p s = Ret tt s' → q ≠ p →
  heap s' !! q = heap s !! q.
Proof.
  intros Hwf Hrun Hq. destruct (heap s !! p) as [b|] eqn:Hp;
    [|by unfold vips_buffer_unref, bind, deref in Hrun; rewrite Hp in Hrun].
  destruct (decide (b_ref_count b ≤ 0)) as [Hle|Hgt];
    [by rewrite (vips_buffer_unref_rejected _ _ _ Hp Hle) in Hrun|].
  destruct (decide (b_ref_count b = 1)) as [H1|Hne].
  - rewrite (vips_buffer_unref_last _ _ _ Hp H1) in Hrun by (by apply wf_undone_pre).
    injection Hrun as <-. unfold unref_st.
    destruct (c_n_reserve (undone_cache p b s) <? buffer_cache_max_reserve); simpl.
    + by rewrite lookup_insert_ne.
    + by rewrite lookup_delete_ne.
  - rewrite (vips_buffer_unref_shared _ _ _ Hp) in Hrun by lia.
    injection Hrun as <-. by apply heap_upd_ne.
Qed.

(** A buffer from [vips_buffer_new] was not held by anybody, and comes with
    one reference, unpublished, for the image and the area asked for. *)
Lemma vips_buffer_new_success s ok im r p s' :
  wf s → vips_buffer_new ok im r s = Ret (Some p) s' →
  p = new_target s ∧ ¬ held s p ∧ s' = new_moved_st ok im r s ∧
  ∃ b', heap s' !! p = Some b' ∧ b_ref_count b' = 1 ∧ b_im b' = Some im ∧
        b_done b' = false ∧ b_area b' = r.
Proof.
  intros Hwf Hrun.
  destruct (vips_buffer_new_result s ok im r Hwf) as [[_ Heq]|[_ Heq]];
    rewrite Heq in Hrun; [|done].
  injection Hrun as <- <-. split; [done|]. split.
  - intros (b & Hp & Hr). by apply (new_target_not_held s _ b Hwf Hp Hr).
  - split; [done|]. eexists. split; [apply lookup_insert_eq|].
    by rewrite moved_ref_count, moved_im, moved_done, moved_area.
Qed.

(** The two ways in which [vips_buffer_ref] hands out a buffer. *)
Lemma vips_buffer_ref_success s ok im r p s' :
  wf s → vips_buffer_ref ok im r s = Ret (Some p) s' →
  (∃ b, heap s !! p = Some b ∧ 0 < b_ref_count b ∧ b_done b = true ∧
        b_im b = Some im ∧ finds b r = true ∧
        s' = upd p (set_ref_count (b_ref_count b + 1) b) (got_cache s)) ∨
  (p = new_target s ∧ ¬ held s p ∧ s' = new_moved_st ok im r (got_cache s) ∧
   ∃ b', heap s' !! p = Some b' ∧ b_ref_count b' = 1 ∧ b_im b' = Some im ∧
         b_done b' = false ∧ b_area b' = r).
Proof.
  intros Hwf Hrun.
  destruct (vips_buffer_ref_cases s ok im r Hwf)
    as [[_ Heq]|(l1 & q & l2 & b & Hl & _ & Hq & He & Heq)];
    rewrite Heq in Hrun.
  - right. apply vips_buffer_new_success in Hrun; [|by apply wf_got_cache].
    destruct Hrun as (-> & Hnh & -> & Hb'). split_and!; try done.
  - injection Hrun as <- <-. left. exists b.
    assert (q ∈ buffers_of (cache_of s) (Some im)) as Hin.
    { rewrite Hl. apply elem_of_app. right. apply list_elem_of_here. }
    destruct (wf_listed_here _ _ _ _ Hwf Hq Hin) as (Hd & Hi & _ & Hr).
    done.
Qed.

(** X4.  [vips_buffer_ref] shares a buffer only if it is published: when the
    buffer it returns was already referenced, that buffer was published for
    the image, with an area that encloses the request when the rectangle and
    the areas of the buffers fit, and all that changes is its reference
    count; otherwise the buffer returned was held by nobody and comes with
    exactly one reference, unpublished. *)
Theorem X4_acquire_shares_published_only s ok im r p s' :
  reachable s → vips_buffer_ref ok im r s = Ret (Some p) s' →
  (held s p →
   ∃ b, heap s !! p = Some b ∧ b_done b = true ∧ b_im b = Some im ∧
        (areas_fit s → rect_fits r →
         vips_rect_includesrect (b_area b) r = true) ∧
        heap s' = <[p := set_ref_count (b_ref_count b + 1) b]> (heap s)) ∧
  (¬ held s p →
   ∃ b', heap s' !! p = Some b' ∧ b_ref_count b' = 1 ∧ b_done b' = false).
Proof.
  intros Hs Hrun. pose proof (reachable_wf _ Hs) as Hwf.
  destruct (vips_buffer_ref_success s ok im r p s' Hwf Hrun)
    as [(b & Hp & Hr & Hd & Hi & He & ->)|(-> & Hnh & -> & b' & Hb' & Hr' & _ & Hd' & _)].
  - split; [|intros Hnh; exfalso; apply Hnh; by exists b].
    intros _. exists b. split_and!; try done.
    intros Hf Hfr. by rewrite (finds_encloses_in s p b r Hf Hfr Hp) in He.
  - split; [done|]. by eauto.
Qed.

(** X10.  [vips_buffer_ref] touches the buffer it returns and no other: every
    other buffer is as it was, and so is every list of published buffers. *)
Theorem X10_acquire_frame s ok im r p s' :
  reachable s → vips_buffer_ref ok im r s = Ret (Some p) s' →
  (∀ q, q ≠ p → heap s' !! q = heap s !! q) ∧
  (∀ k, buffers_of (cache_of s') k = buffers_of (cache_of s) k).
Proof.
  intros Hs Hrun. pose proof (reachable_wf _ Hs) as Hwf.
  destruct (vips_buffer_ref_success s ok im r p s' Hwf Hrun)
    as [(b & Hp & Hr & Hd & Hi & He & ->)|(-> & Hnh & -> & _)].
  - split; [|done]. intros q Hq. simpl. by rewrite lookup_insert_ne.
  - split.
    + intros q Hq. simpl. by rewrite !lookup_insert_ne.
    + intros k. unfold new_moved_st. rewrite cache_of_move_st.
      unfold undone_cache. simpl. unfold buffers_of.
      change (cache_of (new_st im (got_cache s))) with (new_cache (got_cache s)).
      unfold new_cache. change (cache_of (got_cache s)) with (cache_of s).
      by destruct (c_reserve (cache_of s)).
Qed.


Lemma wf_held_of_im s p b i :
  wf s → heap s !! p = Some b → b_im b = Some i → 0 < b_ref_count b.
Proof.
  intros Hwf Hp Hi. destruct (wf_buffer _ Hwf _ _ Hp) as [H1 _ _ H4 _].
  destruct (decide (b_ref_count b = 0)) as [H0|H0]; [|lia].
  destruct (H4 H0) as (_ & Hnone & _). congruence.
Qed.

Lemma vips_buffer_ref_encloses s ok im r p s' :
  wf s → vips_buffer_ref ok im r s = Ret (Some p) s' →
  ∃ b, heap s' !! p = Some b ∧ b_im b = Some im ∧ 0 < b_ref_count b ∧
       (areas_fit s → rect_fits r →
        vips_rect_includesrect (b_area b) r = true).
Proof.
  intros Hwf Hrun.
  destruct (vips_buffer_ref_success s ok im r p s' Hwf Hrun)
    as [(b & Hp & Hr & Hd & Hi & He & ->)|(_ & _ & _ & b' & Hb' & Hr' & Hi' & _ & Ha')].
  - eexists. split; [apply heap_upd_eq|]. simpl. split_and!; try done; [lia|].
    intros Hf Hfr. by rewrite (finds_encloses_in s p b r Hf Hfr Hp) in He.
  - exists b'. split_and!; try done; [lia|]. intros _ _.
    rewrite Ha'. apply vips_rect_includesrect_refl.
Qed.

Lemma vips_buffer_new_encloses s ok im r p s' :
  wf s → vips_buffer_new ok im r s = Ret (Some p) s' →
  ∃ b, heap s' !! p = Some b ∧ b_im b = Some im ∧ 0 < b_ref_count b ∧
       vips_rect_includesrect (b_area b) r = true.
Proof.
  intros Hwf Hrun.
  destruct (vips_buffer_new_success s ok im r p s' Hwf Hrun)
    as (_ & _ & _ & b' & Hb' & Hr' & Hi' & _ & Ha').
  exists b'. split_and!; try done; [lia|].
  rewrite Ha'. apply vips_rect_includesrect_refl.
Qed.

(** X3.  Every buffer that [vips_buffer_unref_ref] returns, be it the old
    buffer as it was, a published buffer found, the old buffer moved or a new
    one, is allocated, belongs to the image and is referenced; and when the
    requested rectangle and the areas of the buffers fit, it has an area that
    encloses the requested one. *)
Theorem X3_swap_encloses s ok old im r p s' :
  reachable s → vips_buffer_unref_ref ok old im r s = Ret (Some p) s' →
  ∃ b, heap s' !! p = Some b ∧ b_im b = Some im ∧ 0 < b_ref_count b ∧
       (areas_fit s → rect_fits r →
        vips_rect_includesrect (b_area b) r = true).
Proof.
  intros Hs Hrun. pose proof (reachable_wf _ Hs) as Hwf.
  destruct old as [o|];
    [|rewrite vips_buffer_unref_ref_none in Hrun;
      by apply (vips_buffer_ref_encloses s ok im r p s')].
  destruct (heap s !! o) as [b|] eqn:Hp;
    [|by unfold vips_buffer_unref_ref, bind, deref in Hrun; rewrite Hp in Hrun].
  destruct (decide (b_im b = Some im)) as [Hi|Hi];
    [|by rewrite (vips_buffer_unref_ref_other _ _ _ _ _ _ Hp Hi) in Hrun].
  rewrite (vips_buffer_unref_ref_some _ _ _ _ _ _ Hp Hi) in Hrun.
  destruct (encloses b r) eqn:He.
  { injection Hrun as <- <-. exists b. split_and!; try done.
    by apply (wf_held_of_im s o b im). }
  pose proof (wf_got_cache _ Hwf) as Hwf0.
  assert (heap (got_cache s) !! o = Some b) as Hp0 by done.
  destruct (buffer_find_cases im r s Hwf)
    as [[_ Heq]|(l1 & q & l2 & bq & Hl & _ & Hq & Heq' & Heq)];
    rewrite (bind_Ret _ _ _ _ _ Heq) in Hrun.
  - rewrite (bind_Ret _ _ _ _ _ (deref_eq _ _ _ Hp0)) in Hrun.
    destruct (b_ref_count b =? 1) eqn:Hr.
    + rewrite (bind_Ret _ _ _ _ _
        (buffer_move_eq _ ok _ _ im r Hp0 ltac:(lia) Hi
           (wf_undone_pre _ _ _ Hwf0 Hp0))) in Hrun.
      destruct (move_ret ok (new_bsize im r) b =? 0).
      * injection Hrun as <- <-. eexists. split; [apply lookup_insert_eq|].
        rewrite moved_im, moved_ref_count, moved_area.
        split_and!; [done|lia|intros _ _; apply vips_rect_includesrect_refl].
      * apply bind_inv in Hrun as (u & s2 & _ & Hrun). by apply ret_inv in Hrun as [? _].
    + apply bind_inv in Hrun as ([] & s2 & Hunref & Hrun).
      apply vips_buffer_unref_wf in Hunref; [|done].
      destruct (vips_buffer_new_encloses s2 ok im r p s' Hunref Hrun)
        as (b' & Hb' & Hi' & Hr' & He').
      exists b'. by split_and!.
  - apply bind_inv in Hrun as ([] & s2 & Hunref & Hrun).
    apply ret_inv in Hrun as [[= <-] ->].
    assert (p ∈ buffers_of (cache_of s) (Some im)) as Hin.
    { rewrite Hl. apply elem_of_app. right. apply list_elem_of_here. }
    destruct (wf_listed_here _ _ _ _ Hwf Hq Hin) as (_ & Hiq & _ & Hrq).
    assert (wf (upd p (set_ref_count (b_ref_count bq + 1) bq) (got_cache s))) as Hwf1.
    { apply (wf_upd_held (got_cache s) _ p bq (set_ref_count (b_ref_count bq + 1) bq));
        try done. simpl. lia. }
    destruct (decide (p = o)) as [->|Hne].
    { rewrite (vips_buffer_unref_shared _ _ (set_ref_count (b_ref_count bq + 1) bq))
        in Hunref; [|apply heap_upd_eq|simpl; lia].
      injection Hunref as <-.
      eexists. split; [apply heap_upd_eq|]. simpl. split_and!; try done; [lia|].
      intros Hf Hfr. rewrite (finds_encloses_in s o bq r Hf Hfr Hq) in Heq'.
      rewrite Hp in Hq. injection Hq as <-. congruence. }
    rewrite (vips_buffer_unref_frame _ _ _ p Hwf1 Hunref Hne).
    eexists. split; [apply heap_upd_eq|]. simpl. split_and!; try done; [lia|].
    intros Hf Hfr. by rewrite (finds_encloses_in s p bq r Hf Hfr Hq) in Heq'.
Qed.

(** ** Publishing and looking up *)

(** X5.  Publish, then look up: after [vips_buffer_done] of a held buffer
    that was not published, [vips_buffer_ref] for its image and any area that
    its area encloses returns that very buffer, whatever else is published,
    and only increments its reference count; the area of the buffer and the
    requested one are rectangles that fit. *)
Theorem X5_publish_then_acquire s ok p b im r :
  reachable s → heap s !! p = Some b → 0 < b_ref_count b →
  b_done b = false → b_im b = Some im →
  rect_fits (b_area b) → rect_fits r →
  vips_rect_includesrect (b_area b) r = true →
  ∃ s1 s2,
    vips_buffer_done p s = Ret tt s1 ∧
    vips_buffer_ref ok im r s1 = Ret (Some p) s2 ∧
    heap s2 = <[p := set_ref_count (b_ref_count b + 1) (published b)]> (heap s1) ∧
    tracked s2 = tracked s.
Proof.
  intros Hs Hp Hr Hd Hi Hfb Hfr He. pose proof (reachable_wf _ Hs) as Hwf.
  assert (finds (published b) r = true) as Hfound
    by (by rewrite (finds_encloses (published b) r Hfb Hfr)).
  exists (done_st p b s).
  assert (vips_buffer_done p s = Ret tt (done_st p b s)) as Hdone.
  { rewrite (vips_buffer_done_held _ _ _ Hwf Hp). by rewrite Hd. }
  assert (wf (done_st p b s)) as Hwf1 by (by apply wf_done).
  assert (heap (done_st p b s) !! p = Some (published b)) as Hp1
    by apply lookup_insert_eq.
  assert (buffers_of (cache_of (done_st p b s)) (Some im) =
          p :: buffers_of (cache_of s) (Some im)) as Hl1.
  { unfold done_st, cache_of at 1. simpl. rewrite Hi.
    by rewrite buffers_of_enlist, decide_True. }
  destruct (vips_buffer_ref_cases (done_st p b s) ok im r Hwf1)
    as [[Hnone _]|(l1 & q & l2 & bq & Hl & Hl1' & Hq & Heq & Hrun)].
  - destruct (Hnone p) as (b' & Hb' & He').
    { rewrite Hl1. apply list_elem_of_here. }
    rewrite Hp1 in Hb'. injection Hb' as <-.
    congruence.
  - rewrite Hl1 in Hl. destruct l1 as [|x l1]; simpl in Hl.
    + injection Hl as <- _. rewrite Hp1 in Hq. injection Hq as <-.
      eexists. split; [done|]. split; [exact Hrun|]. done.
    + injection Hl as <- _. destruct (Hl1' p) as (b' & Hb' & He');
        [apply list_elem_of_here|].
      rewrite Hp1 in Hb'. injection Hb' as <-.
      congruence.
Qed.

(** X6.  After [vips_buffer_undone] a held buffer cannot be looked up:
    neither [buffer_find] nor [vips_buffer_ref] returns it, for any image and
    any area, however small. *)
Theorem X6_unpublished_is_hidden s p s' :
  reachable s → held s p → vips_buffer_undone p s = Ret tt s' →
  ∀ ok im r o s'',
    (buffer_find im r s' = Ret o s'' → o ≠ Some p) ∧
    (vips_buffer_ref ok im r s' = Ret o s'' → o ≠ Some p).
Proof.
  intros Hs (b & Hp & Hr) Hrun ok im r o s''.
  pose proof (reachable_wf _ Hs) as Hwf.
  rewrite (vips_buffer_undone_held _ _ _ Hwf Hp) in Hrun. injection Hrun as <-.
  assert (wf (undone_st p b s)) as Hwf' by (by apply wf_undone).
  assert (heap (undone_st p b s) !! p = Some (unpublished b)) as Hp'
    by apply lookup_insert_eq.
  split.
  - intros Hfind ->.
    destruct (buffer_find_cases im r _ Hwf')
      as [[_ Heq]|(l1 & q & l2 & bq & Hl & _ & Hq & _ & Heq)];
      rewrite Heq in Hfind; [done|]. injection Hfind as -> _.
    eapply (wf_not_listed _ p _ (Some im) Hwf' Hp'); [done|].
    rewrite Hl. apply elem_of_app. right. apply list_elem_of_here.
  - intros Href ->.
    destruct (vips_buffer_ref_success _ ok im r p s'' Hwf' Href)
      as [(b' & Hb' & _ & Hd' & _)|(_ & Hnh & _)].
    + rewrite Hp' in Hb'. by injection Hb' as <-.
    + apply Hnh. exists (unpublished b). done.
Qed.

(** X7.  Publish, then unpublish: [vips_buffer_done] followed by
    [vips_buffer_undone] leaves every list of published buffers, the reserve
    and the pixel memory as they were; the buffer itself is as before but for
    the width and height of its area, which are 0. *)
Theorem X7_done_undone_round_trip s p b :
  reachable s → heap s !! p = Some b → 0 < b_ref_count b → b_done b = false →
  ∃ s1 s2,
    vips_buffer_done p s = Ret tt s1 ∧
    vips_buffer_undone p s1 = Ret tt s2 ∧
    (∀ k, buffers_of (cache_of s2) k = buffers_of (cache_of s) k) ∧
    c_reserve (cache_of s2) = c_reserve (cache_of s) ∧
    heap s2 = <[p := set_area (zero_size (b_area b)) b]> (heap s) ∧
    tracked s2 = tracked s.
Proof.
  intros Hs Hp Hr Hd. pose proof (reachable_wf _ Hs) as Hwf.
  exists (done_st p b s), (undone_st p (published b) (done_st p b s)).
  assert (wf (done_st p b s)) as Hwf1 by (by apply wf_done).
  assert (heap (done_st p b s) !! p = Some (published b)) as Hp1
    by apply lookup_insert_eq.
  split; [rewrite (vips_buffer_done_held _ _ _ Hwf Hp); by rewrite Hd|].
  split; [by apply vips_buffer_undone_held|].
  split_and!.
  - intros k. unfold undone_st, cache_of at 1. simpl.
    change (cache_of (done_st p b s)) with (enlist (b_im b) p (cache_of s)).
    rewrite buffers_of_unlist, buffers_of_enlist.
    rewrite (decide_True (P := b_im b = b_im b)) by done.
    case_decide as Hk.
    + subst k. apply g_slist_remove_head.
    + rewrite buffers_of_enlist. by rewrite decide_False.
  - unfold undone_st, cache_of at 1. simpl.
    change (cache_of (done_st p b s)) with (enlist (b_im b) p (cache_of s)).
    unfold unlist. by destruct (c_hash (enlist (b_im b) p (cache_of s)) !! b_im b).
  - pose proof (ok_undone _ _ _ (wf_buffer _ Hwf _ _ Hp) Hd) as Hc.
    simpl. rewrite insert_insert_eq. f_equal.
    unfold unpublished, set_area. simpl. by rewrite Hd, Hc.
  - done.
Qed.


(** ** Reuse *)

Lemma unref_st_room_eq s p b :
  c_n_reserve (cache_of s) < buffer_cache_max_reserve →
  unref_st p b s =
  mkState (<[p := parked b]> (heap s)) (Some (park p (undone_cache p b s)))
    (tracked s).
Proof.
  intros Hn. unfold unref_st. rewrite c_n_reserve_undone_cache.
  by destruct (c_n_reserve (cache_of s) <? buffer_cache_max_reserve) eqn:Hlt; [|lia].
Qed.

(** A move within the memory the buffer has does not go to the allocator. *)
Lemma move_within_capacity ok area n t b :
  n ≤ b_bsize b → is_Some (b_buf b) →
  move_ret ok n b = 0 ∧
  moved ok area n t b = set_area area (unpublished b) ∧
  move_tracked ok n b t = t.
Proof.
  intros Hn Hbuf. unfold move_ret, moved, move_tracked, need_alloc.
  assert ((b_bsize b <? n) = false) as -> by lia.
  by rewrite bool_decide_eq_true_2.
Qed.

(** X8.  Release, then make: when the reserve has room, the buffer whose
    last reference [vips_buffer_unref] drops is the one that the next
    [vips_buffer_new] hands out, for whatever image; and when its memory
    suffices for the new area the call keeps that memory, does not go to
    the allocator and so cannot fail. *)
Theorem X8_release_then_new_reuses s p b ok im r :
  reachable s → heap s !! p = Some b → b_ref_count b = 1 →
  c_n_reserve (cache_of s) < buffer_cache_max_reserve →
  ∃ s1,
    vips_buffer_unref p s = Ret tt s1 ∧
    new_target s1 = p ∧
    (∀ o s2, vips_buffer_new ok im r s1 = Ret o s2 → o = Some p ∨ o = None) ∧
    (new_bsize im r ≤ b_bsize b →
     ∃ s2 b2,
       vips_buffer_new ok im r s1 = Ret (Some p) s2 ∧
       heap s2 !! p = Some b2 ∧
       b_buf b2 = b_buf b ∧ b_bsize b2 = b_bsize b ∧
       b_area b2 = r ∧ b_im b2 = Some im ∧ b_ref_count b2 = 1 ∧
       tracked s2 = tracked s).
Proof.
  intros Hs Hp Hr Hn. pose proof (reachable_wf _ Hs) as Hwf.
  destruct (reachable_mem_inv _ Hs) as [_ Hc].
  destruct (ok_ref _ _ _ (wf_buffer _ Hwf _ _ Hp)) as [i Hi]; [lia|].
  destruct (Hc _ _ Hp) as [_ Hcap].
  destruct (Hcap ltac:(lia) i Hi) as [Hbuf _].
  exists (unref_st p b s).
  assert (wf (unref_st p b s)) as Hwf1 by (by apply wf_unref_st).
  destruct (unref_st_room s p b Hn) as [Hp1 Hres].
  assert (new_target (unref_st p b s) = p) as Htarget.
  { unfold new_target. by rewrite Hres. }
  assert (new_buffer im (unref_st p b s) = taken im (parked b)) as Hnb.
  { unfold new_buffer. by rewrite Htarget, Hp1. }
  split; [apply vips_buffer_unref_last; [done..|by apply wf_undone_pre]|].
  split; [done|]. split.
  - intros o s2 Hnew.
    destruct (vips_buffer_new_result _ ok im r Hwf1) as [[_ Heq]|[_ Heq]];
      rewrite Heq in Hnew; injection Hnew as <- _; [left|right]; congruence.
  - intros Hfit.
    destruct (move_within_capacity ok r (new_bsize im r)
                (tracked (new_st im (unref_st p b s))) (taken im (parked b)))
      as (Hret & Hmoved & Htr); [done..|].
    exists (new_moved_st ok im r (unref_st p b s)), (set_area r (unpublished (taken im (parked b)))).
    split_and!; try done.
    + rewrite vips_buffer_new_eq by (intros q; by apply wf_reserve_live).
      by rewrite Hnb, Hret, Htarget.
    + unfold new_moved_st. rewrite Htarget, Hnb. simpl heap.
      rewrite lookup_insert_eq. f_equal. exact Hmoved.
    + unfold new_moved_st. rewrite Hnb. simpl tracked.
      rewrite (unref_st_room_eq s p b Hn). simpl tracked.
      rewrite (unref_st_room_eq s p b Hn) in Htr. exact Htr.
Qed.

(** X9.  Swap in place: when the requested rectangle and the areas of the
    buffers fit, the old buffer is the caller's alone, does not enclose the
    requested area, and no published buffer of the image does,
    [vips_buffer_unref_ref] returns the old buffer moved to the area; and
    when the memory of the buffer suffices for the area, nothing is
    allocated, whether the allocator would answer or not. *)
Theorem X9_swap_in_place s ok p b im r :
  reachable s → areas_fit s → rect_fits r →
  heap s !! p = Some b → b_ref_count b = 1 →
  b_im b = Some im →
  vips_rect_includesrect (b_area b) r = false →
  (∀ q, q ∈ buffers_of (cache_of s) (Some im) →
     ∃ bq, heap s !! q = Some bq ∧ vips_rect_includesrect (b_area bq) r = false) →
  (∀ o s', vips_buffer_unref_ref ok (Some p) im r s = Ret o s' →
     o = Some p ∨ (o = None ∧ ok = false)) ∧
  (new_bsize im r ≤ b_bsize b →
   ∃ s' b',
     vips_buffer_unref_ref ok (Some p) im r s = Ret (Some p) s' ∧
     heap s' = <[p := b']> (heap s) ∧
     b_area b' = r ∧ b_buf b' = b_buf b ∧ b_bsize b' = b_bsize b ∧
     b_ref_count b' = 1 ∧ b_done b' = false ∧
     tracked s' = tracked s ∧ ¬ registered s' p).
Proof.
  intros Hs Hf Hfr Hp Hr Hi He Hnone. pose proof (reachable_wf _ Hs) as Hwf.
  destruct (reachable_mem_inv _ Hs) as [_ Hc].
  destruct (Hc _ _ Hp) as [_ Hcap].
  destruct (Hcap ltac:(lia) im Hi) as [Hbuf _].
  pose proof (wf_got_cache _ Hwf) as Hwf0.
  assert (heap (got_cache s) !! p = Some b) as Hp0 by done.
  assert (vips_buffer_unref_ref ok (Some p) im r s =
          (rr <- buffer_move ok p r ;;
           if rr =? 0 then ret (Some p)
           else vips_buffer_unref p ;;; ret None) (got_cache s)) as Hswap.
  { rewrite (vips_buffer_unref_ref_some _ _ _ _ _ _ Hp Hi).
    unfold encloses. rewrite He.
    assert (buffer_find im r s = Ret None (got_cache s)) as Hfind.
    { rewrite buffer_find_eq. apply (buffer_find_loop_none _ r (got_cache s)).
      intros q Hq. destruct (Hnone q Hq) as (bq & Hbq & Heq).
      exists bq. split; [done|].
      by rewrite (finds_encloses_in s q bq r Hf Hfr Hbq). }
    rewrite (bind_Ret _ _ _ _ _ Hfind).
    rewrite (bind_Ret _ _ _ _ _ (deref_eq _ _ _ Hp0)).
    by rewrite Hr. }
  rewrite Hswap.
  rewrite (bind_Ret _ _ _ _ _
    (buffer_move_eq _ ok _ _ im r Hp0 Hr Hi (wf_undone_pre _ _ _ Hwf0 Hp0))).
  split.
  - intros o s'. destruct (move_ret ok (new_bsize im r) b =? 0) eqn:Hret.
    + intros [= <- _]. by left.
    + intros Hrun. apply bind_inv in Hrun as (u & s2 & _ & Hrun).
      apply ret_inv in Hrun as [-> _]. right. split; [done|].
      destruct (moved_buf_failed ok r (new_bsize im r) (tracked (got_cache s)) b);
        [lia|done].
  - intros Hfit.
    destruct (move_within_capacity ok r (new_bsize im r) (tracked s) b)
      as (Hret & Hmoved & Htr); [done..|].
    rewrite Hret. simpl.
    eexists _, (set_area r (unpublished b)). split; [done|].
    assert (wf (move_st ok r (new_bsize im r) p b (got_cache s))) as Hwfm
      by (apply wf_move_st; [done..|lia]).
    split_and!; try done.
    + simpl. by rewrite Hmoved.
    + intros [k Hin].
      eapply (wf_not_listed _ p _ k Hwfm); [apply lookup_insert_eq| |done].
      apply moved_done.
Qed.

(** ** Calls that keep the contract return *)

Lemma vips_buffer_unref_held s p :
  wf s → held s p → ∃ s', vips_buffer_unref p s = Ret tt s'.
Proof.
  intros Hwf (b & Hp & Hr).
  destruct (decide (b_ref_count b = 1)) as [H1|Hne].
  - eexists. apply vips_buffer_unref_last; [done..|by apply wf_undone_pre].
  - eexists. apply vips_buffer_unref_shared; [done|lia].
Qed.

(** X11.  No assertion of [vips_buffer_unref], [vips_buffer_done] or
    [vips_buffer_undone] fails, and no dangling pointer is followed, when the
    caller passes a buffer it holds a reference to: in every reachable state
    the three calls return. *)
Theorem X11_held_calls_return s p :
  reachable s → held s p →
  (∃ s', vips_buffer_unref p s = Ret tt s') ∧
  (∃ s', vips_buffer_done p s = Ret tt s') ∧
  (∃ s', vips_buffer_undone p s = Ret tt s').
Proof.
  intros Hs Hheld. pose proof (reachable_wf _ Hs) as Hwf.
  split; [by apply vips_buffer_unref_held|].
  destruct Hheld as (b & Hp & Hr). split.
  - eexists. by apply (vips_buffer_done_held _ _ b).
  - eexists. by apply vips_buffer_undone_held.
Qed.

(** X12.  [vips_buffer_unref_ref] returns in every reachable state when the
    old buffer, if there is one, belongs to the requested image; it returns
    a buffer when the allocator answers, and NULL only when the allocator
    fails. *)
Theorem X12_swap_returns s ok old im r :
  reachable s →
  (∀ p, old = Some p → ∃ b, heap s !! p = Some b ∧ b_im b = Some im) →
  ∃ o s', vips_buffer_unref_ref ok old im r s = Ret o s' ∧
          (o = None → ok = false).
Proof.
  intros Hs Hold. pose proof (reachable_wf _ Hs) as Hwf.
  pose proof (wf_got_cache _ Hwf) as Hwf0.
  assert (∀ s0, wf s0 → ∃ o s', vips_buffer_new ok im r s0 = Ret o s' ∧
                               (o = None → ok = false)) as Hnew.
  { intros s0 Hwfs. destruct (vips_buffer_new_result s0 ok im r Hwfs)
      as [[_ Heq]|[Hok Heq]]; rewrite Heq; eexists _, _; (split; [done|]); by intros. }
  destruct old as [p|].
  - destruct (Hold p eq_refl) as (b & Hp & Hi).
    rewrite (vips_buffer_unref_ref_some _ _ _ _ _ _ Hp Hi).
    destruct (encloses b r) eqn:He; [eexists _, _; split; [done|]; by intros|].
    pose proof (wf_held_of_im _ _ _ _ Hwf Hp Hi) as Hr.
    assert (heap (got_cache s) !! p = Some b) as Hp0 by done.
    destruct (buffer_find_cases im r s Hwf)
      as [[_ Heq]|(l1 & q & l2 & bq & Hl & _ & Hq & Heq' & Heq)];
      rewrite (bind_Ret _ _ _ _ _ Heq).
    + rewrite (bind_Ret _ _ _ _ _ (deref_eq _ _ _ Hp0)).
      destruct (b_ref_count b =? 1) eqn:H1.
      * rewrite (bind_Ret _ _ _ _ _
          (buffer_move_eq _ ok _ _ im r Hp0 ltac:(lia) Hi
             (wf_undone_pre _ _ _ Hwf0 Hp0))).
        destruct (move_ret ok (new_bsize im r) b =? 0) eqn:Hret;
          [eexists _, _; split; [done|]; by intros|].
        set (m := move_st _ _ _ _ _ _).
        assert (wf m) as Hwfm by (apply wf_move_st; [done..|lia]).
        destruct (vips_buffer_unref_held m p Hwfm) as [s' Hs'].
        { eexists. split; [apply lookup_insert_eq|]. rewrite moved_ref_count. lia. }
        rewrite (bind_Ret _ _ _ _ _ Hs'). eexists _, _. split; [done|].
        intros _.
        destruct (moved_buf_failed ok r (new_bsize im r) (tracked (got_cache s)) b);
          [lia|done].
      * rewrite (bind_Ret _ _ _ _ _
          (vips_buffer_unref_shared _ _ _ Hp0 ltac:(lia))).
        apply Hnew.
        apply (wf_upd_held (got_cache s) _ p b
                 (set_ref_count (b_ref_count b - 1) b)); try done; simpl; lia.
    + assert (q ∈ buffers_of (cache_of s) (Some im)) as Hin.
      { rewrite Hl. apply elem_of_app. right. apply list_elem_of_here. }
      destruct (wf_listed_here _ _ _ _ Hwf Hq Hin) as (_ & _ & _ & Hrq).
      set (s1 := upd q _ _).
      assert (wf s1) as Hwf1.
      { apply (wf_upd_held (got_cache s) _ q bq
                 (set_ref_count (b_ref_count bq + 1) bq)); try done. simpl. lia. }
      destruct (vips_buffer_unref_held s1 p Hwf1) as [s' Hs'].
      { destruct (decide (q = p)) as [->|Hne].
        - eexists. split; [apply heap_upd_eq|]. simpl. lia.
        - exists b. split; [|done]. unfold s1. by rewrite heap_upd_ne. }
      rewrite (bind_Ret _ _ _ _ _ Hs'). eexists _, _. split; [done|]. by intros.
  - rewrite vips_buffer_unref_ref_none.
    destruct (vips_buffer_ref_cases s ok im r Hwf)
      as [[_ Heq]|(l1 & q & l2 & bq & _ & _ & _ & _ & Heq)].
    + unfold vips_buffer_ref in Heq. rewrite Heq. by apply Hnew.
    + unfold vips_buffer_ref in Heq. rewrite Heq. eexists _, _. split; [done|]. by intros.
Qed.


(** ** Shutdown *)

Lemma elem_of_free_tracked k o t :
  k ∈ free_tracked o t ↔ k ∈ t ∧ o ≠ Some k.
Proof.
  unfold free_tracked. destruct o as [k0|].
  - rewrite elem_of_difference, elem_of_singleton. split.
    + intros [? ?]. split; [done|congruence].
    + intros [? ?]. split; [done|congruence].
  - split; [by intros ?|by intros [? _]].
Qed.

(** The loop over the reserve frees every buffer of it, with its pixel
    memory, and nothing else. *)
Lemma buffer_cache_free_loop_spec l s :
  NoDup l → (∀ p, p ∈ l → is_Some (heap s !! p)) →
  ∃ s', buffer_cache_free_loop l s = Ret tt s' ∧ tls s' = tls s ∧
        (∀ q, heap s' !! q = if decide (q ∈ l) then None else heap s !! q) ∧
        (∀ k, k ∈ tracked s' ↔
              k ∈ tracked s ∧ ∀ p, p ∈ l → block_of s p ≠ Some k).
Proof.
  revert s. induction l as [|p l IH]; intros s Hnd Hlive.
  - exists s. split_and!; try done.
    intros k. split; [|by intros [? _]]. intros Hk. split; [done|].
    by intros p ?%elem_of_nil.
  - apply NoDup_cons in Hnd as [Hp Hnd].
    destruct (Hlive p) as [b Hb]; [apply list_elem_of_here|].
    destruct (IH (free_st p b s) Hnd) as (s' & Hrun & Htls & Hheap & Htr).
    { intros q Hq. simpl. rewrite lookup_delete_ne by (intros ->; done).
      apply Hlive. by apply list_elem_of_further. }
    exists s'. split_and!.
    + simpl. by rewrite (bind_Ret _ _ _ _ _ (vips_buffer_free_eq _ _ _ Hb)).
    + by rewrite Htls.
    + intros q. rewrite Hheap. simpl. destruct (decide (q = p)) as [->|Hne].
      * rewrite decide_False by done. rewrite lookup_delete_eq.
        rewrite decide_True; [done|apply list_elem_of_here].
      * rewrite lookup_delete_ne by done.
        destruct (decide (q ∈ l)) as [Hin|Hin].
        -- rewrite decide_True; [done|by apply list_elem_of_further].
        -- rewrite decide_False; [done|]. by intros [?|?]%elem_of_cons.
    + intros k. rewrite Htr. simpl. rewrite elem_of_free_tracked. split.
      * intros [[Hk Hpk] Hl]. split; [done|].
        intros q [->|Hq]%elem_of_cons.
        -- by rewrite (block_of_lookup _ _ _ Hb).
        -- specialize (Hl q Hq). unfold block_of in *. simpl in Hl.
           rewrite lookup_delete_ne in Hl; [done|]. by intros ->.
      * intros [Hk Hl]. split.
        -- split; [done|]. rewrite <- (block_of_lookup _ _ _ Hb).
           apply Hl, list_elem_of_here.
        -- intros q Hq. unfold block_of. simpl.
           rewrite lookup_delete_ne by (intros ->; done).
           apply Hl. by apply list_elem_of_further.
Qed.

Lemma set_done_false_idemp b : set_done false (set_done false b) = set_done false b.
Proof. done. Qed.

(** The loop over a list marks its buffers undone and changes nothing
    else. *)
Lemma buffer_cache_list_free_loop_spec l s :
  (∀ p, p ∈ l → is_Some (heap s !! p)) →
  ∃ s', buffer_cache_list_free_loop l s = Ret tt s' ∧
        tls s' = tls s ∧ tracked s' = tracked s ∧
        (∀ q, q ∈ l → heap s' !! q = set_done false <$> heap s !! q) ∧
        (∀ q, q ∉ l → heap s' !! q = heap s !! q).
Proof.
  revert s. induction l as [|p l IH]; intros s Hlive.
  - exists s. split_and!; try done. by intros q ?%elem_of_nil.
  - destruct (Hlive p) as [b Hb]; [apply list_elem_of_here|].
    destruct (IH (upd p (set_done false b) s)) as (s' & Hrun & Htls & Htr & Hin & Hout).
    { intros q Hq. destruct (decide (p = q)) as [->|Hne].
      - rewrite heap_upd_eq. by eexists.
      - rewrite heap_upd_ne by done. apply Hlive. by apply list_elem_of_further. }
    exists s'. split_and!; try done.
    + simpl. by rewrite (bind_Ret _ _ _ _ _ (modify_eq _ _ _ _ Hb)).
    + intros q Hq. destruct (decide (q ∈ l)) as [Hql|Hql].
      * rewrite (Hin q Hql). destruct (decide (p = q)) as [->|Hne].
        -- by rewrite heap_upd_eq, Hb.
        -- by rewrite heap_upd_ne.
      * apply elem_of_cons in Hq as [->|Hq]; [|done].
        rewrite (Hout p Hql). by rewrite heap_upd_eq, Hb.
    + intros q Hq. apply not_elem_of_cons in Hq as [Hne Hql].
      rewrite (Hout q Hql). by rewrite heap_upd_ne.
Qed.

Lemma listed_in_cases vs q : listed_in vs q ∨ ¬ listed_in vs q.
Proof.
  destruct (decide (Exists (λ v : option image * VipsBufferCacheList,
                              q ∈ cl_buffers v.2) vs)) as [Hl|Hl];
    rewrite Exists_exists in Hl; [by left|by right].
Qed.

Lemma destroy_values_spec vs s :
  (∀ q, listed_in vs q → is_Some (heap s !! q)) →
  ∃ s', destroy_values vs s = Ret tt s' ∧
        tls s' = tls s ∧ tracked s' = tracked s ∧
        (∀ q, listed_in vs q → heap s' !! q = set_done false <$> heap s !! q) ∧
        (∀ q, ¬ listed_in vs q → heap s' !! q = heap s !! q).
Proof.
  revert s. induction vs as [|v vs IH]; intros s Hlive.
  - exists s. split_and!; try done. intros q (v & Hv & _). by apply elem_of_nil in Hv.
  - destruct (buffer_cache_list_free_loop_spec (cl_buffers v.2) s)
      as (s1 & Hrun1 & Htls1 & Htr1 & Hin1 & Hout1).
    { intros q Hq. apply Hlive. exists v. split; [apply list_elem_of_here|done]. }
    assert (∀ q, is_Some (heap s !! q) → is_Some (heap s1 !! q)) as Hkeep.
    { intros q [b Hb]. destruct (decide (q ∈ cl_buffers v.2)) as [Hq|Hq].
      - rewrite (Hin1 q Hq), Hb. by eexists.
      - rewrite (Hout1 q Hq), Hb. by eexists. }
    destruct (IH s1) as (s' & Hrun & Htls & Htr & Hin & Hout).
    { intros q (v' & Hv' & Hq). apply Hkeep, Hlive. exists v'.
      split; [by apply list_elem_of_further|done]. }
    exists s'. split_and!.
    + simpl. unfold buffer_cache_list_free. by rewrite (bind_Ret _ _ _ _ _ Hrun1).
    + by rewrite Htls.
    + by rewrite Htr.
    + intros q (v' & Hv' & Hq).
      destruct (listed_in_cases vs q) as [Hl|Hl].
      * rewrite (Hin q Hl). destruct (decide (q ∈ cl_buffers v.2)) as [Hq1|Hq1].
        -- rewrite (Hin1 q Hq1). by destruct (heap s !! q).
        -- by rewrite (Hout1 q Hq1).
      * rewrite (Hout q Hl). apply elem_of_cons in Hv' as [->|Hv'].
        -- by apply Hin1.
        -- exfalso. apply Hl. by exists v'.
    + intros q Hq. rewrite Hout.
      * apply Hout1. intros Hq1. apply Hq. exists v. split; [apply list_elem_of_here|done].
      * intros (v' & Hv' & Hq'). apply Hq. exists v'.
        split; [by apply list_elem_of_further|done].
Qed.


Lemma set_done_false_id b : b_done b = false → set_done false b = b.
Proof. destruct b. simpl. by intros ->. Qed.

Lemma listed_in_registered s c q :
  tls s = Some c → listed_in (map_to_list (c_hash c)) q ↔ registered s q.
Proof.
  intros Hc. unfold registered, cache_of, buffers_of. rewrite Hc. simpl. split.
  - intros ([k cl] & Hv & Hq). apply elem_of_map_to_list in Hv.
    exists k. by rewrite Hv.
  - intros [k Hq]. destruct (c_hash c !! k) as [cl|] eqn:Hk;
      [|by apply elem_of_nil in Hq].
    exists (k, cl). split; [by apply elem_of_map_to_list|done].
Qed.

(** What [vips__buffer_shutdown] does in a state that satisfies the
    invariant. *)
Lemma vips__buffer_shutdown_spec s :
  wf s →
  ∃ s', vips__buffer_shutdown s = Ret tt s' ∧ tls s' = None ∧
        (∀ q, heap s' !! q =
              if decide (q ∈ c_reserve (cache_of s)) then None
              else set_done false <$> heap s !! q) ∧
        (∀ k, k ∈ tracked s' ↔
              k ∈ tracked s ∧
              ∀ p, p ∈ c_reserve (cache_of s) → block_of s p ≠ Some k).
Proof.
  intros Hwf.
  assert (∀ q b, heap s !! q = Some b → ¬ registered s q →
                 set_done false b = b) as Hplain.
  { intros q b Hq Hnr. apply set_done_false_id.
    destruct (b_done b) eqn:Hd; [|done]. exfalso. apply Hnr.
    destruct (ok_done _ _ _ (wf_buffer _ Hwf _ _ Hq) Hd) as (Hin & _).
    by exists (b_im b). }
  assert (∀ q, registered s q → q ∉ c_reserve (cache_of s)) as Hsep.
  { intros q [k Hin] Hres.
    destruct (wf_listed _ Hwf _ _ Hin) as (b & Hb & _).
    destruct (wf_listed_here _ _ _ _ Hwf Hb Hin) as (_ & _ & _ & Hr).
    by apply (wf_not_reserved _ _ _ Hwf Hb Hr). }
  unfold vips__buffer_shutdown. destruct (tls s) as [c|] eqn:Hc.
  - assert (cache_of s = c) as Hco by (unfold cache_of; by rewrite Hc).
    rewrite Hco in *.
    destruct (buffer_cache_free_loop_spec (c_reserve c) s)
      as (s1 & Hrun1 & Htls1 & Hheap1 & Htr1).
    { rewrite <- Hco. apply Hwf. }
    { intros p Hp. apply (wf_reserve_live _ _ Hwf). by rewrite Hco. }
    destruct (destroy_values_spec (map_to_list (c_hash c)) s1)
      as (s2 & Hrun2 & Htls2 & Htr2 & Hin2 & Hout2).
    { intros q Hq. apply (listed_in_registered s c q Hc) in Hq.
      rewrite Hheap1, decide_False by (by apply Hsep).
      destruct Hq as [k Hin]. by apply (wf_listed_live s k). }
    exists (set_tls None s2). split_and!.
    + unfold buffer_cache_free, g_hash_table_destroy.
      rewrite bind_assoc, (bind_Ret _ _ _ _ _ Hrun1).
      by rewrite (bind_Ret _ _ _ _ _ Hrun2).
    + done.
    + intros q. simpl.
      destruct (listed_in_cases (map_to_list (c_hash c)) q) as [Hl|Hl].
      * rewrite (Hin2 q Hl), Hheap1.
        apply (listed_in_registered s c q Hc), Hsep in Hl.
        by rewrite !decide_False.
      * rewrite (Hout2 q Hl), Hheap1. case_decide; [done|].
        destruct (heap s !! q) as [b|] eqn:Hq; [|done]. simpl.
        rewrite (Hplain q b); [done..|]. by rewrite <- (listed_in_registered s c q Hc).
    + intros k. simpl. by rewrite Htr2, Htr1.
  - assert (cache_of s = buffer_cache_new) as Hco by (unfold cache_of; by rewrite Hc).
    exists s. rewrite Hco. simpl. split_and!; try done.
    + intros q. destruct (heap s !! q) as [b|] eqn:Hq; [|done]. simpl.
      rewrite (Hplain q b); [done..|]. intros [k Hin].
      rewrite Hco, buffers_of_new in Hin. by apply elem_of_nil in Hin.
    + intros k. split; [|by intros [? _]]. intros Hk. split; [done|].
      by intros p ?%elem_of_nil.
Qed.

(** X13.  [vips__buffer_shutdown] returns in every reachable state.  It
    empties the thread's slot, frees every buffer of the reserve together
    with its pixel memory, and frees nothing else: every other buffer stays
    allocated and is as it was, except that it is marked not done. *)
Theorem X13_shutdown s :
  reachable s →
  ∃ s', vips__buffer_shutdown s = Ret tt s' ∧ tls s' = None ∧
        (∀ q, q ∈ c_reserve (cache_of s) → heap s' !! q = None) ∧
        (∀ q b, q ∉ c_reserve (cache_of s) → heap s !! q = Some b →
           heap s' !! q = Some (set_done false b)) ∧
        (∀ q, heap s !! q = None → heap s' !! q = None) ∧
        (∀ k, k ∈ tracked s' ↔
              k ∈ tracked s ∧
              ∀ p b, p ∈ c_reserve (cache_of s) → heap s !! p = Some b →
                     b_buf b ≠ Some k).
Proof.
  intros Hs. pose proof (reachable_wf _ Hs) as Hwf.
  destruct (vips__buffer_shutdown_spec s Hwf) as (s' & Hrun & Htls & Hheap & Htr).
  exists s'. split_and!; try done.
  - intros q Hq. by rewrite Hheap, decide_True.
  - intros q b Hq Hb. by rewrite Hheap, decide_False, Hb.
  - intros q Hq. rewrite Hheap, Hq. by case_decide.
  - intros k. rewrite Htr. split; intros [Hk Hres]; (split; [done|]).
    + intros p b Hp Hb. specialize (Hres p Hp).
      by rewrite (block_of_lookup _ _ _ Hb) in Hres.
    + intros p Hp Hblock. apply block_of_Some in Hblock as (b & Hb & Hbuf).
      by apply (Hres p b).
Qed.

(** X14.  After [vips__buffer_shutdown] no pixel memory has leaked: the live
    blocks are exactly the blocks of the buffers that are still allocated,
    one buffer each; and when the caller holds no reference at all, no buffer
    and no pixel block is left. *)
Theorem X14_shutdown_leaks_nothing s s' :
  reachable s → vips__buffer_shutdown s = Ret tt s' →
  (∀ p b k, heap s' !! p = Some b → b_buf b = Some k → k ∈ tracked s') ∧
  (∀ k, k ∈ tracked s' → ∃ p b, heap s' !! p = Some b ∧ b_buf b = Some k) ∧
  (∀ p q b b' k, heap s' !! p = Some b → heap s' !! q = Some b' →
     b_buf b = Some k → b_buf b' = Some k → p = q) ∧
  ((∀ p b, heap s !! p = Some b → b_ref_count b = 0) →
   heap s' = ∅ ∧ tracked s' = ∅).
Proof.
  intros Hs Hrun. pose proof (reachable_wf _ Hs) as Hwf.
  destruct (reachable_mem_inv _ Hs) as [[Hlive Hown Hun] _].
  destruct (vips__buffer_shutdown_spec s Hwf) as (s0 & Hrun0 & Htls & Hheap & Htr).
  rewrite Hrun0 in Hrun. injection Hrun as <-.
  assert (∀ q k, block_of s0 q = Some k ↔
                 (q ∉ c_reserve (cache_of s)) ∧ block_of s q = Some k) as Hblock.
  { intros q k. unfold block_of. rewrite Hheap. case_decide as Hq.
    - split; [done|]. by intros [? _].
    - destruct (heap s !! q) as [b|]; simpl; [|split; [done|by intros [_ ?]]].
      split; [done|by intros [_ ?]]. }
  assert (∀ k, k ∈ tracked s0 → ∃ q, block_of s0 q = Some k) as Hown0.
  { intros k [Hk Hres]%Htr. destruct (Hown k Hk) as [q Hq]. exists q.
    apply Hblock. split; [|done]. intros Hin. by apply (Hres q Hin). }
  split_and!.
  - intros p b k Hp Hb.
    assert (block_of s0 p = Some k) as [Hnr Hold]%Hblock
      by (apply block_of_Some; eauto).
    apply Htr. split; [by eapply Hlive|].
    intros q Hq Hqk. apply Hnr. by rewrite (Hun p q k).
  - intros k Hk. destruct (Hown0 k Hk) as [q Hq].
    apply block_of_Some in Hq as (b & Hb & Hbuf). by eauto.
  - intros p q b b' k Hp Hq Hb Hb'.
    assert (block_of s0 p = Some k) as [_ Hp']%Hblock by (apply block_of_Some; eauto).
    assert (block_of s0 q = Some k) as [_ Hq']%Hblock by (apply block_of_Some; eauto).
    by apply (Hun p q k).
  - intros Hnone.
    assert (heap s0 = ∅) as Hempty.
    { apply map_eq. intros q. rewrite lookup_empty, Hheap. case_decide as Hq; [done|].
      destruct (heap s !! q) as [b|] eqn:Hb; [|done]. exfalso. apply Hq.
      by destruct (ok_unref _ _ _ (wf_buffer _ Hwf _ _ Hb) (Hnone q b Hb)) as (? & _). }
    split; [done|]. apply elem_of_equiv_empty_L. intros k Hk.
    destruct (Hown0 k Hk) as [q Hq]. unfold block_of in Hq.
    by rewrite Hempty, lookup_empty in Hq.
Qed.

(** X15.  After [vips__buffer_shutdown] the buffers that were published can
    be found no more, a second shutdown does nothing, and a buffer that the
    caller still holds can be released without touching the lists that were
    destroyed: [vips_buffer_unref] returns, and when it drops the last
    reference the buffer is the one buffer of the reserve of a new cache. *)
Theorem X15_after_shutdown s s' :
  reachable s → vips__buffer_shutdown s = Ret tt s' →
  vips__buffer_shutdown s' = Ret tt s' ∧
  (∀ im r, buffer_find im r s' = Ret None (got_cache s')) ∧
  (∀ p b, heap s !! p = Some b → 0 < b_ref_count b →
     ∃ s'', vips_buffer_unref p s' = Ret tt s'' ∧
            (b_ref_count b = 1 →
             heap s'' !! p = Some (parked b) ∧
             c_reserve (cache_of s'') = [p])).
Proof.
  intros Hs Hrun. pose proof (reachable_wf _ Hs) as Hwf.
  destruct (vips__buffer_shutdown_spec s Hwf) as (s0 & Hrun0 & Htls & Hheap & Htr).
  rewrite Hrun0 in Hrun. injection Hrun as <-.
  assert (cache_of s0 = buffer_cache_new) as Hco by (unfold cache_of; by rewrite Htls).
  split_and!.
  - unfold vips__buffer_shutdown. by rewrite Htls.
  - intros im r. rewrite buffer_find_eq, Hco, buffers_of_new. done.
  - intros p b Hp Hr.
    assert (heap s0 !! p = Some (set_done false b)) as Hp0.
    { rewrite Hheap, decide_False, Hp; [done|].
      by apply (wf_not_reserved _ _ b). }
    destruct (decide (b_ref_count b = 1)) as [H1|Hne].
    + exists (unref_st p (set_done false b) s0). split.
      * apply vips_buffer_unref_last; [done..|]. by intros ?.
      * intros _. destruct (unref_st_room s0 p (set_done false b)) as [Hpk Hres].
        { rewrite Hco. unfold buffer_cache_max_reserve. simpl. lia. }
        split; [done|]. by rewrite Hres, Hco.
    + eexists. split; [apply vips_buffer_unref_shared; [done|simpl; lia]|done].
Qed.


(** ** Swapping a shared buffer is acquiring and releasing *)

Lemma new_buffer_upd p b b' im s :
  wf s → heap s !! p = Some b → 0 < b_ref_count b →
  new_buffer im (upd p b' s) = new_buffer im s.
Proof.
  intros Hwf Hp Hr. unfold new_buffer. rewrite (new_target_upd _ b) by done.
  rewrite heap_upd_ne; [done|].
  intros Heq. by apply (new_target_not_held s p b).
Qed.

(** X16.  When the old buffer is shared and does not enclose the requested
    area, [vips_buffer_unref_ref] is [vips_buffer_ref] followed by
    [vips_buffer_unref] of the old buffer: the same buffer or NULL is
    returned and the same state is left. *)
Theorem X16_swap_shared_is_ref_then_unref s ok p b im r :
  reachable s → heap s !! p = Some b → b_im b = Some im →
  1 < b_ref_count b →
  vips_rect_includesrect (b_area b) r = false →
  vips_buffer_unref_ref ok (Some p) im r s =
  (o <- vips_buffer_ref ok im r ;; vips_buffer_unref p ;;; ret o) s.
Proof.
  intros Hs Hp Hi Hr He. pose proof (reachable_wf _ Hs) as Hwf.
  pose proof (wf_got_cache _ Hwf) as Hwf0.
  assert (heap (got_cache s) !! p = Some b) as Hp0 by done.
  rewrite (vips_buffer_unref_ref_some _ _ _ _ _ _ Hp Hi).
  unfold encloses. rewrite He. unfold vips_buffer_ref. rewrite bind_assoc.
  destruct (buffer_find_cases im r s Hwf)
    as [[_ Heq]|(l1 & q & l2 & bq & _ & _ & _ & _ & Heq)];
    rewrite !(bind_Ret _ _ _ _ _ Heq); [|done].
  rewrite (bind_Ret _ _ _ _ _ (deref_eq _ _ _ Hp0)).
  assert ((b_ref_count b =? 1) = false) as -> by lia.
  rewrite (bind_Ret _ _ _ _ _ (vips_buffer_unref_shared _ _ _ Hp0 Hr)).
  set (s0 := got_cache s) in *.
  set (b1 := set_ref_count (b_ref_count b - 1) b).
  assert (wf (upd p b1 s0)) as Hwf1.
  { apply (wf_upd_held s0 _ p b b1); try done; simpl; lia. }
  assert (new_target s0 ≠ p) as Hne by (apply (new_target_not_held s0 p b); [done..|lia]).
  rewrite (vips_buffer_new_eq (upd p b1 s0)) by (intros q; by apply wf_reserve_live).
  unfold bind at 1.
  rewrite (vips_buffer_new_eq s0) by (intros q; by apply wf_reserve_live).
  rewrite (new_buffer_upd p b b1 im s0) by (done || lia).
  rewrite (new_target_upd p b b1 s0) by done.
  change (tracked (upd p b1 s0)) with (tracked s0).
  assert (new_moved_st ok im r (upd p b1 s0) =
          upd p b1 (new_moved_st ok im r s0)) as Hcomm.
  { unfold new_moved_st, move_st, undone_st, new_st.
    rewrite (new_buffer_upd p b b1 im s0) by (done || lia).
    rewrite (new_target_upd p b b1 s0) by done.
    unfold upd, set_heap. simpl. f_equal.
    rewrite !insert_insert_eq. by rewrite insert_insert_ne. }
  rewrite Hcomm.
  assert (heap (new_moved_st ok im r s0) !! p = Some b) as Hpm.
  { simpl. by rewrite !lookup_insert_ne. }
  destruct (move_ret ok (new_bsize im r) (new_buffer im s0) =? 0).
  - by rewrite (bind_Ret _ _ _ _ _ (vips_buffer_unref_shared _ _ _ Hpm Hr)).
  - set (mb := moved _ _ _ _ _).
    assert (heap (free_st (new_target s0) mb (new_moved_st ok im r s0)) !! p = Some b)
      as Hpf.
    { simpl. by rewrite lookup_delete_ne, !lookup_insert_ne. }
    rewrite (bind_Ret _ _ _ _ _ (vips_buffer_unref_shared _ _ _ Hpf Hr)).
    unfold ret. f_equal. unfold free_st, upd, set_heap. simpl. f_equal.
    by rewrite delete_insert_ne.
Qed.

(** ** buffer_move *)

(** X17.  [buffer_move] wants the buffer unshared: with any reference count
    but 1 it aborts.  With a count of 1 it returns 0 or -1 and leaves the
    buffer with the requested area, unpublished and in no list; it goes to
    the allocator only if the buffer has no memory or too little, and then
    for exactly the bytes of the area. *)
Theorem X17_buffer_move s ok p b r :
  reachable s → heap s !! p = Some b →
  (b_ref_count b ≠ 1 → buffer_move ok p r s = AssertFail) ∧
  (b_ref_count b = 1 →
   ∃ rr s' b' i,
     buffer_move ok p r s = Ret rr s' ∧ (rr = 0 ∨ rr = -1) ∧
     b_im b = Some i ∧
     heap s' = <[p := b']> (heap s) ∧
     b_area b' = r ∧ b_done b' = false ∧ b_ref_count b' = 1 ∧
     ¬ registered s' p ∧
     (new_bsize i r ≤ b_bsize b → is_Some (b_buf b) →
        rr = 0 ∧ b_buf b' = b_buf b ∧ b_bsize b' = b_bsize b ∧
        tracked s' = tracked s) ∧
     (b_bsize b < new_bsize i r ∨ b_buf b = None →
        b_bsize b' = new_bsize i r ∧ (rr = 0 ↔ ok = true) ∧
        (rr = 0 ↔ is_Some (b_buf b')))).
Proof.
  intros Hs Hp. pose proof (reachable_wf _ Hs) as Hwf. split.
  - by apply buffer_move_shared.
  - intros Hr.
    destruct (ok_ref _ _ _ (wf_buffer _ Hwf _ _ Hp)) as [i Hi]; [lia|].
    set (n := new_bsize i r).
    exists (move_ret ok n b), (move_st ok r n p b s), (moved ok r n (tracked s) b), i.
    assert (wf (move_st ok r n p b s)) as Hwfm by (apply wf_move_st; [done..|lia]).
    split_and!; try done.
    + apply buffer_move_eq; [done..|by apply wf_undone_pre].
    + unfold move_ret. destruct (need_alloc b n && negb ok); [by right|by left].
    + apply moved_area.
    + apply moved_done.
    + by rewrite moved_ref_count.
    + intros [k Hin].
      eapply (wf_not_listed _ p _ k Hwfm); [apply lookup_insert_eq| |done].
      apply moved_done.
    + intros Hfit Hbuf.
      destruct (move_within_capacity ok r n (tracked s) b) as (Hret & Hmoved & Htr);
        [done..|].
      split_and!; try done; by rewrite Hmoved.
    + intros Hneed.
      assert (need_alloc b n = true) as Hna.
      { unfold need_alloc. destruct Hneed as [Hlt|Hnone].
        - assert ((b_bsize b <? n) = true) as -> by lia. done.
        - rewrite Hnone. rewrite bool_decide_eq_false_2 by (by intros [? ?]).
          apply orb_true_r. }
      unfold move_ret, moved. rewrite Hna. simpl.
      destruct ok; simpl; split_and!; try done;
        split; try done; try lia; try (by intros [? ?]); by eauto.
Qed.

(** ** vips_buffer_new *)

(** X18.  [vips_buffer_new] never looks at the published buffers: the buffer
    it returns is the head of the reserve or a new struct, was held by
    nobody, and comes with one reference, unpublished and in no list, for
    the image and exactly the area asked for. *)
Theorem X18_new_is_exclusive s ok im r p s' :
  reachable s → vips_buffer_new ok im r s = Ret (Some p) s' →
  p = new_target s ∧ ¬ held s p ∧
  ∃ b', heap s' !! p = Some b' ∧ b_ref_count b' = 1 ∧ b_im b' = Some im ∧
        b_done b' = false ∧ b_area b' = r ∧ ¬ registered s' p ∧
        (∀ q, q ≠ p → heap s' !! q = heap s !! q).
Proof.
  intros Hs Hrun. pose proof (reachable_wf _ Hs) as Hwf.
  pose proof (vips_buffer_new_wf _ _ _ _ _ _ Hwf Hrun) as Hwf'.
  destruct (vips_buffer_new_success s ok im r p s' Hwf Hrun)
    as (-> & Hnh & -> & b' & Hb' & Hr' & Hi' & Hd' & Ha').
  split; [done|]. split; [done|]. exists b'. split_and!; try done.
  - intros [k Hin]. by apply (wf_not_listed _ _ _ k Hwf' Hb' Hd').
  - intros q Hq. simpl. by rewrite !lookup_insert_ne.
Qed.

End proofs.

(** * Runs on concrete inputs *)

Lemma after_reachable cs :
  exec (H := pel4) cs init = Some (after cs) → reachable (H := pel4) (after cs).
Proof.
  intros Hrun.
  exact (exec_reachable (H := pel4) cs init (after cs) (reach_init (H := pel4)) Hrun).
Defined.

(** The first scenario of section 8 of the spec. *)
Example scenario_acquire_publish_release :
  exec (H := pel4)
    [CallRef true imgA (mkRect 0 0 10 10); CallDone B1;
     CallRef true imgA (mkRect 2 2 4 4);
     CallUnref B1; CallUnref B1] init =
  Some (mkState
          {[B1 := mkBuffer 0 None (mkRect 0 0 0 0) false false (Some 1%positive) 400]}
          (Some (mkCache {[Some imgA := mkCacheList [] (Some imgA)]} [B1] 1))
          {[1%positive]}).
Proof. vm_compute. reflexivity. Qed.

Lemma one_held_reachable : reachable (H := pel4) (after one_held).
Proof. apply after_reachable. vm_compute. reflexivity. Defined.

Lemma one_parked_reachable : reachable (H := pel4) (after one_parked).
Proof. apply after_reachable. vm_compute. reflexivity. Defined.

Lemma two_published_reachable : reachable (H := pel4) (after two_published).
Proof. apply after_reachable. vm_compute. reflexivity. Defined.


Lemma one_published_reachable : reachable (H := pel4) (after one_published).
Proof. apply after_reachable. vm_compute. reflexivity. Defined.

(** Rectangles that fit, and runs of calls whose rectangles fit. *)
Ltac fits :=
  repeat constructor; unfold INT_MIN, INT_MAX; vm_compute; discriminate.

Lemma after_fits cs :
  Forall call_fits cs → exec (H := pel4) cs init = Some (after cs) →
  areas_fit (after cs).
Proof.
  intros Hcs Hrun.
  exact (exec_areas_fit (H := pel4) cs init (after cs) (reach_init (H := pel4))
           fit_init Hcs Hrun).
Defined.

Lemma one_held_fits : areas_fit (after one_held).
Proof. apply after_fits; [fits|vm_compute; reflexivity]. Defined.

Lemma one_published_fits : areas_fit (after one_published).
Proof. apply after_fits; [fits|vm_compute; reflexivity]. Defined.

Lemma two_published_fits : areas_fit (after two_published).
Proof. apply after_fits; [fits|vm_compute; reflexivity]. Defined.

(** C1, as stated, fails: the swap of [swap_failed] returns NULL for want of
    memory and leaves the old buffer allocated and in the reserve. *)
Lemma C1_counterexample :
  ¬ (∀ (sz : ImageSize) s ok p b im r s',
       reachable (H := sz) s → heap s !! p = Some b → b_ref_count b = 1 →
       vips_buffer_unref_ref (H := sz) ok (Some p) im r s = Ret None s' →
       heap s' !! p = None ∧ p ∉ c_reserve (cache_of s')).
Proof.
  intros Hclaim.
  destruct (Hclaim pel4 (after one_held) false B1
              (mkBuffer 1 (Some imgA) (mkRect 5 7 10 10) false false (Some 1%positive) 400)
              imgA (mkRect 5 7 20 20) (after swap_failed))
    as [Hgone _].
  - exact one_held_reachable.
  - vm_compute. reflexivity.
  - reflexivity.
  - vm_compute. reflexivity.
  - vm_compute in Hgone. discriminate Hgone.
Qed.

Lemma C1_witness :
  vips_buffer_unref_ref (H := pel4) false (Some B1) imgA (mkRect 5 7 20 20)
    (after one_held) = Ret None (after swap_failed) ∧
  c_reserve (cache_of (after swap_failed)) = [B1] ∧
  ∃ b', heap (after swap_failed) !! B1 = Some b' ∧ b_buf b' = None.
Proof.
  assert (vips_buffer_unref_ref (H := pel4) false (Some B1) imgA (mkRect 5 7 20 20)
            (after one_held) = Ret None (after swap_failed)) as Hrun
    by (vm_compute; reflexivity).
  split; [exact Hrun|].
  destruct (C1_allocation_failure (H := pel4) (after one_held) false imgA
              (mkRect 5 7 20 20) (after swap_failed) one_held_reachable)
    as (_ & _ & Hswap & _).
  destruct (Hswap (Some B1) Hrun) as [_ (b & Hb & Hcase)].
  vm_compute in Hb. injection Hb as <-.
  change (¬ registered (after swap_failed) B1 ∧
          ∃ b', heap (after swap_failed) !! B1 = Some b' ∧ b_ref_count b' = 0 ∧
                b_buf b' = None ∧
                c_reserve (cache_of (after swap_failed)) =
                B1 :: c_reserve (cache_of (after one_held))) in Hcase.
  destruct Hcase as (_ & b' & Hb' & _ & Hbuf & Hres).
  split; [exact Hres|]. exists b'. split; [exact Hb'|exact Hbuf].
Defined.

(** C2, as stated, fails: in [one_published] the buffer [B1] is published
    for [imgA] with the area 5,7,10,10, and [vips_buffer_ref] for the pixel
    at (2147483647, 7) returns [B1]: the right edge of the request,
    2147483647 + 1, is negative as an [int]. *)
Lemma C2_counterexample :
  ¬ (∀ (sz : ImageSize) s ok im r p s',
       reachable (H := sz) s →
       vips_buffer_ref (H := sz) ok im r s = Ret (Some p) s' →
       ∃ b, heap s' !! p = Some b ∧ vips_rect_includesrect (b_area b) r = true).
Proof.
  intros Hclaim.
  destruct (Hclaim pel4 (after one_published) true imgA edge_rect B1 (after edge_ref))
    as (b & Hb & He).
  - exact one_published_reachable.
  - vm_compute. reflexivity.
  - vm_compute in Hb. injection Hb as <-. vm_compute in He. discriminate He.
Qed.

Lemma C2_witness :
  ∃ b, heap (after (one_published ++ [CallRef true imgA (mkRect 6 8 2 2)])) !! B1 =
       Some b ∧ b_im b = Some imgA ∧ 0 < b_ref_count b ∧
       vips_rect_includesrect (b_area b) (mkRect 6 8 2 2) = true.
Proof.
  destruct (C2_acquire_encloses (H := pel4) (after one_published) true imgA
              (mkRect 6 8 2 2) one_published_reachable) as [_ Hret].
  apply (Hret one_published_fits).
  - fits.
  - vm_compute. reflexivity.
Defined.


(** C4, as stated, fails: in [two_published] the buffer [B1] is published
    for [imgA] and encloses the area 2,2,4,4, and [vips_buffer_ref] returns
    [B2], which was published after it and encloses the area as well. *)
Lemma C4_counterexample :
  ¬ (∀ (sz : ImageSize) s ok im r p b,
       reachable (H := sz) s →
       heap s !! p = Some b → b_done b = true → b_im b = Some im →
       vips_rect_includesrect (b_area b) r = true →
       ∃ s', vips_buffer_ref (H := sz) ok im r s = Ret (Some p) s').
Proof.
  intros Hclaim.
  destruct (Hclaim pel4 (after two_published) true imgA (mkRect 2 2 4 4) B1
              (mkBuffer 1 (Some imgA) (mkRect 0 0 10 10) true true (Some 1%positive) 400))
    as [s' Hrun].
  - exact two_published_reachable.
  - vm_compute. reflexivity.
  - reflexivity.
  - reflexivity.
  - reflexivity.
  - vm_compute in Hrun. discriminate Hrun.
Qed.

Lemma C4_witness :
  ∃ q s', vips_buffer_ref (H := pel4) true imgA (mkRect 2 2 4 4) (after two_published)
            = Ret (Some q) s' ∧
          (B1 = q ∨ B1 ∈ [B1]) ∧
          dom (heap s') = dom (heap (after two_published)) ∧
          tracked s' = tracked (after two_published).
Proof.
  destruct (C4_acquire_published (H := pel4) (after two_published) true imgA
              (mkRect 2 2 4 4) B1
              (mkBuffer 1 (Some imgA) (mkRect 0 0 10 10) true true (Some 1%positive) 400)
              two_published_reachable two_published_fits)
    as (l1 & q & l2 & bq & s' & _ & _ & _ & _ & _ & Hrun & _ & Hdom & Htr & _).
  - fits.
  - vm_compute. reflexivity.
  - reflexivity.
  - reflexivity.
  - reflexivity.
  - exists q, s'. split; [exact Hrun|]. split; [right; apply list_elem_of_here|].
    split; [exact Hdom|exact Htr].
Defined.

(** C5, as stated, fails: the one buffer in the list of [imgA] in
    [one_published] has the area 5,7,10,10, which does not enclose the pixel
    at (2147483647, 7), and [buffer_find] returns it all the same: the right
    edge of the request, 2147483647 + 1, is negative as an [int]. *)
Lemma C5_counterexample :
  ¬ (∀ s im r p s',
       reachable (H := pel4) s → buffer_find im r s = Ret (Some p) s' →
       ∃ b, heap s !! p = Some b ∧ vips_rect_includesrect (b_area b) r = true).
Proof.
  intros Hclaim.
  destruct (Hclaim (after one_published) imgA edge_rect B1 (after edge_ref))
    as (b & Hb & He).
  - exact one_published_reachable.
  - vm_compute. reflexivity.
  - vm_compute in Hb. injection Hb as <-. vm_compute in He. discriminate He.
Qed.

Lemma C5_witness :
  buffer_find imgA (mkRect 2 2 4 4) (after two_published) =
  Ret (Some B2)
    (upd B2 (mkBuffer 2 (Some imgA) (mkRect 0 0 20 20) true true (Some 2%positive) 1600)
       (got_cache (after two_published))).
Proof.
  destruct (C5_first_fit (H := pel4) (after two_published) imgA (mkRect 2 2 4 4))
    as [Hfirst _].
  apply (Hfirst two_published_fits ltac:(fits) [] B2 [B1]
           (mkBuffer 1 (Some imgA) (mkRect 0 0 20 20) true true (Some 2%positive) 1600)).
  - vm_compute. reflexivity.
  - intros q Hq. apply elem_of_nil in Hq. destruct Hq.
  - vm_compute. reflexivity.
  - reflexivity.
Defined.

Lemma C6_witness :
  idle (after one_parked) B1
    (mkBuffer 0 None (mkRect 5 7 0 0) false false (Some 1%positive) 400).
Proof.
  destruct (C6_unreferenced_is_idle (H := pel4) (after one_parked) one_parked_reachable)
    as [Hidle _].
  apply Hidle.
  - vm_compute. reflexivity.
  - reflexivity.
Defined.

Lemma C7_witness : vips_buffer_unref B1 (after one_parked) = AssertFail.
Proof.
  destruct (C7_ref_count_not_negative (H := pel4) (after one_parked) B1
              (mkBuffer 0 None (mkRect 5 7 0 0) false false (Some 1%positive) 400)
              one_parked_reachable)
    as (_ & Hrej & _).
  - vm_compute. reflexivity.
  - apply Hrej. reflexivity.
Defined.

(** C8, as stated, fails: the buffer of [one_held] encloses the area 6,8,2,2
    but belongs to [imgA], and the swap for [imgB] aborts on the assertion
    instead of returning the buffer. *)
Lemma C8_counterexample :
  ¬ (∀ (sz : ImageSize) s ok p b im r,
       reachable (H := sz) s → heap s !! p = Some b →
       vips_rect_includesrect (b_area b) r = true →
       vips_buffer_unref_ref (H := sz) ok (Some p) im r s = Ret (Some p) s).
Proof.
  intros Hclaim.
  assert (vips_buffer_unref_ref (H := pel4) true (Some B1) imgB (mkRect 6 8 2 2)
            (after one_held) = Ret (Some B1) (after one_held)) as Hrun.
  { apply (Hclaim pel4 (after one_held) true B1
             (mkBuffer 1 (Some imgA) (mkRect 5 7 10 10) false false (Some 1%positive) 400)).
    - exact one_held_reachable.
    - vm_compute. reflexivity.
    - reflexivity. }
  vm_compute in Hrun. discriminate Hrun.
Qed.

Lemma C8_witness :
  vips_buffer_unref_ref (H := pel4) true (Some B1) imgA (mkRect 6 8 2 2)
    (after one_held) = Ret (Some B1) (after one_held).
Proof.
  apply (C8_swap_identity (H := pel4) (after one_held) true B1
           (mkBuffer 1 (Some imgA) (mkRect 5 7 10 10) false false (Some 1%positive) 400)).
  - vm_compute. reflexivity.
  - reflexivity.
  - reflexivity.
Defined.

Lemma C9_witness :
  vips_buffer_done B1 (after one_published) = Ret tt (after one_published) ∧
  vips_buffer_undone B1 (after (one_published ++ [CallUndone B1])) =
  Ret tt (after (one_published ++ [CallUndone B1])).
Proof.
  split.
  - apply (proj1 (C9_done_undone_idempotent B1 (after one_held) (after one_published))).
    vm_compute. reflexivity.
  - apply (proj2 (C9_done_undone_idempotent B1 (after one_published)
                    (after (one_published ++ [CallUndone B1])))).
    vm_compute. reflexivity.
Defined.

Lemma C10_witness :
  vips_buffer_unref_ref (H := pel4) true (Some B1) imgB (mkRect 6 8 2 2)
    (after one_held) = AssertFail.
Proof.
  destruct (C10_swap_same_image (H := pel4) (after one_held) true B1
              (mkBuffer 1 (Some imgA) (mkRect 5 7 10 10) false false (Some 1%positive) 400)
              imgB (mkRect 6 8 2 2)) as [Hother _].
  - vm_compute. reflexivity.
  - apply Hother. discriminate.
Defined.

(** ** Runs for the further properties *)

Lemma shared_published_reachable : reachable (H := pel4) (after shared_published).
Proof. apply after_reachable. vm_compute. reflexivity. Defined.

Lemma held_and_parked_reachable : reachable (H := pel4) (after held_and_parked).
Proof. apply after_reachable. vm_compute. reflexivity. Defined.

Lemma one_held_holds : held (after one_held) B1.
Proof. exists held_buffer. split; [vm_compute; reflexivity|reflexivity]. Defined.

Lemma X1_witness : (1%positive : block) ∈ tracked (after two_published).
Proof.
  destruct (X1_pixel_memory_owned (H := pel4) (after two_published)
              two_published_reachable) as (Hlive & _ & _).
  apply (Hlive B1 (mkBuffer 1 (Some imgA) (mkRect 0 0 10 10) true true
                     (Some 1%positive) 400)).
  - vm_compute. reflexivity.
  - reflexivity.
Defined.

Lemma X2_witness :
  ∃ i k, b_im held_buffer = Some i ∧ b_buf held_buffer = Some k ∧
         k ∈ tracked (after one_held) ∧
         size_t (sizeof_pel (ImageSize := pel4) i * r_width (b_area held_buffer) *
                 r_height (b_area held_buffer)) ≤ b_bsize held_buffer.
Proof.
  apply (X2_capacity_suffices (H := pel4) (after one_held) B1 held_buffer
           one_held_reachable).
  - vm_compute. reflexivity.
  - reflexivity.
Defined.

Lemma X3_witness :
  ∃ b, heap (after swap_moved) !! B1 = Some b ∧ b_im b = Some imgA ∧
       0 < b_ref_count b ∧
       vips_rect_includesrect (b_area b) (mkRect 5 7 20 20) = true.
Proof.
  destruct (X3_swap_encloses (H := pel4) (after one_held) true (Some B1) imgA
              (mkRect 5 7 20 20) B1 (after swap_moved) one_held_reachable)
    as (b & Hb & Hi & Hr & He).
  - vm_compute. reflexivity.
  - exists b. split; [exact Hb|]. split; [exact Hi|]. split; [exact Hr|].
    apply (He one_held_fits). fits.
Defined.

Lemma X4_witness :
  ∃ b, heap (after one_published) !! B1 = Some b ∧ b_done b = true ∧
       b_im b = Some imgA ∧
       vips_rect_includesrect (b_area b) (mkRect 6 8 2 2) = true ∧
       heap (after (one_published ++ [CallRef true imgA (mkRect 6 8 2 2)])) =
       <[B1 := set_ref_count (b_ref_count b + 1) b]> (heap (after one_published)).
Proof.
  destruct (X4_acquire_shares_published_only (H := pel4) (after one_published)
              true imgA (mkRect 6 8 2 2) B1
              (after (one_published ++ [CallRef true imgA (mkRect 6 8 2 2)]))
              one_published_reachable) as [Hshared _].
  - vm_compute. reflexivity.
  - destruct Hshared as (b & Hb & Hd & Hi & He & Hheap).
    { exists (mkBuffer 1 (Some imgA) (mkRect 5 7 10 10) true true
                (Some 1%positive) 400).
      split; [vm_compute; reflexivity|reflexivity]. }
    exists b. split; [exact Hb|]. split; [exact Hd|]. split; [exact Hi|].
    split; [|exact Hheap]. apply (He one_published_fits). fits.
Defined.

Lemma X5_witness :
  ∃ s1 s2,
    vips_buffer_done B1 (after one_held) = Ret tt s1 ∧
    vips_buffer_ref (H := pel4) false imgA (mkRect 6 8 2 2) s1 = Ret (Some B1) s2 ∧
    heap s2 = <[B1 := set_ref_count (b_ref_count held_buffer + 1)
                        (published held_buffer)]> (heap s1) ∧
    tracked s2 = tracked (after one_held).
Proof.
  apply (X5_publish_then_acquire (H := pel4) (after one_held) false B1 held_buffer
           imgA (mkRect 6 8 2 2) one_held_reachable).
  - vm_compute. reflexivity.
  - reflexivity.
  - reflexivity.
  - reflexivity.
  - fits.
  - fits.
  - reflexivity.
Defined.

Lemma X6_witness :
  (buffer_find imgA (mkRect 6 8 2 2) (after (one_published ++ [CallUndone B1])) =
   Ret None (got_cache (after (one_published ++ [CallUndone B1]))) →
   None ≠ Some B1) ∧
  (vips_buffer_ref (H := pel4) true imgA (mkRect 6 8 2 2)
     (after (one_published ++ [CallUndone B1])) =
   Ret (Some B2)
     (after (one_published ++ [CallUndone B1; CallRef true imgA (mkRect 6 8 2 2)])) →
   Some B2 ≠ Some B1).
Proof.
  split.
  - apply (X6_unpublished_is_hidden (H := pel4) (after one_published) B1
             (after (one_published ++ [CallUndone B1])) one_published_reachable).
    + exists (mkBuffer 1 (Some imgA) (mkRect 5 7 10 10) true true (Some 1%positive) 400).
      split; [vm_compute; reflexivity|reflexivity].
    + vm_compute. reflexivity.
    + exact true.
  - apply (X6_unpublished_is_hidden (H := pel4) (after one_published) B1
             (after (one_published ++ [CallUndone B1])) one_published_reachable).
    + exists (mkBuffer 1 (Some imgA) (mkRect 5 7 10 10) true true (Some 1%positive) 400).
      split; [vm_compute; reflexivity|reflexivity].
    + vm_compute. reflexivity.
Defined.

Lemma X7_witness :
  ∃ s1 s2,
    vips_buffer_done B1 (after one_held) = Ret tt s1 ∧
    vips_buffer_undone B1 s1 = Ret tt s2 ∧
    (∀ k, buffers_of (cache_of s2) k = buffers_of (cache_of (after one_held)) k) ∧
    c_reserve (cache_of s2) = c_reserve (cache_of (after one_held)) ∧
    heap s2 = <[B1 := set_area (zero_size (b_area held_buffer)) held_buffer]>
                (heap (after one_held)) ∧
    tracked s2 = tracked (after one_held).
Proof.
  apply (X7_done_undone_round_trip (H := pel4) (after one_held) B1 held_buffer
           one_held_reachable).
  - vm_compute. reflexivity.
  - reflexivity.
  - reflexivity.
Defined.

Lemma X8_witness :
  ∃ s1 s2 b2,
    vips_buffer_unref B1 (after one_held) = Ret tt s1 ∧
    vips_buffer_new (H := pel4) false imgB (mkRect 0 0 5 5) s1 = Ret (Some B1) s2 ∧
    heap s2 !! B1 = Some b2 ∧ b_buf b2 = Some 1%positive ∧ b_im b2 = Some imgB ∧
    tracked s2 = tracked (after one_held).
Proof.
  destruct (X8_release_then_new_reuses (H := pel4) (after one_held) B1 held_buffer
              false imgB (mkRect 0 0 5 5) one_held_reachable)
    as (s1 & Hunref & _ & _ & Hfit).
  - vm_compute. reflexivity.
  - reflexivity.
  - vm_compute. reflexivity.
  - destruct Hfit as (s2 & b2 & Hnew & Hb2 & Hbuf & _ & _ & Him & _ & Htr).
    { vm_compute. discriminate. }
    exists s1, s2, b2. split; [exact Hunref|]. split; [exact Hnew|].
    split; [exact Hb2|]. split; [exact Hbuf|]. split; [exact Him|exact Htr].
Defined.

Lemma X9_witness :
  ∃ s' b',
    vips_buffer_unref_ref (H := pel4) false (Some B1) imgA (mkRect 0 0 10 10)
      (after one_held) = Ret (Some B1) s' ∧
    heap s' = <[B1 := b']> (heap (after one_held)) ∧
    b_area b' = mkRect 0 0 10 10 ∧ b_buf b' = b_buf held_buffer ∧
    b_bsize b' = b_bsize held_buffer ∧ b_ref_count b' = 1 ∧ b_done b' = false ∧
    tracked s' = tracked (after one_held) ∧ ¬ registered s' B1.
Proof.
  destruct (X9_swap_in_place (H := pel4) (after one_held) false B1 held_buffer imgA
              (mkRect 0 0 10 10) one_held_reachable one_held_fits) as [_ Hfit].
  - fits.
  - vm_compute. reflexivity.
  - reflexivity.
  - reflexivity.
  - reflexivity.
  - intros q Hq. vm_compute in Hq. apply elem_of_nil in Hq. destruct Hq.
  - apply Hfit. vm_compute. discriminate.
Defined.

Lemma X10_witness :
  (∀ q, q ≠ B1 →
     heap (after (one_published ++ [CallRef true imgA (mkRect 6 8 2 2)])) !! q =
     heap (after one_published) !! q) ∧
  (∀ k, buffers_of (cache_of (after (one_published ++
                                       [CallRef true imgA (mkRect 6 8 2 2)]))) k =
        buffers_of (cache_of (after one_published)) k).
Proof.
  apply (X10_acquire_frame (H := pel4) (after one_published) true imgA
           (mkRect 6 8 2 2) B1
           (after (one_published ++ [CallRef true imgA (mkRect 6 8 2 2)]))
           one_published_reachable).
  vm_compute. reflexivity.
Defined.

Lemma X11_witness :
  (∃ s', vips_buffer_unref B1 (after one_held) = Ret tt s') ∧
  (∃ s', vips_buffer_done B1 (after one_held) = Ret tt s') ∧
  (∃ s', vips_buffer_undone B1 (after one_held) = Ret tt s').
Proof.
  exact (X11_held_calls_return (H := pel4) (after one_held) B1
           one_held_reachable one_held_holds).
Defined.

Lemma X12_witness :
  ∃ o s', vips_buffer_unref_ref (H := pel4) false (Some B1) imgA (mkRect 5 7 20 20)
            (after one_held) = Ret o s' ∧ (o = None → false = false).
Proof.
  apply (X12_swap_returns (H := pel4) (after one_held) false (Some B1) imgA
           (mkRect 5 7 20 20) one_held_reachable).
  intros p Hp. injection Hp as <-. exists held_buffer.
  split; [vm_compute; reflexivity|reflexivity].
Defined.

Lemma X13_witness :
  ∃ s', vips__buffer_shutdown (after held_and_parked) = Ret tt s' ∧
        tls s' = None ∧ heap s' !! B2 = None ∧
        heap s' !! B1 =
        Some (mkBuffer 1 (Some imgA) (mkRect 0 0 10 10) false true
                (Some 1%positive) 400).
Proof.
  destruct (X13_shutdown (H := pel4) (after held_and_parked) held_and_parked_reachable)
    as (s' & Hrun & Htls & Hres & Hkeep & _).
  exists s'. split; [exact Hrun|]. split; [exact Htls|]. split.
  - apply Hres. vm_compute. left.
  - apply (Hkeep B1 (mkBuffer 1 (Some imgA) (mkRect 0 0 10 10) true true
                       (Some 1%positive) 400)).
    + vm_compute. intros Hin. apply elem_of_cons in Hin as [Hin|Hin].
      * discriminate Hin.
      * apply elem_of_nil in Hin. destruct Hin.
    + vm_compute. reflexivity.
Defined.

Lemma X14_witness :
  heap (after_shutdown one_parked) = ∅ ∧ tracked (after_shutdown one_parked) = ∅.
Proof.
  destruct (X14_shutdown_leaks_nothing (H := pel4) (after one_parked)
              (after_shutdown one_parked) one_parked_reachable)
    as (_ & _ & _ & Hall).
  - vm_compute. reflexivity.
  - apply Hall. intros p b Hp.
    destruct (decide (p = B1)) as [->|Hne].
    + vm_compute in Hp. injection Hp as <-. reflexivity.
    + assert (heap (after one_parked) !! p = None) as Hnone.
      { replace (heap (after one_parked))
          with (<[B1 := mkBuffer 0 None (mkRect 5 7 0 0) false false
                           (Some 1%positive) 400]> (∅ : gmap ptr VipsBuffer))
          by (vm_compute; reflexivity).
        rewrite lookup_insert_ne by done. apply lookup_empty. }
      rewrite Hnone in Hp. discriminate Hp.
Defined.

Lemma X15_witness :
  ∃ s'', vips_buffer_unref B1 (after_shutdown held_and_parked) = Ret tt s'' ∧
         c_reserve (cache_of s'') = [B1].
Proof.
  destruct (X15_after_shutdown (H := pel4) (after held_and_parked)
              (after_shutdown held_and_parked) held_and_parked_reachable)
    as (_ & _ & Hunref).
  - vm_compute. reflexivity.
  - destruct (Hunref B1 (mkBuffer 1 (Some imgA) (mkRect 0 0 10 10) true true
                           (Some 1%positive) 400)) as (s'' & Hrun & Hlast).
    + vm_compute. reflexivity.
    + reflexivity.
    + exists s''. split; [exact Hrun|]. apply Hlast. reflexivity.
Defined.

Lemma X16_witness :
  vips_buffer_unref_ref (H := pel4) true (Some B1) imgA (mkRect 20 20 5 5)
    (after shared_published) =
  (o <- vips_buffer_ref (H := pel4) true imgA (mkRect 20 20 5 5) ;;
   vips_buffer_unref B1 ;;; ret o) (after shared_published).
Proof.
  apply (X16_swap_shared_is_ref_then_unref (H := pel4) (after shared_published) true
           B1 (mkBuffer 2 (Some imgA) (mkRect 0 0 10 10) true true (Some 1%positive) 400)
           imgA (mkRect 20 20 5 5) shared_published_reachable).
  - vm_compute. reflexivity.
  - reflexivity.
  - reflexivity.
  - reflexivity.
Defined.

Lemma X17_witness :
  ∃ rr s' b' i,
    buffer_move (H := pel4) false B1 (mkRect 0 0 20 20) (after one_held) = Ret rr s' ∧
    (rr = 0 ∨ rr = -1) ∧ b_im held_buffer = Some i ∧
    heap s' = <[B1 := b']> (heap (after one_held)) ∧
    b_area b' = mkRect 0 0 20 20 ∧ b_done b' = false ∧ b_ref_count b' = 1 ∧
    ¬ registered s' B1 ∧
    (new_bsize (H := pel4) i (mkRect 0 0 20 20) ≤ b_bsize held_buffer →
     is_Some (b_buf held_buffer) →
     rr = 0 ∧ b_buf b' = b_buf held_buffer ∧ b_bsize b' = b_bsize held_buffer ∧
     tracked s' = tracked (after one_held)) ∧
    (b_bsize held_buffer < new_bsize (H := pel4) i (mkRect 0 0 20 20) ∨
     b_buf held_buffer = None →
     b_bsize b' = new_bsize (H := pel4) i (mkRect 0 0 20 20) ∧
     (rr = 0 ↔ false = true) ∧ (rr = 0 ↔ is_Some (b_buf b'))).
Proof.
  destruct (X17_buffer_move (H := pel4) (after one_held) false B1 held_buffer
              (mkRect 0 0 20 20) one_held_reachable) as [_ Hmove].
  - vm_compute. reflexivity.
  - apply Hmove. reflexivity.
Defined.

Lemma X18_witness :
  B1 = new_target init ∧ ¬ held init B1 ∧
  ∃ b', heap (after [CallNew true imgA (mkRect 5 7 10 10)]) !! B1 = Some b' ∧
        b_ref_count b' = 1 ∧ b_im b' = Some imgA ∧ b_done b' = false ∧
        b_area b' = mkRect 5 7 10 10 ∧
        ¬ registered (after [CallNew true imgA (mkRect 5 7 10 10)]) B1 ∧
        (∀ q, q ≠ B1 →
           heap (after [CallNew true imgA (mkRect 5 7 10 10)]) !! q = heap init !! q).
Proof.
  apply (X18_new_is_exclusive (H := pel4) init true imgA (mkRect 5 7 10 10) B1
           (after [CallNew true imgA (mkRect 5 7 10 10)]) (reach_init (H := pel4))).
  vm_compute. reflexivity.
Defined.
